(** * Rules engine of [chess_pygame.py]: a shallow embedding

    The development follows the [Board] class of [src/chess_pygame.py] and
    the function [choose_ai_move].  It has two layers.

    - The value layer (top level): a board is a value, the grid a
      [list (list (option Piece))], and a method that writes returns the
      new board.  Reads that the source guards with [inside], or whose
      indices range over [range(8)], go through [cell]; reads and writes
      whose indices come straight from an argument go through [getitem]
      and [setitem], which follow Python's list indexing (negative
      indices count from the end, anything else out of range raises
      [IndexError]).
    - The object store (module [Store]): boards, row lists and [Piece]
      objects live at locations, [clone] allocates and the moves write
      rows in place, so that sharing between a board and its clone can be
      stated.  The lemmas named [..._refines] show that a method run in
      the store returns what the value layer computes.

    Colours and kinds are the strings ['w'], ['b'] and ['K'] .. ['P'] of
    the source; the integers of Python are [Z]. *)

From stdpp Require Import base option list list_numbers gmap strings.
From Stdlib Require Import ZArith Lia.

Local Open Scope Z_scope.

(** ** Data model *)

(** [WHITE = 'w'], [BLACK = 'b']. *)
Inductive Color := WHITE | BLACK.

(** The kind letters ['K','Q','R','B','N','P']. *)
Inductive Kind := King | Queen | Rook | Bishop | Knight | Pawn.

#[global] Instance Color_eq_dec : EqDecision Color.
Proof. solve_decision. Defined.

#[global] Instance Kind_eq_dec : EqDecision Kind.
Proof. solve_decision. Defined.

(** [class Piece]: two fields set by [__init__], never assigned again. *)
Record Piece := mkPiece { color : Color; kind : Kind }.

#[global] Instance Piece_eq_dec : EqDecision Piece.
Proof. solve_decision. Defined.

(** A move is [((r1,c1),(r2,c2))]. *)
Definition Square : Type := Z * Z.
Definition Move : Type := Square * Square.

(** [class Board]: the grid and the three scalar fields. *)
Record Board := mkBoard {
  board : list (list (option Piece));
  to_move : Color;
  halfmove_clock : Z;
  fullmove_number : Z
}.

(** The exceptions the engine can raise: a list index out of range, and
    an attribute read on [None]. *)
Inductive exn := IndexError | AttributeError.

Inductive res (A : Type) : Type :=
| Ok (a : A)
| Raise (e : exn).
Arguments Ok {A} a.
Arguments Raise {A} e.

#[global] Instance res_ret : MRet res := fun _ a => Ok a.
#[global] Instance res_bind : MBind res := fun _ _ f m =>
  match m with Ok a => f a | Raise e => Raise e end.

(** ** Python list indexing *)

(** The position a Python index [i] denotes in a list of length [len]. *)
Definition py_index (len i : Z) : res nat :=
  if (0 <=? i) && (i <? len) then Ok (Z.to_nat i)
  else if (- len <=? i) && (i <? 0) then Ok (Z.to_nat (len + i))
  else Raise IndexError.

(** [l[i]] *)
Definition getitem {A} (l : list A) (i : Z) : res A :=
  k ← py_index (Z.of_nat (length l)) i;
  match l !! k with Some x => Ok x | None => Raise IndexError end.

(** [l[i] = v] *)
Definition setitem {A} (l : list A) (i : Z) (v : A) : res (list A) :=
  k ← py_index (Z.of_nat (length l)) i;
  Ok (<[k := v]> l).

(** [g[r][c]] *)
Definition board_at (g : list (list (option Piece))) (r c : Z)
  : res (option Piece) :=
  row ← getitem g r; getitem row c.

(** [g[r][c] = v]: the row [g[r]] is fetched, then written at [c]. *)
Definition board_set (g : list (list (option Piece))) (r c : Z)
    (v : option Piece) : res (list (list (option Piece))) :=
  row ← getitem g r;
  row' ← setitem row c v;
  setitem g r row'.

(** The content of [g[r][c]] at the reads that cannot raise. *)
Definition cell (g : list (list (option Piece))) (r c : Z) : option Piece :=
  match board_at g r c with Ok p => p | Raise _ => None end.

(** The shape every [Board] has: [__init__] builds 8 rows of 8 cells and
    no method changes a length. *)
Definition wf_grid (g : list (list (option Piece))) : Prop :=
  length g = 8%nat ∧ Forall (fun row => length row = 8%nat) g.

(** ** Board methods *)

Definition range8 : list Z := seqZ 0 8.

(** The squares in the order of [for r in range(8): for c in range(8)]. *)
Definition all_squares : list Square :=
  r ← range8; c ← range8; [(r, c)].

Definition empty_grid : list (list (option Piece)) :=
  replicate 8 (replicate 8 None).

(** [order = ['R','N','B','Q','K','B','N','R']] *)
Definition order : list Kind :=
  [Rook; Knight; Bishop; Queen; King; Bishop; Knight; Rook].

(** Total write used by [place_starting_position], whose indices are
    literals and loop counters below 8. *)
Definition put (g : list (list (option Piece))) (r c : Z) (p : Piece)
  : list (list (option Piece)) :=
  match board_set g r c (Some p) with Ok g' => g' | Raise _ => g end.

Definition place_starting_position (g : list (list (option Piece)))
  : list (list (option Piece)) :=
  let g1 := fold_left (fun g c =>
              put (put g 6 c (mkPiece WHITE Pawn)) 1 c (mkPiece BLACK Pawn))
              range8 g in
  fold_left (fun g '(c, k) =>
               put (put g 7 c (mkPiece WHITE k)) 0 c (mkPiece BLACK k))
            (zip range8 order) g1.

(** [Board.__init__] *)
Definition new_board : Board :=
  {| board := place_starting_position empty_grid;
     to_move := WHITE;
     halfmove_clock := 0;
     fullmove_number := 1 |}.

(** [clone]: every row rebuilt, every piece rebuilt from its two fields. *)
Definition clone (b : Board) : Board :=
  {| board := map (map (fun p => match p with
                                 | None => None
                                 | Some p => Some (mkPiece (color p) (kind p))
                                 end)) (board b);
     to_move := to_move b;
     halfmove_clock := halfmove_clock b;
     fullmove_number := fullmove_number b |}.

Definition inside (r c : Z) : bool :=
  (0 <=? r) && (r <? 8) && (0 <=? c) && (c <? 8).

(** [p and p.color == color and p.kind == k] *)
Definition is_piece (col : Color) (k : Kind) (o : option Piece) : bool :=
  match o with
  | Some p => bool_decide (color p = col) && bool_decide (kind p = k)
  | None => false
  end.

Fixpoint king_scan (b : Board) (col : Color) (sqs : list Square) : Square :=
  match sqs with
  | [] => (-1, -1)
  | (r, c) :: rest =>
      if is_piece col King (cell (board b) r c) then (r, c)
      else king_scan b col rest
  end.

Definition king_position (b : Board) (col : Color) : Square :=
  king_scan b col all_squares.

Definition knight_moves : list (Z * Z) :=
  [(2,1);(2,-1);(-2,1);(-2,-1);(1,2);(1,-2);(-1,2);(-1,-2)].

Definition diagonals : list (Z * Z) := [(1,1);(1,-1);(-1,1);(-1,-1)].
Definition straights : list (Z * Z) := [(1,0);(-1,0);(0,1);(0,-1)].

(** The [(dr, dc)] pairs of the two nested loops over [(-1, 0, 1)] with
    the [continue] on [(0, 0)]. *)
Definition king_offsets : list (Z * Z) :=
  dr ← [-1; 0; 1]; dc ← [-1; 0; 1];
  if (dr =? 0) && (dc =? 0) then [] else [(dr, dc)].

(** One probe of the knight, pawn and king loops: the square is on the
    board and holds a piece of that colour and kind. *)
Definition probe (b : Board) (rr cc : Z) (col : Color) (k : Kind) : bool :=
  inside rr cc && is_piece col k (cell (board b) rr cc).

Definition knight_clause (b : Board) (r c : Z) (attacker_color : Color) : bool :=
  existsb (fun '(dr, dc) => probe b (r + dr) (c + dc) attacker_color Knight)
          knight_moves.

(** Lines 108-115: [dir = -1 if attacker_color == WHITE else 1], then the
    two squares [(r + dir, c - 1)] and [(r + dir, c + 1)]. *)
Definition pawn_clause (b : Board) (r c : Z) (attacker_color : Color) : bool :=
  let dir := if bool_decide (attacker_color = WHITE) then -1 else 1 in
  existsb (fun dc => probe b (r + dir) (c + dc) attacker_color Pawn) [-1; 1].

Definition king_clause (b : Board) (r c : Z) (attacker_color : Color) : bool :=
  existsb (fun '(dr, dc) => probe b (r + dr) (c + dc) attacker_color King)
          king_offsets.

(** The [while self.inside(rr, cc)] walk of the sliding clauses: the first
    piece met decides, an empty square moves one step on.  A walk visits
    at most 8 squares; [fuel] bounds the iterations. *)
Fixpoint attack_ray (fuel : nat) (b : Board) (attacker_color : Color)
    (k1 k2 : Kind) (rr cc dr dc : Z) : bool :=
  match fuel with
  | O => false
  | S n =>
      if inside rr cc then
        match cell (board b) rr cc with
        | Some p =>
            bool_decide (color p = attacker_color)
            && (bool_decide (kind p = k1) || bool_decide (kind p = k2))
        | None => attack_ray n b attacker_color k1 k2 (rr + dr) (cc + dc) dr dc
        end
      else false
  end.

Definition diagonal_clause (b : Board) (r c : Z) (attacker_color : Color) : bool :=
  existsb (fun '(dr, dc) =>
             attack_ray 8 b attacker_color Bishop Queen (r + dr) (c + dc) dr dc)
          diagonals.

Definition straight_clause (b : Board) (r c : Z) (attacker_color : Color) : bool :=
  existsb (fun '(dr, dc) =>
             attack_ray 8 b attacker_color Rook Queen (r + dr) (c + dc) dr dc)
          straights.

(** Each clause returns [True] at its first hit, so the method is their
    disjunction in source order. *)
Definition is_square_attacked_by (b : Board) (r c : Z) (attacker_color : Color)
  : bool :=
  knight_clause b r c attacker_color
  || pawn_clause b r c attacker_color
  || king_clause b r c attacker_color
  || diagonal_clause b r c attacker_color
  || straight_clause b r c attacker_color.

Definition opponent (col : Color) : Color :=
  if bool_decide (col = BLACK) then WHITE else BLACK.

Definition is_in_check (b : Board) (col : Color) : bool :=
  let '(kr, kc) := king_position b col in
  if kr =? -1 then false
  else is_square_attacked_by b kr kc (opponent col).

(** [target is None or target.color != color] *)
Definition free_for (col : Color) (target : option Piece) : bool :=
  match target with
  | None => true
  | Some t => negb (bool_decide (color t = col))
  end.

(** [target and target.color != color] *)
Definition enemy_of (col : Color) (target : option Piece) : bool :=
  match target with
  | None => false
  | Some t => negb (bool_decide (color t = col))
  end.

Definition is_none (o : option Piece) : bool :=
  match o with None => true | Some _ => false end.

Definition pawn_moves (b : Board) (r c : Z) (col : Color) : list Move :=
  let dir := if bool_decide (col = WHITE) then -1 else 1 in
  let start_row := if bool_decide (col = WHITE) then 6 else 1 in
  let rr := r + dir in
  let forward :=
    if inside rr c && is_none (cell (board b) rr c) then
      ((r, c), (rr, c)) ::
      (let rr2 := r + 2 * dir in
       if (r =? start_row) && is_none (cell (board b) rr2 c)
       then [((r, c), (rr2, c))] else [])
    else [] in
  let captures :=
    dc ← [-1; 1];
    let cc := c + dc in
    let rr := r + dir in
    if inside rr cc && enemy_of col (cell (board b) rr cc)
    then [((r, c), (rr, cc))] else [] in
  forward ++ captures.

Definition knight_targets (b : Board) (r c : Z) (col : Color) : list Move :=
  '(dr, dc) ← knight_moves;
  let rr := r + dr in
  let cc := c + dc in
  if negb (inside rr cc) then []
  else if free_for col (cell (board b) rr cc) then [((r, c), (rr, cc))] else [].

(** The ray walk of the sliding pieces: empty squares are added and the
    walk goes on, an opposing piece is added and ends it, a friendly
    piece ends it. *)
Fixpoint slide (fuel : nat) (b : Board) (col : Color) (r c rr cc dr dc : Z)
  : list Move :=
  match fuel with
  | O => []
  | S n =>
      if inside rr cc then
        match cell (board b) rr cc with
        | None => ((r, c), (rr, cc)) :: slide n b col r c (rr + dr) (cc + dc) dr dc
        | Some t =>
            if negb (bool_decide (color t = col)) then [((r, c), (rr, cc))]
            else []
        end
      else []
  end.

Definition directions_of (k : Kind) : list (Z * Z) :=
  (if bool_decide (k = Bishop) || bool_decide (k = Queen) then diagonals else [])
  ++ (if bool_decide (k = Rook) || bool_decide (k = Queen) then straights else []).

Definition slider_moves (b : Board) (r c : Z) (p : Piece) : list Move :=
  '(dr, dc) ← directions_of (kind p);
  slide 8 b (color p) r c (r + dr) (c + dc) dr dc.

Definition king_moves (b : Board) (r c : Z) (col : Color) : list Move :=
  '(dr, dc) ← king_offsets;
  let rr := r + dr in
  let cc := c + dc in
  if negb (inside rr cc) then []
  else if free_for col (cell (board b) rr cc) then [((r, c), (rr, cc))] else [].

(** The body of [generate_pseudo_legal_moves_from] once [p] is known. *)
Definition piece_moves (b : Board) (r c : Z) (p : Piece) : list Move :=
  match kind p with
  | Pawn => pawn_moves b r c (color p)
  | Knight => knight_targets b r c (color p)
  | Bishop | Rook | Queen => slider_moves b r c p
  | King => king_moves b r c (color p)
  end.

Definition generate_pseudo_legal_moves_from (b : Board) (r c : Z)
  : res (list Move) :=
  p ← board_at (board b) r c;
  match p with
  | None => Ok []
  | Some p => Ok (piece_moves b r c p)
  end.

(** [_make_move_no_checks]: [p.kind] on an empty source raises
    [AttributeError], after the source has been overwritten with [None]. *)
Definition _make_move_no_checks (b : Board) (move : Move) : res Board :=
  let '((r1, c1), (r2, c2)) := move in
  p ← board_at (board b) r1 c1;
  g1 ← board_set (board b) r1 c1 None;
  match p with
  | None => Raise AttributeError
  | Some p =>
      g2 ← (if bool_decide (kind p = Pawn) && ((r2 =? 0) || (r2 =? 7))
            then board_set g1 r2 c2 (Some (mkPiece (color p) Queen))
            else board_set g1 r2 c2 (Some p));
      Ok {| board := g2; to_move := to_move b;
            halfmove_clock := halfmove_clock b;
            fullmove_number := fullmove_number b |}
  end.

Definition is_legal_move (b : Board) (move : Move) (col : Color) : res bool :=
  let '((r1, c1), (r2, c2)) := move in
  p ← board_at (board b) r1 c1;
  match p with
  | None => Ok false
  | Some p =>
      if negb (bool_decide (color p = col)) then Ok false
      else
        b2 ← _make_move_no_checks (clone b) move;
        Ok (negb (is_in_check b2 col))
  end.

(** The inner loop of [generate_legal_moves]: keep the moves that pass
    [is_legal_move], in order. *)
Fixpoint keep_legal (b : Board) (col : Color) (moves : list Move)
  : res (list Move) :=
  match moves with
  | [] => Ok []
  | move :: rest =>
      ok ← is_legal_move b move col;
      kept ← keep_legal b col rest;
      Ok (if ok : bool then move :: kept else kept)
  end.

(** The two outer loops of [generate_legal_moves] over a list of squares. *)
Fixpoint legal_scan (b : Board) (col : Color) (sqs : list Square)
  : res (list Move) :=
  match sqs with
  | [] => Ok []
  | (r, c) :: rest =>
      here ← (match cell (board b) r c with
              | Some p =>
                  if bool_decide (color p = col) then
                    moves ← generate_pseudo_legal_moves_from b r c;
                    keep_legal b col moves
                  else Ok []
              | None => Ok []
              end);
      later ← legal_scan b col rest;
      Ok (here ++ later)
  end.

Definition generate_legal_moves (b : Board) (col : Color) : res (list Move) :=
  legal_scan b col all_squares.

Definition make_move (b : Board) (move : Move) : res Board :=
  let '((r1, c1), (r2, c2)) := move in
  moving ← board_at (board b) r1 c1;
  captured ← board_at (board b) r2 c2;
  b1 ← _make_move_no_checks b move;
  match moving with
  | None => Raise AttributeError
  | Some moving =>
      let hm := if bool_decide (kind moving = Pawn) || negb (is_none captured)
                then 0 else halfmove_clock b1 + 1 in
      let fm := if bool_decide (to_move b1 = BLACK)
                then fullmove_number b1 + 1 else fullmove_number b1 in
      Ok {| board := board b1;
            to_move := if bool_decide (to_move b1 = BLACK) then WHITE else BLACK;
            halfmove_clock := hm;
            fullmove_number := fm |}
  end.

(** [MATERIAL_VALUES] *)
Definition MATERIAL_VALUES (k : Kind) : Z :=
  match k with
  | King => 0 | Queen => 9 | Rook => 5 | Bishop => 3 | Knight => 3 | Pawn => 1
  end.

(** [random.choice(seq)] is [seq[randbelow(len(seq))]]; the generator's
    draw is the parameter [rnd], reduced modulo the length. *)
Definition random_choice {A} (rnd : nat) (seq : list A) : res A :=
  match seq !! (rnd `mod` length seq)%nat with
  | Some x => Ok x
  | None => Raise IndexError
  end.

(** The capture loop of [choose_ai_move]: the state is
    [(best_capture_value, best_captures)]. *)
Fixpoint capture_scan (b : Board) (moves : list Move)
    (best_capture_value : Z) (best_captures : list Move)
  : res (Z * list Move) :=
  match moves with
  | [] => Ok (best_capture_value, best_captures)
  | ((r1, c1), (r2, c2)) :: rest =>
      target ← board_at (board b) r2 c2;
      match target with
      | Some t =>
          if bool_decide (color t = WHITE) then
            let val := MATERIAL_VALUES (kind t) in
            if best_capture_value <? val then
              capture_scan b rest val [((r1, c1), (r2, c2))]
            else if val =? best_capture_value then
              capture_scan b rest best_capture_value
                           (best_captures ++ [((r1, c1), (r2, c2))])
            else capture_scan b rest best_capture_value best_captures
          else capture_scan b rest best_capture_value best_captures
      | None => capture_scan b rest best_capture_value best_captures
      end
  end.

(** [choose_ai_move] after [moves] has been computed. *)
Definition choose_from (rnd : nat) (b : Board) (moves : list Move)
  : res (option Move) :=
  match moves with
  | [] => Ok None
  | _ :: _ =>
      '(_, best_captures) ← capture_scan b moves (-1) [];
      match best_captures with
      | _ :: _ => m ← random_choice rnd best_captures; Ok (Some m)
      | [] => m ← random_choice rnd moves; Ok (Some m)
      end
  end.

Definition choose_ai_move (rnd : nat) (b : Board) : res (option Move) :=
  moves ← generate_legal_moves b BLACK;
  choose_from rnd b moves.

(** The two outer loops of [generate_legal_moves] without the
    [is_legal_move] test: the pseudo-legal moves of a colour. *)
Fixpoint pseudo_scan (b : Board) (col : Color) (sqs : list Square)
  : res (list Move) :=
  match sqs with
  | [] => Ok []
  | (r, c) :: rest =>
      here ← (match cell (board b) r c with
              | Some p =>
                  if bool_decide (color p = col)
                  then generate_pseudo_legal_moves_from b r c
                  else Ok []
              | None => Ok []
              end);
      later ← pseudo_scan b col rest;
      Ok (here ++ later)
  end.

Definition pseudo_legal_moves (b : Board) (col : Color) : res (list Move) :=
  pseudo_scan b col all_squares.

(** The piece [_make_move_no_checks] writes at a destination in row [r2]. *)
Definition landed (p : Piece) (r2 : Z) : Piece :=
  if bool_decide (kind p = Pawn) && ((r2 =? 0) || (r2 =? 7))
  then mkPiece (color p) Queen else p.

(** Some square of the grid holds a king of that colour. *)
Definition has_king (b : Board) (col : Color) : bool :=
  existsb (fun '(r, c) => is_piece col King (cell (board b) r c)) all_squares.

(** The number of squares a walk from [(rr, cc)] in direction
    [(dr, dc)] can still visit before it leaves the board. *)
Definition steps_left (rr cc dr dc : Z) : Z :=
  if dr =? 1 then 8 - rr
  else if dr =? -1 then rr + 1
  else if dc =? 1 then 8 - cc
  else cc + 1.

(** The eight directions of the sliding clauses. *)
Definition is_direction (dr dc : Z) : bool :=
  bool_decide ((dr, dc) ∈ diagonals ++ straights).

(** ** Positions used below *)

(** White king a1, black king c2, black queen b3, White to move. *)
Definition stalemate_board (hm fm : Z) : Board :=
  {| board := put (put (put empty_grid 7 0 (mkPiece WHITE King))
                       6 2 (mkPiece BLACK King))
                  5 1 (mkPiece BLACK Queen);
     to_move := WHITE; halfmove_clock := hm; fullmove_number := fm |}.

(** A white pawn on a2 [(6,0)] and a black king on b3 [(5,1)]. *)
Definition pawn_attack_board : Board :=
  {| board := put (put empty_grid 6 0 (mkPiece WHITE Pawn))
                  5 1 (mkPiece BLACK King);
     to_move := BLACK; halfmove_clock := 0; fullmove_number := 1 |}.

(** A black pawn on a7 [(1,0)] and a white king on b6 [(2,1)]. *)
Definition black_pawn_attack_board : Board :=
  {| board := put (put empty_grid 1 0 (mkPiece BLACK Pawn))
                  2 1 (mkPiece WHITE King);
     to_move := WHITE; halfmove_clock := 0; fullmove_number := 1 |}.

(** A white pawn on a7 [(1,0)], one step from row 0. *)
Definition promotion_board : Board :=
  {| board := put empty_grid 1 0 (mkPiece WHITE Pawn);
     to_move := WHITE; halfmove_clock := 3; fullmove_number := 9 |}.

(** ** The object store *)

Module Store.

Definition loc := positive.

(** A [Board] object: [self.board] is a list of references to row lists. *)
Record obj := mkObj {
  o_board : list loc;
  o_to_move : Color;
  o_halfmove_clock : Z;
  o_fullmove_number : Z
}.

(** The store: [Piece] objects, row lists (whose entries are [None] or a
    reference to a [Piece]) and [Board] objects. *)
Record store := mkStore {
  pieces : gmap loc Piece;
  rows : gmap loc (list (option loc));
  boards : gmap loc obj
}.

(** A reference to no object.  No Python run produces one; the reads of
    the model report it as [Dangling] when the store is ill-formed. *)
Inductive outcome (A : Type) : Type :=
| Done (r : res A)
| Dangling.
Arguments Done {A} r.
Arguments Dangling {A}.

(** A method run: the store afterwards (kept also when an exception
    leaves the method) and the outcome. *)
Definition M (A : Type) : Type := store → store * outcome A.

Definition ret {A} (a : A) : M A := fun s => (s, Done (Ok a)).

Definition bind {A B} (m : M A) (f : A → M B) : M B := fun s =>
  match m s with
  | (s', Done (Ok a)) => f a s'
  | (s', Done (Raise e)) => (s', Done (Raise e))
  | (s', Dangling) => (s', Dangling)
  end.

Notation "x <- m ;; k" := (bind m (fun x => k))
  (at level 100, m at next level, right associativity).

Definition lift {A} (r : res A) : M A := fun s => (s, Done r).

Definition read_piece (l : loc) : M Piece := fun s =>
  match pieces s !! l with Some p => (s, Done (Ok p)) | None => (s, Dangling) end.

Definition read_row (l : loc) : M (list (option loc)) := fun s =>
  match rows s !! l with Some r => (s, Done (Ok r)) | None => (s, Dangling) end.

Definition read_board (l : loc) : M obj := fun s =>
  match boards s !! l with Some o => (s, Done (Ok o)) | None => (s, Dangling) end.

Definition alloc_piece (p : Piece) : M loc := fun s =>
  let l := fresh (dom (pieces s)) in
  (mkStore (<[l := p]> (pieces s)) (rows s) (boards s), Done (Ok l)).

Definition alloc_row (r : list (option loc)) : M loc := fun s =>
  let l := fresh (dom (rows s)) in
  (mkStore (pieces s) (<[l := r]> (rows s)) (boards s), Done (Ok l)).

Definition alloc_board (o : obj) : M loc := fun s =>
  let l := fresh (dom (boards s)) in
  (mkStore (pieces s) (rows s) (<[l := o]> (boards s)), Done (Ok l)).

Definition write_row (l : loc) (r : list (option loc)) : M unit := fun s =>
  (mkStore (pieces s) (<[l := r]> (rows s)) (boards s), Done (Ok tt)).

Definition write_board (l : loc) (o : obj) : M unit := fun s =>
  (mkStore (pieces s) (rows s) (<[l := o]> (boards s)), Done (Ok tt)).

(** A list comprehension whose element expression runs in the store. *)
Fixpoint comprehension {A B} (f : A → M B) (l : list A) : M (list B) :=
  match l with
  | [] => ret []
  | x :: rest => y <- f x ;; ys <- comprehension f rest ;; ret (y :: ys)
  end.

(** [None if p is None else Piece(p.color, p.kind)] *)
Definition copy_cell (p : option loc) : M (option loc) :=
  match p with
  | None => ret None
  | Some pl =>
      pc <- read_piece pl ;;
      l <- alloc_piece (mkPiece (color pc) (kind pc)) ;;
      ret (Some l)
  end.

Definition copy_row (rl : loc) : M loc :=
  row <- read_row rl ;;
  cells <- comprehension copy_cell row ;;
  alloc_row cells.

(** [clone].  [Board.__new__] makes the object before its fields are
    assigned; boards, rows and pieces are numbered apart, so making it
    last yields the same store. *)
Definition clone (self : loc) : M loc :=
  o <- read_board self ;;
  new_rows <- comprehension copy_row (o_board o) ;;
  alloc_board (mkObj new_rows (o_to_move o) (o_halfmove_clock o)
                     (o_fullmove_number o)).

(** [self.board[r][c]] *)
Definition load_cell (self : loc) (r c : Z) : M (option loc) :=
  o <- read_board self ;;
  rl <- lift (getitem (o_board o) r) ;;
  row <- read_row rl ;;
  lift (getitem row c).

(** [self.board[r][c] = v]: the row object is written in place. *)
Definition store_cell (self : loc) (r c : Z) (v : option loc) : M unit :=
  o <- read_board self ;;
  rl <- lift (getitem (o_board o) r) ;;
  row <- read_row rl ;;
  row' <- lift (setitem row c v) ;;
  write_row rl row'.

Definition _make_move_no_checks (self : loc) (move : Move) : M unit :=
  let '((r1, c1), (r2, c2)) := move in
  p <- load_cell self r1 c1 ;;
  _ <- store_cell self r1 c1 None ;;
  match p with
  | None => lift (Raise AttributeError)
  | Some pl =>
      pc <- read_piece pl ;;
      if bool_decide (kind pc = Pawn) && ((r2 =? 0) || (r2 =? 7)) then
        q <- alloc_piece (mkPiece (color pc) Queen) ;;
        store_cell self r2 c2 (Some q)
      else store_cell self r2 c2 (Some pl)
  end.

(** What a reference denotes: the board value read off the store. *)
Definition view_cell (s : store) (p : option loc) : option (option Piece) :=
  match p with
  | None => Some None
  | Some pl => Some <$> pieces s !! pl
  end.

Definition view_row (s : store) (rl : loc) : option (list (option Piece)) :=
  row ← rows s !! rl; mapM (view_cell s) row.

Definition view (s : store) (self : loc) : option Board :=
  o ← boards s !! self;
  g ← mapM (view_row s) (o_board o);
  Some (mkBoard g (o_to_move o) (o_halfmove_clock o) (o_fullmove_number o)).

(** Methods that only read run on the value the store holds. *)
Definition snapshot (self : loc) : M Board := fun s =>
  match view s self with Some b => (s, Done (Ok b)) | None => (s, Dangling) end.

Definition is_legal_move (self : loc) (move : Move) (col : Color) : M bool :=
  let '((r1, c1), (r2, c2)) := move in
  p <- load_cell self r1 c1 ;;
  match p with
  | None => ret false
  | Some pl =>
      pc <- read_piece pl ;;
      if negb (bool_decide (color pc = col)) then ret false
      else
        b2 <- clone self ;;
        _ <- _make_move_no_checks b2 move ;;
        after <- snapshot b2 ;;
        ret (negb (is_in_check after col))
  end.

(** The loops of [generate_legal_moves]; the reads of [self.board] and
    [generate_pseudo_legal_moves_from] run on the value in the store. *)
Fixpoint keep_legal (self : loc) (col : Color) (moves : list Move)
  : M (list Move) :=
  match moves with
  | [] => ret []
  | move :: rest =>
      ok <- is_legal_move self move col ;;
      kept <- keep_legal self col rest ;;
      ret (if ok : bool then move :: kept else kept)
  end.

Fixpoint legal_scan (self : loc) (col : Color) (sqs : list Square)
  : M (list Move) :=
  match sqs with
  | [] => ret []
  | (r, c) :: rest =>
      b <- snapshot self ;;
      here <- (match cell (board b) r c with
               | Some p =>
                   if bool_decide (color p = col) then
                     moves <- lift (generate_pseudo_legal_moves_from b r c) ;;
                     keep_legal self col moves
                   else ret []
               | None => ret []
               end) ;;
      later <- legal_scan self col rest ;;
      ret (here ++ later)
  end.

Definition generate_legal_moves (self : loc) (col : Color) : M (list Move) :=
  legal_scan self col all_squares.

Definition choose_ai_move (rnd : nat) (board : loc) : M (option Move) :=
  moves <- generate_legal_moves board BLACK ;;
  b <- snapshot board ;;
  lift (choose_from rnd b moves).

(** Assignments to the scalar fields of [self]. *)
Definition set_halfmove_clock (self : loc) (v : Z) : M unit :=
  o <- read_board self ;;
  write_board self (mkObj (o_board o) (o_to_move o) v (o_fullmove_number o)).

Definition set_fullmove_number (self : loc) (v : Z) : M unit :=
  o <- read_board self ;;
  write_board self (mkObj (o_board o) (o_to_move o) (o_halfmove_clock o) v).

Definition set_to_move (self : loc) (v : Color) : M unit :=
  o <- read_board self ;;
  write_board self (mkObj (o_board o) v (o_halfmove_clock o)
                          (o_fullmove_number o)).

Definition make_move (self : loc) (move : Move) : M unit :=
  let '((r1, c1), (r2, c2)) := move in
  moving <- load_cell self r1 c1 ;;
  captured <- load_cell self r2 c2 ;;
  _ <- _make_move_no_checks self move ;;
  match moving with
  | None => lift (Raise AttributeError)
  | Some ml =>
      mp <- read_piece ml ;;
      _ <- (if bool_decide (kind mp = Pawn)
               || match captured with Some _ => true | None => false end
            then set_halfmove_clock self 0
            else o <- read_board self ;;
                 set_halfmove_clock self (o_halfmove_clock o + 1)) ;;
      _ <- (o <- read_board self ;;
            if bool_decide (o_to_move o = BLACK)
            then set_fullmove_number self (o_fullmove_number o + 1)
            else ret tt) ;;
      o <- read_board self ;;
      set_to_move self (if bool_decide (o_to_move o = BLACK) then WHITE else BLACK)
  end.

(** A [for] loop whose body runs in the store. *)
Fixpoint for_each {A} (l : list A) (body : A → M unit) : M unit :=
  match l with
  | [] => ret tt
  | x :: rest => _ <- body x ;; for_each rest body
  end.

(** [self.board[r][c] = Piece(col, k)] *)
Definition place (self : loc) (r c : Z) (col : Color) (k : Kind) : M unit :=
  l <- alloc_piece (mkPiece col k) ;; store_cell self r c (Some l).

Definition place_starting_position (self : loc) : M unit :=
  _ <- for_each range8 (fun c =>
         _ <- place self 6 c WHITE Pawn ;; place self 1 c BLACK Pawn) ;;
  for_each (zip range8 order) (fun '(c, k) =>
         _ <- place self 7 c WHITE k ;; place self 0 c BLACK k).

(** [Board.__init__] *)
Definition Board_init : M loc :=
  rls <- comprehension (fun _ => alloc_row (replicate 8 None)) range8 ;;
  self <- alloc_board (mkObj rls WHITE 0 1) ;;
  _ <- place_starting_position self ;;
  ret self.

Definition empty : store := mkStore ∅ ∅ ∅.

(** The store after [Board()] has run on the empty store; the board is
    at location 1. *)
Definition initial_store : store := (Board_init empty).1.

End Store.

(** ** Predicates of the statements *)

(** Every generated move starts on the given square and ends on the
    board. *)
Definition from_to_board (r c : Z) (m : Move) : Prop :=
  m.1 = (r, c) ∧ inside m.2.1 m.2.2 = true.

(** [s'] has every object of [s], unchanged. *)
Definition extends (s s' : Store.store) : Prop :=
  Store.pieces s ⊆ Store.pieces s'
  ∧ Store.rows s ⊆ Store.rows s'
  ∧ Store.boards s ⊆ Store.boards s'.

(** [s'] is [s] with new pieces. *)
Definition adds_pieces (s s' : Store.store) : Prop :=
  Store.pieces s ⊆ Store.pieces s'
  ∧ Store.rows s' = Store.rows s
  ∧ Store.boards s' = Store.boards s.

(** [s'] is [s] with new pieces and new rows. *)
Definition adds_rows (s s' : Store.store) : Prop :=
  Store.pieces s ⊆ Store.pieces s'
  ∧ Store.rows s ⊆ Store.rows s'
  ∧ Store.boards s' = Store.boards s.

(** [s'] is [s] with new pieces and with rows written only at [locs]. *)
Definition writes_rows (locs : list Store.loc) (s s' : Store.store) : Prop :=
  Store.pieces s ⊆ Store.pieces s'
  ∧ Store.boards s' = Store.boards s
  ∧ ∀ l, l ∉ locs → Store.rows s' !! l = Store.rows s !! l.

(** Two results that agree: both values, related by [R], or the same
    exception. *)
Definition res_rel {A B} (R : A → B → Prop) (x : res A) (y : res B) : Prop :=
  match x, y with
  | Ok a, Ok b => R a b
  | Raise e, Raise e' => e = e'
  | _, _ => False
  end.

(** [s'] is [s] with new pieces, with rows written only at [locs] and
    with no board object written but [self]. *)
Definition writes_object (self : Store.loc) (locs : list Store.loc)
    (s s' : Store.store) : Prop :=
  Store.pieces s ⊆ Store.pieces s'
  ∧ (∀ l, l ≠ self → Store.boards s' !! l = Store.boards s !! l)
  ∧ (∀ l, l ∉ locs → Store.rows s' !! l = Store.rows s !! l).

(** [self] is a board object whose rows are [locs]. *)
Definition has_rows (self : Store.loc) (locs : list Store.loc)
    (s : Store.store) : Prop :=
  ∃ o, Store.boards s !! self = Some o ∧ Store.o_board o = locs.

(** Every run of [m] from a store where [self] has rows [locs] writes
    that object only, and [self] keeps its rows. *)
Definition confined {A} (self : Store.loc) (locs : list Store.loc)
    (m : Store.M A) : Prop :=
  ∀ s s' out, has_rows self locs s → m s = (s', out) →
    writes_object self locs s s' ∧ has_rows self locs s'.

(** [b] with another grid. *)
Definition with_board (b : Board) (g : list (list (option Piece))) : Board :=
  mkBoard g (to_move b) (halfmove_clock b) (fullmove_number b).

(** The rows of a board are distinct objects, as [__init__] and [clone]
    make them. *)
Definition rows_distinct (s : Store.store) (self : Store.loc) : Prop :=
  ∃ o, Store.boards s !! self = Some o ∧ NoDup (Store.o_board o).


(** The squares [k] steps along a ray: [k = 0] is [(rr, cc)] itself. *)
Definition along (rr cc dr dc k : Z) : Square := (rr + k * dr, cc + k * dc).

(** The first [k] squares of the ray are on the board and empty. *)
Definition clear_run (b : Board) (rr cc dr dc k : Z) : Prop :=
  ∀ j, 0 ≤ j < k →
    inside (rr + j * dr) (cc + j * dc) = true
    ∧ cell (board b) (rr + j * dr) (cc + j * dc) = None.

(** The body shared by the knight and king branches of
    [generate_pseudo_legal_moves_from], over a list of offsets. *)
Definition offset_moves (b : Board) (r c : Z) (col : Color)
    (offs : list (Z * Z)) : list Move :=
  '(dr, dc) ← offs;
  let rr := r + dr in
  let cc := c + dc in
  if negb (inside rr cc) then []
  else if free_for col (cell (board b) rr cc) then [((r, c), (rr, cc))] else [].

(** No square of the board holds a piece of the colour. *)
Definition no_piece_of (b : Board) (col : Color) : bool :=
  forallb (fun '(r, c) =>
             match cell (board b) r c with
             | Some p => negb (bool_decide (color p = col))
             | None => true
             end) all_squares.

(** A board with no piece on it. *)
Definition empty_board : Board :=
  {| board := empty_grid; to_move := BLACK;
     halfmove_clock := 0; fullmove_number := 1 |}.

(** The value [choose_ai_move] gives a move: the material value of the
    White piece on its destination, if there is one. *)
Definition capture_value (b : Board) (m : Move) : option Z :=
  match cell (board b) m.2.1 m.2.2 with
  | Some t =>
      if bool_decide (color t = WHITE) then Some (MATERIAL_VALUES (kind t))
      else None
  | None => None
  end.

(** ** The interaction layer: [ChessUI] *)

(** [TILE_SIZE] and [BOARD_SIZE = TILE_SIZE * 8]. *)
Definition TILE_SIZE : Z := 80.
Definition BOARD_SIZE : Z := TILE_SIZE * 8.

(** The fields of [ChessUI] that its logic reads and writes: [self.board],
    [self.selected], [self.legal_targets] and [self.game_over_text].  The
    screen, clock and fonts take no part in it. *)
Record ChessUI := mkUI {
  ui_board : Board;
  selected : option Square;
  legal_targets : list Square;
  game_over_text : option string
}.

(** Truth value of [self.game_over_text]: [None] and the empty string
    are false. *)
Definition is_set (t : option string) : bool :=
  match t with
  | Some (String _ _) => true
  | _ => false
  end.

(** The loop of [select_square]: the destinations of the moves that start
    on [sq], in the order of [moves]. *)
Definition targets_from (moves : list Move) (sq : Square) : list Square :=
  '(src, dst) ← moves; if bool_decide (src = sq) then [dst] else [].

(** [select_square]: the destinations of White's legal moves that start
    on [(r, c)], in generation order. *)
Definition select_square (u : ChessUI) (r c : Z) : res ChessUI :=
  moves ← generate_legal_moves (ui_board u) WHITE;
  Ok {| ui_board := ui_board u;
        selected := Some (r, c);
        legal_targets := targets_from moves (r, c);
        game_over_text := game_over_text u |}.

(** The text set when the side [col] has no legal move on [b]. *)
Definition end_text (b : Board) (col : Color) (winner : string) : string :=
  if is_in_check b col then winner else "Stalemate!"%string.

(** [handle_mouse_click]; [//] is floor division, as [Z.div] is for a
    positive divisor. *)
Definition handle_mouse_click (u : ChessUI) (pos : Z * Z) : res ChessUI :=
  let '(x, y) := pos in
  if BOARD_SIZE <=? x then Ok u
  else
    let c := x `div` TILE_SIZE in
    let r := y `div` TILE_SIZE in
    if negb (inside r c) then Ok u
    else
      match selected u with
      | Some (sr, sc) =>
          let move := ((sr, sc), (r, c)) in
          if existsb (fun t => bool_decide ((r, c) = t)) (legal_targets u) then
            b' ← make_move (ui_board u) move;
            black_moves ← generate_legal_moves b' BLACK;
            Ok {| ui_board := b';
                  selected := None;
                  legal_targets := [];
                  game_over_text :=
                    match black_moves with
                    | [] => Some (end_text b' BLACK "Checkmate! White wins.")
                    | _ :: _ => game_over_text u
                    end |}
          else
            let b := ui_board u in
            match cell (board b) r c with
            | Some p =>
                if bool_decide (color p = to_move b)
                   && bool_decide (to_move b = WHITE)
                   && bool_decide (to_move b = WHITE)
                then select_square u r c
                else Ok {| ui_board := b; selected := None;
                           legal_targets := [];
                           game_over_text := game_over_text u |}
            | None => Ok {| ui_board := b; selected := None;
                            legal_targets := [];
                            game_over_text := game_over_text u |}
            end
      | None =>
          if negb (bool_decide (to_move (ui_board u) = WHITE)) then Ok u
          else
            match cell (board (ui_board u)) r c with
            | Some p =>
                if bool_decide (color p = WHITE) then select_square u r c
                else Ok u
            | None => Ok u
            end
      end.

(** The events [run] tells apart. *)
Inductive event :=
| QUIT
| MOUSEBUTTONDOWN (button : Z) (pos : Z * Z)
| OTHER.

(** The event loop of one frame of [run]: the state is [(running, u)]. *)
Fixpoint handle_events (events : list event) (running : bool) (u : ChessUI)
  : res (bool * ChessUI) :=
  match events with
  | [] => Ok (running, u)
  | QUIT :: rest => handle_events rest false u
  | MOUSEBUTTONDOWN button pos :: rest =>
      if (button =? 1) && negb (is_set (game_over_text u)) then
        u' ← handle_mouse_click u pos;
        handle_events rest running u'
      else handle_events rest running u
  | OTHER :: rest => handle_events rest running u
  end.

(** The automated turn of [run] (lines 343-361); [rnd] is the draw of
    [random.choice]. *)
Definition ai_turn (rnd : nat) (u : ChessUI) : res ChessUI :=
  if negb (is_set (game_over_text u))
     && bool_decide (to_move (ui_board u) = BLACK) then
    move ← choose_ai_move rnd (ui_board u);
    match move with
    | None =>
        Ok {| ui_board := ui_board u; selected := selected u;
              legal_targets := legal_targets u;
              game_over_text :=
                Some (end_text (ui_board u) BLACK "Checkmate! White wins.") |}
    | Some move =>
        b' ← make_move (ui_board u) move;
        white_moves ← generate_legal_moves b' WHITE;
        Ok {| ui_board := b'; selected := selected u;
              legal_targets := legal_targets u;
              game_over_text :=
                match white_moves with
                | [] => Some (end_text b' WHITE "Checkmate! Black wins.")
                | _ :: _ => game_over_text u
                end |}
    end
  else Ok u.

(** One pass of the [while running] loop of [run]: the events, then the
    automated turn.  [self.draw()] between them only reads the state, and
    [clock.tick] and [time.delay] only wait. *)
Definition run_frame (rnd : nat) (events : list event) (u : ChessUI)
  : res (bool * ChessUI) :=
  '(running, u1) ← handle_events events true u;
  u2 ← ai_turn rnd u1;
  Ok (running, u2).

(** The [while running] loop of [run] over the frames it is given, each
    with its draw and its events; the loop ends after the frame that
    clears [running]. *)
Fixpoint run (frames : list (nat * list event)) (u : ChessUI) : res ChessUI :=
  match frames with
  | [] => Ok u
  | (rnd, events) :: rest =>
      '(running, u') ← run_frame rnd events u;
      if running : bool then run rest u' else Ok u'
  end.

(** [ChessUI.__init__] *)
Definition new_ui : ChessUI :=
  {| ui_board := new_board; selected := None; legal_targets := [];
     game_over_text := None |}.

(** ** Predicates on the state of [ChessUI] *)

(** The selection agrees with the board: nothing is selected and no
    target is listed, or White is to move and the targets are the
    destinations of White's legal moves from the selected square. *)
Definition selection_ok (u : ChessUI) : Prop :=
  match selected u with
  | None => legal_targets u = []
  | Some sq =>
      to_move (ui_board u) = WHITE
      ∧ ∃ moves, generate_legal_moves (ui_board u) WHITE = Ok moves
          ∧ legal_targets u = targets_from moves sq
  end.

(** The text [run] sets when the side [loser] is mated. *)
Definition mate_text (loser : Color) : string :=
  match loser with
  | BLACK => "Checkmate! White wins."
  | WHITE => "Checkmate! Black wins."
  end.

(** The game-over text agrees with the board: there is none and the side
    to move has a legal move, or the side to move has no legal move and
    the text names a mate when that side is in check and a stalemate
    when it is not. *)
Definition text_ok (u : ChessUI) : Prop :=
  let b := ui_board u in
  match game_over_text u with
  | None => ∃ m moves, generate_legal_moves b (to_move b) = Ok (m :: moves)
  | Some t =>
      generate_legal_moves b (to_move b) = Ok []
      ∧ t = end_text b (to_move b) (mate_text (to_move b))
  end.


(** * Properties *)

(** ** Indexing on a well-formed grid *)

Lemma inside_spec r c : inside r c = true ↔ (0 ≤ r < 8 ∧ 0 ≤ c < 8).
Proof. unfold inside. rewrite !andb_true_iff. lia. Qed.

Lemma py_index_in_range len i : 0 ≤ i < len → py_index len i = Ok (Z.to_nat i).
Proof.
  intros H. unfold py_index.
  destruct (0 <=? i) eqn:E1; [|lia]. destruct (i <? len) eqn:E2; [done|lia].
Qed.

Lemma wf_grid_row g r :
  wf_grid g → 0 ≤ r < 8 →
  ∃ row, g !! Z.to_nat r = Some row ∧ length row = 8%nat.
Proof.
  intros [Hl Hr] Hin.
  destruct (lookup_lt_is_Some_2 g (Z.to_nat r)) as [row Hrow]; [lia|].
  exists row. split; [done|].
  by eapply (Forall_lookup_1 _ _ _ _ Hr).
Qed.

Lemma getitem_in_range {A} (l : list A) i x :
  0 ≤ i < Z.of_nat (length l) → l !! Z.to_nat i = Some x → getitem l i = Ok x.
Proof.
  intros Hi Hx. unfold getitem. rewrite py_index_in_range by done.
  cbn. by rewrite Hx.
Qed.

Lemma setitem_in_range {A} (l : list A) i v :
  0 ≤ i < Z.of_nat (length l) → setitem l i v = Ok (<[Z.to_nat i := v]> l).
Proof. intros Hi. unfold setitem. by rewrite py_index_in_range. Qed.

(** On a well-formed grid a guarded read is the Python read. *)
Lemma board_at_inside g r c :
  wf_grid g → inside r c = true → board_at g r c = Ok (cell g r c).
Proof.
  intros Hwf [Hr Hc]%inside_spec.
  destruct (wf_grid_row g r Hwf Hr) as (row & Hrow & Hlen).
  destruct (lookup_lt_is_Some_2 row (Z.to_nat c)) as [x Hx]; [lia|].
  assert (Hat : board_at g r c = Ok x).
  { unfold board_at. rewrite (getitem_in_range g r row); [|destruct Hwf; lia|done].
    cbn. apply getitem_in_range; [lia|done]. }
  unfold cell. by rewrite Hat.
Qed.

Lemma board_set_inside g r c v :
  wf_grid g → inside r c = true →
  ∃ g', board_set g r c v = Ok g' ∧ wf_grid g' ∧
        ∀ r' c', inside r' c' = true →
          cell g' r' c' = if decide ((r', c') = (r, c)) then v else cell g r' c'.
Proof.
  intros Hwf [Hr Hc]%inside_spec.
  destruct (wf_grid_row g r Hwf Hr) as (row & Hrow & Hlen).
  pose proof Hwf as [Hlg Hrows].
  exists (<[Z.to_nat r := <[Z.to_nat c := v]> row]> g).
  assert (Hwf' : wf_grid (<[Z.to_nat r := <[Z.to_nat c := v]> row]> g)).
  { split; [by rewrite length_insert|].
    apply Forall_insert; [done|]. by rewrite length_insert. }
  split; [|split; [done|]].
  - unfold board_set. rewrite (getitem_in_range g r row); [|lia|done]. cbn.
    rewrite setitem_in_range by lia. cbn. apply setitem_in_range. lia.
  - intros r' c' Hin'. pose proof Hin' as [Hr' Hc']%inside_spec.
    unfold cell, board_at.
    destruct (wf_grid_row g r' Hwf Hr') as (row' & Hrow' & Hlen').
    rewrite (getitem_in_range g r' row'); [|lia|done]. cbn.
    destruct (decide (Z.to_nat r' = Z.to_nat r)) as [Er|Er].
    + rewrite (getitem_in_range _ r' (<[Z.to_nat c := v]> row)).
      2:{ rewrite length_insert. lia. }
      2:{ rewrite Er. apply list_lookup_insert_eq. lia. }
      cbn. assert (row' = row) by congruence. subst row'.
      destruct (decide (Z.to_nat c' = Z.to_nat c)) as [Ec|Ec].
      * rewrite decide_True by (f_equal; lia).
        rewrite (getitem_in_range _ c' v); [done|rewrite length_insert; lia|].
        rewrite Ec. apply list_lookup_insert_eq. lia.
      * rewrite decide_False by (intros [=]; lia).
        destruct (lookup_lt_is_Some_2 row (Z.to_nat c')) as [x Hx]; [lia|].
        rewrite (getitem_in_range _ c' x); [|rewrite length_insert; lia|].
        2:{ by rewrite list_lookup_insert_ne. }
        by rewrite (getitem_in_range row c' x) by (done || lia).
    + rewrite decide_False by (intros [=]; lia).
      rewrite (getitem_in_range _ r' row'); [done|rewrite length_insert; lia|].
      by rewrite list_lookup_insert_ne.
Qed.

Lemma wf_grid_new_board : wf_grid (board new_board).
Proof. split; [reflexivity|]. vm_compute. repeat constructor. Qed.

Lemma wf_grid_put g r c p : wf_grid g → wf_grid (put g r c p).
Proof.
  intros [Hl Hr]. unfold put, board_set, getitem, setitem.
  destruct (py_index _ r) as [k|e]; cbn; [|done].
  destruct (g !! k) as [row|] eqn:E; cbn; [|done].
  destruct (py_index _ c) as [j|e]; cbn; [|done].
  split; [by rewrite length_insert|].
  apply Forall_insert; [done|]. rewrite length_insert.
  by eapply (Forall_lookup_1 _ _ _ _ Hr).
Qed.

Lemma wf_grid_empty : wf_grid empty_grid.
Proof. split; [reflexivity|]. vm_compute. repeat constructor. Qed.

Lemma clone_id b : clone b = b.
Proof.
  destruct b as [g t h f]. unfold clone. cbn. f_equal.
  induction g as [|row g IH]; [done|]. cbn. f_equal; [|done].
  clear IH. induction row as [|[[]|] row IH]; cbn; by f_equal.
Qed.

Lemma all_squares_inside sq : sq ∈ all_squares → inside sq.1 sq.2 = true.
Proof.
  intros H. assert (Hall : forallb (fun sq => inside sq.1 sq.2) all_squares = true)
    by reflexivity.
  rewrite forallb_forall in Hall. apply Hall. by apply list_elem_of_In.
Qed.

(** ** The ray walks end within their eight iterations *)

Lemma steps_left_step rr cc dr dc :
  is_direction dr dc = true → inside rr cc = true →
  1 ≤ steps_left rr cc dr dc ≤ 8
  ∧ steps_left (rr + dr) (cc + dc) dr dc = steps_left rr cc dr dc - 1.
Proof.
  intros Hd [Hr Hc]%inside_spec. apply bool_decide_eq_true in Hd.
  unfold steps_left.
  repeat (apply elem_of_cons in Hd as [[= -> ->] | Hd]; [cbn; lia|]).
  by apply elem_of_nil in Hd.
Qed.

Lemma attack_ray_fuel n m b ac k1 k2 rr cc dr dc :
  is_direction dr dc = true →
  (inside rr cc = true →
   steps_left rr cc dr dc ≤ Z.of_nat n ∧ steps_left rr cc dr dc ≤ Z.of_nat m) →
  attack_ray n b ac k1 k2 rr cc dr dc = attack_ray m b ac k1 k2 rr cc dr dc.
Proof.
  intros Hd. revert m rr cc. induction n as [|n IH]; intros m rr cc Hfuel.
  - destruct m as [|m]; [done|]. cbn.
    destruct (inside rr cc) eqn:Hin; [|done].
    destruct (steps_left_step rr cc dr dc Hd Hin), (Hfuel eq_refl). lia.
  - cbn. destruct (inside rr cc) eqn:Hin; [|by destruct m; cbn; rewrite ?Hin].
    destruct (steps_left_step rr cc dr dc Hd Hin) as [Hb Hs], (Hfuel eq_refl).
    destruct m as [|m]; [lia|]. cbn. rewrite Hin.
    destruct (cell (board b) rr cc); [done|].
    apply IH. intros _. rewrite Hs. lia.
Qed.

(** More than eight iterations are never used: the sliding clauses of
    [is_square_attacked_by] run their loops to the end. *)
Lemma attack_ray_eight n b ac k1 k2 rr cc dr dc :
  is_direction dr dc = true → (8 ≤ n)%nat →
  attack_ray n b ac k1 k2 rr cc dr dc = attack_ray 8 b ac k1 k2 rr cc dr dc.
Proof.
  intros Hd Hn. apply attack_ray_fuel; [done|]. intros Hin.
  destruct (steps_left_step rr cc dr dc Hd Hin). lia.
Qed.

Lemma slide_fuel n m b col r c rr cc dr dc :
  is_direction dr dc = true →
  (inside rr cc = true →
   steps_left rr cc dr dc ≤ Z.of_nat n ∧ steps_left rr cc dr dc ≤ Z.of_nat m) →
  slide n b col r c rr cc dr dc = slide m b col r c rr cc dr dc.
Proof.
  intros Hd. revert m rr cc. induction n as [|n IH]; intros m rr cc Hfuel.
  - destruct m as [|m]; [done|]. cbn.
    destruct (inside rr cc) eqn:Hin; [|done].
    destruct (steps_left_step rr cc dr dc Hd Hin), (Hfuel eq_refl). lia.
  - cbn. destruct (inside rr cc) eqn:Hin; [|by destruct m; cbn; rewrite ?Hin].
    destruct (steps_left_step rr cc dr dc Hd Hin) as [Hb Hs], (Hfuel eq_refl).
    destruct m as [|m]; [lia|]. cbn. rewrite Hin.
    destruct (cell (board b) rr cc); [done|]. f_equal.
    apply IH. intros _. rewrite Hs. lia.
Qed.

Lemma slide_eight n b col r c rr cc dr dc :
  is_direction dr dc = true → (8 ≤ n)%nat →
  slide n b col r c rr cc dr dc = slide 8 b col r c rr cc dr dc.
Proof.
  intros Hd Hn. apply slide_fuel; [done|]. intros Hin.
  destruct (steps_left_step rr cc dr dc Hd Hin). lia.
Qed.

(** ** The pawn clause of [is_square_attacked_by] *)

(** What lines 108-115 test: a pawn of the attacking colour on
    [(r - 1, c ± 1)] for White and on [(r + 1, c ± 1)] for Black. *)
Lemma pawn_clause_unfold b r c ac :
  pawn_clause b r c ac =
    let dir := match ac with WHITE => -1 | BLACK => 1 end in
    probe b (r + dir) (c - 1) ac Pawn || probe b (r + dir) (c + 1) ac Pawn.
Proof.
  unfold pawn_clause. destruct ac; cbn; rewrite orb_false_r; done.
Qed.

(** C1 (code defect).  A white pawn stands on [(6,0)], which is
    [(r+1, c-1)] for the target [(5,1)]; it can capture there
    ([generate_pseudo_legal_moves_from] lists the move), yet the pawn
    clause and the whole of [is_square_attacked_by] answer [False], so
    the black king on the target is not seen in check.  The clause
    looks at row [r-1] for White instead: it reports [(7,1)] attacked.
    For Black it is the same the other way round: the pawn on [(1,0)],
    which is [(r-1, c-1)] for the target [(2,1)], is not seen. *)
Theorem pawn_clause_looks_ahead_of_target :
  cell (board pawn_attack_board) (5 + 1) (1 - 1) = Some (mkPiece WHITE Pawn)
  ∧ pawn_clause pawn_attack_board 5 1 WHITE = false
  ∧ is_square_attacked_by pawn_attack_board 5 1 WHITE = false
  ∧ is_in_check pawn_attack_board BLACK = false
  ∧ generate_pseudo_legal_moves_from pawn_attack_board 6 0
      = Ok [((6,0),(5,0)); ((6,0),(4,0)); ((6,0),(5,1))]
  ∧ pawn_clause pawn_attack_board 7 1 WHITE = true
  ∧ cell (board black_pawn_attack_board) (2 - 1) (1 - 1)
      = Some (mkPiece BLACK Pawn)
  ∧ pawn_clause black_pawn_attack_board 2 1 BLACK = false
  ∧ is_in_check black_pawn_attack_board WHITE = false
  ∧ generate_pseudo_legal_moves_from black_pawn_attack_board 1 0
      = Ok [((1,0),(2,0)); ((1,0),(3,0)); ((1,0),(2,1))].
Proof. repeat split; vm_compute; reflexivity. Qed.

(** ** The initial position and the stalemate position *)

(** C6.  From the initial position White has 20 pseudo-legal moves and
    [generate_legal_moves] returns 20 moves. *)
Theorem initial_position_twenty_moves :
  (∃ ms, pseudo_legal_moves new_board WHITE = Ok ms ∧ length ms = 20%nat)
  ∧ (∃ ms, generate_legal_moves new_board WHITE = Ok ms ∧ length ms = 20%nat).
Proof. split; eexists; split; vm_compute; reflexivity. Qed.

(** C7.  King a1 against king c2 and queen b3: White has no legal move
    and is not in check. *)
Theorem stalemate_position hm fm :
  generate_legal_moves (stalemate_board hm fm) WHITE = Ok []
  ∧ is_in_check (stalemate_board hm fm) WHITE = false.
Proof. split; vm_compute; reflexivity. Qed.

(** ** Applying a move *)

(** [_make_move_no_checks] on squares of the board, source occupied:
    it returns, and changes two cells. *)
Lemma make_move_no_checks_inside b r1 c1 r2 c2 p :
  wf_grid (board b) → inside r1 c1 = true → inside r2 c2 = true →
  cell (board b) r1 c1 = Some p →
  ∃ b', _make_move_no_checks b ((r1, c1), (r2, c2)) = Ok b'
    ∧ wf_grid (board b')
    ∧ to_move b' = to_move b
    ∧ halfmove_clock b' = halfmove_clock b
    ∧ fullmove_number b' = fullmove_number b
    ∧ ∀ r c, inside r c = true →
        cell (board b') r c =
          if decide ((r, c) = (r2, c2)) then Some (landed p r2)
          else if decide ((r, c) = (r1, c1)) then None
          else cell (board b) r c.
Proof.
  intros Hwf H1 H2 Hp.
  destruct (board_set_inside (board b) r1 c1 None Hwf H1) as (g1 & Hg1 & Hwf1 & Hc1).
  destruct (board_set_inside g1 r2 c2 (Some (landed p r2)) Hwf1 H2)
    as (g2 & Hg2 & Hwf2 & Hc2).
  exists (mkBoard g2 (to_move b) (halfmove_clock b) (fullmove_number b)).
  split; [|cbn; repeat split; try done; try apply Hwf2].
  - unfold _make_move_no_checks.
    rewrite (board_at_inside _ _ _ Hwf H1), Hp. cbn. rewrite Hg1. cbn.
    unfold landed in Hg2.
    destruct (bool_decide (kind p = Pawn) && ((r2 =? 0) || (r2 =? 7)));
      rewrite Hg2; done.
  - intros r c Hin. rewrite (Hc2 r c Hin). case_decide; [done|].
    apply Hc1, Hin.
Qed.

(** On the value: a pawn moved onto row 0 or row 7 leaves a queen of its
    colour on the destination; in every other case the moving piece is
    on the destination afterwards; the source square is left empty. *)
Lemma make_move_no_checks_lands b r1 c1 r2 c2 p :
  wf_grid (board b) → inside r1 c1 = true → inside r2 c2 = true →
  cell (board b) r1 c1 = Some p →
  ∃ b', _make_move_no_checks b ((r1, c1), (r2, c2)) = Ok b'
    ∧ (kind p = Pawn → r2 = 0 ∨ r2 = 7 →
       cell (board b') r2 c2 = Some (mkPiece (color p) Queen))
    ∧ (¬ (kind p = Pawn ∧ (r2 = 0 ∨ r2 = 7)) →
       cell (board b') r2 c2 = Some p)
    ∧ ((r1, c1) ≠ (r2, c2) → cell (board b') r1 c1 = None).
Proof.
  intros Hwf H1 H2 Hp.
  destruct (make_move_no_checks_inside b r1 c1 r2 c2 p Hwf H1 H2 Hp)
    as (b' & Hb' & _ & _ & _ & _ & Hcells).
  exists b'. split; [done|].
  pose proof (Hcells r2 c2 H2) as Hdst. rewrite decide_True in Hdst by done.
  rewrite Hdst. unfold landed. split_and!.
  - intros Hk Hr. rewrite bool_decide_eq_true_2 by done.
    replace ((r2 =? 0) || (r2 =? 7)) with true; [done|].
    symmetry. apply orb_true_iff. lia.
  - intros Hn. destruct (bool_decide (kind p = Pawn) && ((r2 =? 0) || (r2 =? 7))) eqn:E;
      [|done].
    exfalso. apply Hn. apply andb_true_iff in E as [Hk Hr].
    apply bool_decide_eq_true in Hk. apply orb_true_iff in Hr. split; [done|lia].
  - intros Hne. rewrite (Hcells r1 c1 H1).
    rewrite decide_False by done. by rewrite decide_True.
Qed.

(** C4.  [make_move] on squares of the board, source occupied: the three
    scalar fields afterwards. *)
Theorem make_move_clocks_and_turn b r1 c1 r2 c2 moving :
  wf_grid (board b) → inside r1 c1 = true → inside r2 c2 = true →
  cell (board b) r1 c1 = Some moving →
  ∃ b', make_move b ((r1, c1), (r2, c2)) = Ok b'
    ∧ (kind moving = Pawn ∨ cell (board b) r2 c2 ≠ None → halfmove_clock b' = 0)
    ∧ (kind moving ≠ Pawn → cell (board b) r2 c2 = None →
       halfmove_clock b' = halfmove_clock b + 1)
    ∧ (to_move b = BLACK → fullmove_number b' = fullmove_number b + 1)
    ∧ (to_move b ≠ BLACK → fullmove_number b' = fullmove_number b)
    ∧ to_move b' = match to_move b with WHITE => BLACK | BLACK => WHITE end.
Proof.
  intros Hwf H1 H2 Hp.
  destruct (make_move_no_checks_inside b r1 c1 r2 c2 moving Hwf H1 H2 Hp)
    as (b1 & Hb1 & _ & Ht & Hh & Hf & _).
  unfold make_move.
  rewrite (board_at_inside _ _ _ Hwf H1), (board_at_inside _ _ _ Hwf H2), Hp.
  cbn [mbind res_bind]. rewrite Hb1. cbn [mbind res_bind]. eexists. split; [reflexivity|]. cbn.
  rewrite Ht, Hh, Hf. repeat split.
  - intros [Hk|Hc].
    + by rewrite bool_decide_eq_true_2.
    + destruct (cell (board b) r2 c2); [|done]. by rewrite orb_true_r.
  - intros Hk Hc. rewrite Hc. by rewrite bool_decide_eq_false_2.
  - intros ->. done.
  - intros Hne. by rewrite bool_decide_eq_false_2.
  - destruct (to_move b); done.
Qed.

Lemma make_move_clocks_and_turn_witness :
  wf_grid (board new_board) ∧ inside 6 4 = true ∧ inside 4 4 = true
  ∧ cell (board new_board) 6 4 = Some (mkPiece WHITE Pawn)
  ∧ ∃ b', make_move new_board ((6, 4), (4, 4)) = Ok b'
      ∧ (kind (mkPiece WHITE Pawn) = Pawn ∨ cell (board new_board) 4 4 ≠ None →
         halfmove_clock b' = 0)
      ∧ (kind (mkPiece WHITE Pawn) ≠ Pawn → cell (board new_board) 4 4 = None →
         halfmove_clock b' = halfmove_clock new_board + 1)
      ∧ (to_move new_board = BLACK →
         fullmove_number b' = fullmove_number new_board + 1)
      ∧ (to_move new_board ≠ BLACK →
         fullmove_number b' = fullmove_number new_board)
      ∧ to_move b' = match to_move new_board with WHITE => BLACK | BLACK => WHITE end.
Proof.
  split; [exact wf_grid_new_board|]. split; [reflexivity|]. split; [reflexivity|].
  split; [reflexivity|].
  apply (make_move_clocks_and_turn new_board 6 4 4 4 (mkPiece WHITE Pawn)
           wf_grid_new_board); reflexivity.
Defined.

(** ** Move generation *)

Lemma pawn_moves_sound b r c col m :
  inside r c = true → m ∈ pawn_moves b r c col → from_to_board r c m.
Proof.
  intros Hin. unfold pawn_moves. rewrite elem_of_app, list_elem_of_bind.
  intros [H | (dc & H & _)].
  - destruct (inside _ c && _) eqn:E; [|by apply elem_of_nil in H].
    apply andb_true_iff in E as [E1 _].
    apply elem_of_cons in H as [-> | H]; [done|].
    destruct ((r =? _) && _) eqn:E3; [|by apply elem_of_nil in H].
    apply list_elem_of_singleton in H as ->. split; [done|]. cbn.
    apply andb_true_iff in E3 as [E3 _]. apply Z.eqb_eq in E3.
    apply inside_spec in Hin. apply inside_spec.
    destruct col; repeat case_bool_decide; try done; lia.
  - destruct (inside _ _ && _) eqn:E; [|by apply elem_of_nil in H].
    apply andb_true_iff in E as [E1 _].
    by apply list_elem_of_singleton in H as ->.
Qed.

Lemma offset_moves_sound b r c col (offs : list (Z * Z)) m :
  m ∈ ('(dr, dc) ← offs;
       let rr := r + dr in
       let cc := c + dc in
       if negb (inside rr cc) then []
       else if free_for col (cell (board b) rr cc) then [((r, c), (rr, cc))]
            else []) →
  from_to_board r c m.
Proof.
  rewrite list_elem_of_bind. intros ([dr dc] & H & _). cbn in H.
  destruct (inside (r + dr) (c + dc)) eqn:E; cbn in H; [|by apply elem_of_nil in H].
  destruct (free_for _ _); [|by apply elem_of_nil in H].
  by apply list_elem_of_singleton in H as ->.
Qed.

Lemma slide_sound fuel b col r c rr cc dr dc m :
  m ∈ slide fuel b col r c rr cc dr dc → from_to_board r c m.
Proof.
  revert rr cc. induction fuel as [|n IH]; intros rr cc; cbn.
  { by intros ?%elem_of_nil. }
  destruct (inside rr cc) eqn:E; [|by intros ?%elem_of_nil].
  destruct (cell (board b) rr cc) as [t|].
  - destruct (negb _); [|by intros ?%elem_of_nil].
    by intros ->%list_elem_of_singleton.
  - intros [-> | H]%elem_of_cons; [done|]. by eapply IH.
Qed.

Lemma piece_moves_sound b r c p m :
  inside r c = true → m ∈ piece_moves b r c p → from_to_board r c m.
Proof.
  intros Hin. unfold piece_moves.
  destruct (kind p); try (unfold slider_moves; rewrite list_elem_of_bind;
                          intros ([dr dc] & H & _); by eapply slide_sound).
  - apply offset_moves_sound.
  - apply offset_moves_sound.
  - by apply pawn_moves_sound.
Qed.

(** On the board, [generate_pseudo_legal_moves_from] returns. *)
Lemma generate_pseudo_legal_moves_from_inside b r c :
  wf_grid (board b) → inside r c = true →
  generate_pseudo_legal_moves_from b r c =
    Ok (match cell (board b) r c with
        | Some p => piece_moves b r c p
        | None => []
        end).
Proof.
  intros Hwf Hin. unfold generate_pseudo_legal_moves_from.
  rewrite (board_at_inside _ _ _ Hwf Hin). cbn. by destruct (cell _ r c).
Qed.

(** ** The legality filter *)

(** [is_legal_move] answers [True] exactly through its last line. *)
Lemma is_legal_move_true b m col :
  is_legal_move b m col = Ok true →
  ∃ b2, _make_move_no_checks (clone b) m = Ok b2 ∧ is_in_check b2 col = false.
Proof.
  destruct m as [[r1 c1] [r2 c2]]. unfold is_legal_move.
  destruct (board_at (board b) r1 c1) as [[p|]|e]; cbn [mbind res_bind]; try done.
  destruct (negb (bool_decide (color p = col))); [done|].
  destruct (_make_move_no_checks (clone b) _) as [b2|e]; cbn [mbind res_bind]; [|done].
  intros [= H]. exists b2. split; [done|]. by destruct (is_in_check b2 col).
Qed.

(** On the board, [is_legal_move] returns. *)
Lemma is_legal_move_inside b r1 c1 r2 c2 col :
  wf_grid (board b) → inside r1 c1 = true → inside r2 c2 = true →
  ∃ v, is_legal_move b ((r1, c1), (r2, c2)) col = Ok v.
Proof.
  intros Hwf H1 H2. unfold is_legal_move.
  rewrite (board_at_inside _ _ _ Hwf H1). cbn [mbind res_bind].
  destruct (cell (board b) r1 c1) as [p|] eqn:Hp; [|by eexists].
  destruct (negb _); [by eexists|].
  rewrite clone_id.
  destruct (make_move_no_checks_inside b r1 c1 r2 c2 p Hwf H1 H2 Hp)
    as (b2 & -> & _).
  cbn [mbind res_bind]. by eexists.
Qed.

Lemma keep_legal_sound b col moves kept m :
  keep_legal b col moves = Ok kept → m ∈ kept →
  m ∈ moves ∧ is_legal_move b m col = Ok true.
Proof.
  revert kept. induction moves as [|m0 moves IH]; intros kept; cbn.
  { intros [= <-]. by intros ?%elem_of_nil. }
  destruct (is_legal_move b m0 col) as [ok|e] eqn:E0; cbn [mbind res_bind]; [|done].
  destruct (keep_legal b col moves) as [kept'|e]; cbn [mbind res_bind]; [|done].
  intros [= <-] Hm.
  destruct ok.
  - apply elem_of_cons in Hm as [-> | Hm].
    + split; [left|done].
    + destruct (IH kept' eq_refl Hm). split; [by right|done].
  - destruct (IH kept' eq_refl Hm). split; [by right|done].
Qed.

Lemma keep_legal_returns b col moves :
  (∀ m, m ∈ moves → ∃ v, is_legal_move b m col = Ok v) →
  ∃ kept, keep_legal b col moves = Ok kept.
Proof.
  induction moves as [|m0 moves IH]; intros H; cbn; [by eexists|].
  destruct (H m0) as [v ->]; [left|]. cbn [mbind res_bind].
  destruct IH as [kept ->]. { intros m Hm. apply H. by right. }
  cbn [mbind res_bind]. by eexists.
Qed.

Lemma legal_scan_sound b col sqs moves m :
  legal_scan b col sqs = Ok moves → m ∈ moves →
  is_legal_move b m col = Ok true
  ∧ ∃ r c p, (r, c) ∈ sqs ∧ board_at (board b) r c = Ok (Some p) ∧ m ∈ piece_moves b r c p.
Proof.
  revert moves. induction sqs as [|[r c] sqs IH]; intros moves; cbn.
  { intros [= <-]. by intros ?%elem_of_nil. }
  destruct (match cell (board b) r c with Some _ => _ | None => _ end)
    as [here|e] eqn:Ehere; cbn [mbind res_bind]; [|done].
  destruct (legal_scan b col sqs) as [later|e]; cbn [mbind res_bind]; [|done].
  intros [= <-] [Hm|Hm]%elem_of_app.
  - destruct (cell (board b) r c) as [p|] eqn:Hp.
    2:{ injection Ehere as <-. by apply elem_of_nil in Hm. }
    destruct (bool_decide (color p = col)).
    2:{ injection Ehere as <-. by apply elem_of_nil in Hm. }
    unfold generate_pseudo_legal_moves_from in Ehere.
    destruct (board_at (board b) r c) as [[p'|]|e] eqn:Hat;
      cbn [mbind res_bind] in Ehere; [| |done].
    + destruct (keep_legal_sound _ _ _ _ _ Ehere Hm) as [Hin Hok].
      split; [done|]. exists r, c, p'. split; [left|done].
    + cbn in Ehere. injection Ehere as <-. by apply elem_of_nil in Hm.
  - destruct (IH later eq_refl Hm) as (Hok & r' & c' & p & Hsq & Hrest).
    split; [done|]. exists r', c', p. split; [by right|done].
Qed.

Lemma legal_scan_returns b col sqs :
  wf_grid (board b) → (∀ sq, sq ∈ sqs → inside sq.1 sq.2 = true) →
  ∃ moves, legal_scan b col sqs = Ok moves.
Proof.
  intros Hwf. induction sqs as [|[r c] sqs IH]; intros Hin; cbn; [by eexists|].
  assert (Hrc : inside r c = true) by (apply (Hin (r, c)); left).
  assert (Hhere : ∃ here,
    match cell (board b) r c with
    | Some p => if bool_decide (color p = col)
                then moves ← generate_pseudo_legal_moves_from b r c;
                     keep_legal b col moves
                else Ok []
    | None => Ok []
    end = Ok here).
  { destruct (cell (board b) r c) as [p|] eqn:Hp; [|by eexists].
    destruct (bool_decide _); [|by eexists].
    rewrite (generate_pseudo_legal_moves_from_inside _ _ _ Hwf Hrc), Hp.
    cbn [mbind res_bind]. apply keep_legal_returns.
    intros [[r1 c1] [r2 c2]] Hm.
    destruct (piece_moves_sound _ _ _ _ _ Hrc Hm) as [[= -> ->] H2].
    by apply is_legal_move_inside. }
  destruct Hhere as [here ->]. cbn [mbind res_bind].
  destruct IH as [later ->]. { intros sq Hsq. apply Hin. by right. }
  cbn [mbind res_bind]. by eexists.
Qed.

(** On a well-formed board [generate_legal_moves] returns a list. *)
Lemma generate_legal_moves_returns b col :
  wf_grid (board b) → ∃ moves, generate_legal_moves b col = Ok moves.
Proof.
  intros Hwf. apply legal_scan_returns; [done|]. apply all_squares_inside.
Qed.

(** C2.  On every board [generate_legal_moves] returns a list, and each
    of its moves, applied by [_make_move_no_checks] to a clone, gives a
    board on which the mover is not in check. *)
Theorem legal_moves_leave_king_safe b col :
  wf_grid (board b) →
  ∃ moves, generate_legal_moves b col = Ok moves
    ∧ ∀ m, m ∈ moves →
        ∃ b2, _make_move_no_checks (clone b) m = Ok b2
              ∧ is_in_check b2 col = false.
Proof.
  intros Hwf. destruct (generate_legal_moves_returns b col Hwf) as [moves Hm].
  exists moves. split; [done|]. intros m Hin.
  apply is_legal_move_true.
  by destruct (legal_scan_sound _ _ _ _ _ Hm Hin).
Qed.

Lemma legal_moves_leave_king_safe_witness :
  wf_grid (board new_board)
  ∧ ∃ moves, generate_legal_moves new_board WHITE = Ok moves
      ∧ ∀ m, m ∈ moves →
          ∃ b2, _make_move_no_checks (clone new_board) m = Ok b2
                ∧ is_in_check b2 WHITE = false.
Proof.
  split; [exact wf_grid_new_board|].
  apply (legal_moves_leave_king_safe new_board WHITE wf_grid_new_board).
Defined.

(** ** A colour without a king *)

Lemma inside_all_squares r c : inside r c = true → (r, c) ∈ all_squares.
Proof.
  intros [Hr Hc]%inside_spec. unfold all_squares.
  apply list_elem_of_bind. exists r. split.
  - apply list_elem_of_bind. exists c. split; [left|].
    apply elem_of_seqZ. lia.
  - apply elem_of_seqZ. lia.
Qed.

Lemma has_king_false b col :
  has_king b col = false ↔
  ∀ r c, inside r c = true → is_piece col King (cell (board b) r c) = false.
Proof.
  unfold has_king. split.
  - intros H r c Hin.
    destruct (is_piece col King (cell (board b) r c)) eqn:E; [|done].
    rewrite <- H. symmetry. apply existsb_exists. exists (r, c).
    split; [|done]. apply list_elem_of_In. by apply inside_all_squares.
  - intros H. destruct (existsb _ _) eqn:E; [|done].
    apply existsb_exists in E as ([r c] & Hin & E).
    rewrite H in E; [done|].
    apply (all_squares_inside (r, c)). by apply list_elem_of_In.
Qed.

Lemma king_scan_none b col sqs :
  (∀ r c, (r, c) ∈ sqs → is_piece col King (cell (board b) r c) = false) →
  king_scan b col sqs = (-1, -1).
Proof.
  induction sqs as [|[r c] sqs IH]; intros H; cbn; [done|].
  rewrite H by left. apply IH. intros r' c' Hin. apply H. by right.
Qed.

Lemma king_position_kingless b col :
  has_king b col = false → king_position b col = (-1, -1).
Proof.
  intros H. apply king_scan_none. intros r c Hin.
  apply has_king_false; [done|]. apply (all_squares_inside (r, c) Hin).
Qed.

Lemma is_in_check_kingless b col :
  has_king b col = false → is_in_check b col = false.
Proof.
  intros H. unfold is_in_check. by rewrite (king_position_kingless b col H).
Qed.

(** No move of a kingless colour puts a king of that colour on the grid. *)
Lemma make_move_no_checks_kingless b r1 c1 r2 c2 p b' :
  wf_grid (board b) → inside r1 c1 = true → inside r2 c2 = true →
  cell (board b) r1 c1 = Some p →
  has_king b (color p) = false →
  _make_move_no_checks b ((r1, c1), (r2, c2)) = Ok b' →
  has_king b' (color p) = false.
Proof.
  intros Hwf H1 H2 Hp Hk Hb'.
  destruct (make_move_no_checks_inside b r1 c1 r2 c2 p Hwf H1 H2 Hp)
    as (b1 & Hb1 & _ & _ & _ & _ & Hcells).
  assert (b1 = b') by congruence. subst b1.
  pose proof (proj1 (has_king_false b (color p)) Hk) as Hno.
  apply has_king_false. intros r c Hin. rewrite (Hcells r c Hin).
  repeat case_decide; [|done|by apply Hno].
  pose proof (Hno r1 c1 H1) as Hsrc. rewrite Hp in Hsrc.
  unfold landed. destruct (bool_decide (kind p = Pawn) && _); [|done].
  cbn. by rewrite andb_false_r.
Qed.

(** C10.  A colour with no king on the grid: [king_position] returns
    [(-1, -1)], [is_in_check] returns [False], and every pseudo-legal move
    of a piece of that colour is accepted by [is_legal_move]. *)
Theorem kingless_colour_never_in_check b col :
  wf_grid (board b) → has_king b col = false →
  king_position b col = (-1, -1)
  ∧ is_in_check b col = false
  ∧ ∀ r c p, inside r c = true → cell (board b) r c = Some p → color p = col →
      ∃ moves, generate_pseudo_legal_moves_from b r c = Ok moves
        ∧ ∀ m, m ∈ moves → is_legal_move b m col = Ok true.
Proof.
  intros Hwf Hk. split; [by apply king_position_kingless|].
  split; [by apply is_in_check_kingless|].
  intros r c p Hin Hp <-.
  rewrite (generate_pseudo_legal_moves_from_inside _ _ _ Hwf Hin), Hp.
  eexists. split; [done|]. intros [[r1 c1] [r2 c2]] Hm.
  destruct (piece_moves_sound _ _ _ _ _ Hin Hm) as [[= -> ->] H2]. cbn in H2.
  unfold is_legal_move.
  rewrite (board_at_inside _ _ _ Hwf Hin), Hp. cbn [mbind res_bind].
  rewrite bool_decide_eq_true_2 by done. cbn [negb]. rewrite clone_id.
  destruct (make_move_no_checks_inside b r c r2 c2 p Hwf Hin H2 Hp)
    as (b2 & Hb2 & _).
  unfold Move, Square in *. rewrite Hb2. cbn [mbind res_bind].
  rewrite is_in_check_kingless; [done|].
  exact (make_move_no_checks_kingless b r c r2 c2 p b2 Hwf Hin H2 Hp Hk Hb2).
Qed.

Lemma kingless_colour_never_in_check_witness :
  wf_grid (board pawn_attack_board) ∧ has_king pawn_attack_board WHITE = false
  ∧ king_position pawn_attack_board WHITE = (-1, -1)
  ∧ is_in_check pawn_attack_board WHITE = false
  ∧ ∀ r c p, inside r c = true → cell (board pawn_attack_board) r c = Some p →
      color p = WHITE →
      ∃ moves, generate_pseudo_legal_moves_from pawn_attack_board r c = Ok moves
        ∧ ∀ m, m ∈ moves → is_legal_move pawn_attack_board m WHITE = Ok true.
Proof.
  assert (Hwf : wf_grid (board pawn_attack_board))
    by (do 2 apply wf_grid_put; apply wf_grid_empty).
  split; [exact Hwf|]. split; [reflexivity|].
  apply (kingless_colour_never_in_check pawn_attack_board WHITE Hwf).
  reflexivity.
Defined.

(** ** The automated move *)

Lemma random_choice_elem {A} rnd (l : list A) :
  l ≠ [] → ∃ x, random_choice rnd l = Ok x ∧ x ∈ l.
Proof.
  intros Hne. unfold random_choice.
  assert (Hlen : (length l ≠ 0)%nat) by (destruct l; [done|cbn; lia]).
  destruct (lookup_lt_is_Some_2 l (rnd `mod` length l)%nat) as [x Hx].
  { by apply Nat.mod_upper_bound. }
  rewrite Hx. exists x. split; [done|]. by eapply list_elem_of_lookup_2.
Qed.

(** The capture loop returns when every destination is on the board, and
    only collects moves it was given. *)
Lemma capture_scan_sound b moves v0 caps0 :
  wf_grid (board b) →
  (∀ m, m ∈ moves → inside m.2.1 m.2.2 = true) →
  ∃ v caps, capture_scan b moves v0 caps0 = Ok (v, caps)
    ∧ ∀ m, m ∈ caps → m ∈ caps0 ∨ m ∈ moves.
Proof.
  intros Hwf. revert v0 caps0.
  induction moves as [|[[r1 c1] [r2 c2]] moves IH]; intros v0 caps0 Hin.
  { cbn. exists v0, caps0. split; [done|]. by left. }
  assert (Hrec : ∀ v1 caps1,
    (∀ m, m ∈ caps1 → m ∈ caps0 ∨ m = ((r1, c1), (r2, c2))) →
    ∃ v caps, capture_scan b moves v1 caps1 = Ok (v, caps)
      ∧ ∀ m, m ∈ caps → m ∈ caps0 ∨ m ∈ ((r1, c1), (r2, c2)) :: moves).
  { intros v1 caps1 Hsub.
    destruct (IH v1 caps1) as (v & caps & Hrun & Hcaps).
    { intros m Hm. apply Hin. by right. }
    exists v, caps. split; [done|]. intros m Hm.
    destruct (Hcaps m Hm) as [H|H].
    - destruct (Hsub m H) as [?| ->]; [by left|right; left].
    - right. by right. }
  cbn [capture_scan].
  assert (H2 : inside r2 c2 = true) by (apply (Hin ((r1, c1), (r2, c2))); left).
  rewrite (board_at_inside _ _ _ Hwf H2).
  cbn [mbind res_bind].
  destruct (cell (board b) r2 c2) as [t|]; [|apply Hrec; by left].
  destruct (bool_decide (color t = WHITE)); [|apply Hrec; by left].
  cbn zeta. destruct (v0 <? MATERIAL_VALUES (kind t)).
  { apply Hrec. intros m ->%list_elem_of_singleton. by right. }
  destruct (MATERIAL_VALUES (kind t) =? v0); [|apply Hrec; by left].
  apply Hrec. intros m [H| ->%list_elem_of_singleton]%elem_of_app; [by left|by right].
Qed.

Lemma legal_moves_on_board b col moves m :
  generate_legal_moves b col = Ok moves → m ∈ moves →
  inside m.1.1 m.1.2 = true ∧ inside m.2.1 m.2.2 = true.
Proof.
  intros Hgen Hm.
  destruct (legal_scan_sound _ _ _ _ _ Hgen Hm) as (_ & r & c & p & Hsq & _ & Hpm).
  pose proof (all_squares_inside _ Hsq) as Hin. cbn in Hin.
  destruct m as [[r1 c1] [r2 c2]].
  destruct (piece_moves_sound _ _ _ _ _ Hin Hpm) as [[= -> ->] H2]. done.
Qed.

(** C8.  [choose_ai_move] returns [None] exactly when Black has no legal
    move; otherwise, whatever the random draw, it returns one of Black's
    legal moves. *)
Theorem choose_ai_move_picks_legal_move b :
  wf_grid (board b) →
  ∃ moves, generate_legal_moves b BLACK = Ok moves
    ∧ (∀ rnd, choose_ai_move rnd b = Ok None ↔ moves = [])
    ∧ (moves ≠ [] →
       ∀ rnd, ∃ m, choose_ai_move rnd b = Ok (Some m) ∧ m ∈ moves).
Proof.
  intros Hwf. destruct (generate_legal_moves_returns b BLACK Hwf) as [moves Hgen].
  exists moves.
  assert (Hsome : moves ≠ [] →
    ∀ rnd, ∃ m, choose_ai_move rnd b = Ok (Some m) ∧ m ∈ moves).
  { intros Hne rnd. unfold choose_ai_move. rewrite Hgen. cbn [mbind res_bind].
    unfold choose_from.
    destruct moves as [|m0 moves']; [done|]. set (moves := m0 :: moves') in *.
    destruct (capture_scan_sound b moves (-1) [] Hwf) as (v & caps & -> & Hcaps).
    { intros m Hm. by destruct (legal_moves_on_board _ _ _ _ Hgen Hm). }
    cbn [mbind res_bind].
    destruct caps as [|c0 caps'].
    - destruct (random_choice_elem rnd moves Hne) as (m & -> & Hm).
      cbn [mbind res_bind]. by exists m.
    - destruct (random_choice_elem rnd (c0 :: caps') ltac:(done)) as (m & -> & Hm).
      cbn [mbind res_bind]. exists m. split; [done|].
      destruct (Hcaps m Hm) as [H|H]; [by apply elem_of_nil in H|done]. }
  split; [done|]. split; [|done].
  intros rnd. split.
  - intros Hnone. destruct moves as [|m0 moves']; [done|].
    destruct (Hsome ltac:(done) rnd) as (m & Hm & _). congruence.
  - intros ->. unfold choose_ai_move. by rewrite Hgen.
Qed.

Lemma choose_ai_move_picks_legal_move_witness :
  wf_grid (board new_board)
  ∧ ∃ moves, generate_legal_moves new_board BLACK = Ok moves
      ∧ (∀ rnd, choose_ai_move rnd new_board = Ok None ↔ moves = [])
      ∧ (moves ≠ [] →
         ∀ rnd, ∃ m, choose_ai_move rnd new_board = Ok (Some m) ∧ m ∈ moves).
Proof.
  split; [exact wf_grid_new_board|].
  apply (choose_ai_move_picks_legal_move new_board wf_grid_new_board).
Defined.

(** ** The object store: what a clone shares with its source *)

Lemma adds_pieces_refl s : adds_pieces s s.
Proof. by split_and!. Qed.

Lemma adds_pieces_trans s1 s2 s3 :
  adds_pieces s1 s2 → adds_pieces s2 s3 → adds_pieces s1 s3.
Proof.
  intros (Hp & Hr & Hb) (Hp' & Hr' & Hb'). split_and!; [|congruence..].
  by transitivity (Store.pieces s2).
Qed.

Lemma adds_rows_refl s : adds_rows s s.
Proof. by split_and!. Qed.

Lemma adds_rows_trans s1 s2 s3 :
  adds_rows s1 s2 → adds_rows s2 s3 → adds_rows s1 s3.
Proof.
  intros (Hp & Hr & Hb) (Hp' & Hr' & Hb'). split_and!; [| |congruence].
  - by transitivity (Store.pieces s2).
  - by transitivity (Store.rows s2).
Qed.

Lemma adds_pieces_rows s s' : adds_pieces s s' → adds_rows s s'.
Proof. intros (Hp & Hr & Hb). split_and!; [done| |done]. by rewrite Hr. Qed.

Lemma adds_rows_extends s s' : adds_rows s s' → extends s s'.
Proof. intros (Hp & Hr & Hb). split_and!; [done..|]. by rewrite Hb. Qed.

Lemma extends_trans s1 s2 s3 : extends s1 s2 → extends s2 s3 → extends s1 s3.
Proof.
  intros (Hp & Hr & Hb) (Hp' & Hr' & Hb'). split_and!.
  - by transitivity (Store.pieces s2).
  - by transitivity (Store.rows s2).
  - by transitivity (Store.boards s2).
Qed.

Lemma writes_rows_refl locs s : writes_rows locs s s.
Proof. by split_and!. Qed.

Lemma writes_rows_trans locs s1 s2 s3 :
  writes_rows locs s1 s2 → writes_rows locs s2 s3 → writes_rows locs s1 s3.
Proof.
  intros (Hp & Hb & Hr) (Hp' & Hb' & Hr'). split_and!; [|congruence|].
  - by transitivity (Store.pieces s2).
  - intros l Hl. by rewrite Hr', Hr.
Qed.

(** Views only read: they survive any extension of the store. *)
Lemma view_cell_extends s s' p x :
  Store.pieces s ⊆ Store.pieces s' →
  Store.view_cell s p = Some x → Store.view_cell s' p = Some x.
Proof.
  intros Hp. destruct p as [pl|]; cbn; [|done].
  destruct (Store.pieces s !! pl) as [pc|] eqn:E; [|done]. cbn. intros [= <-].
  by rewrite (lookup_weaken _ _ _ _ E Hp).
Qed.

Lemma view_row_extends s s' rl xs :
  Store.pieces s ⊆ Store.pieces s' → Store.rows s ⊆ Store.rows s' →
  Store.view_row s rl = Some xs → Store.view_row s' rl = Some xs.
Proof.
  intros Hp Hr. unfold Store.view_row.
  destruct (Store.rows s !! rl) as [row|] eqn:E; [|done]. cbn.
  rewrite (lookup_weaken _ _ _ _ E Hr). cbn.
  rewrite !mapM_Some. intros H. eapply Forall2_impl; [exact H|].
  intros p x. by apply view_cell_extends.
Qed.

Lemma view_extends s s' self b :
  extends s s' → Store.view s self = Some b → Store.view s' self = Some b.
Proof.
  intros (Hp & Hr & Hb). unfold Store.view.
  destruct (Store.boards s !! self) as [o|] eqn:E; [|done]. cbn.
  rewrite (lookup_weaken _ _ _ _ E Hb). cbn.
  destruct (mapM (Store.view_row s) (Store.o_board o)) as [g|] eqn:Eg; [|done].
  cbn. intros [= <-].
  apply mapM_Some in Eg.
  assert (Eg' : mapM (Store.view_row s') (Store.o_board o) = Some g).
  { apply mapM_Some. eapply Forall2_impl; [exact Eg|].
    intros rl xs. by apply view_row_extends. }
  by rewrite Eg'.
Qed.

(** A comprehension whose element expression keeps a relation [Inv]
    between the stores before and after. *)
Section comprehension.
Context {A B X : Type} (f : A → Store.M B).
Context (P : Store.store → A → X → Prop) (Q : Store.store → B → X → Prop).
Context (Inv : Store.store → Store.store → Prop).
Hypothesis Inv_refl : ∀ s, Inv s s.
Hypothesis Inv_trans : ∀ s1 s2 s3, Inv s1 s2 → Inv s2 s3 → Inv s1 s3.
Hypothesis P_mono : ∀ s s' a x, Inv s s' → P s a x → P s' a x.
Hypothesis Q_mono : ∀ s s' b x, Inv s s' → Q s b x → Q s' b x.
Hypothesis f_spec : ∀ s a x, P s a x →
  ∃ s' b, f a s = (s', Store.Done (Ok b)) ∧ Inv s s' ∧ Q s' b x.

Lemma comprehension_spec s l xs :
  Forall2 (P s) l xs →
  ∃ s' bs, Store.comprehension f l s = (s', Store.Done (Ok bs))
    ∧ Inv s s' ∧ Forall2 (Q s') bs xs.
Proof.
  intros H. revert s H. revert xs.
  induction l as [|a l IH]; intros xs s H.
  - apply Forall2_nil_inv_l in H as ->. exists s, []. by split_and!.
  - apply Forall2_cons_inv_l in H as (x & xs' & Ha & Hl & ->).
    destruct (f_spec s a x Ha) as (s1 & b & Hf & Hinv1 & Hq).
    destruct (IH xs' s1) as (s2 & bs & Hc & Hinv2 & Hqs).
    { eapply Forall2_impl; [exact Hl|]. intros a' x'. by apply P_mono. }
    exists s2, (b :: bs). split; [|split].
    + cbn. unfold Store.bind at 1. rewrite Hf.
      unfold Store.bind at 1. rewrite Hc. done.
    + by eapply Inv_trans.
    + constructor; [|done]. by eapply Q_mono.
Qed.
End comprehension.

Lemma copy_cell_spec s p x :
  Store.view_cell s p = Some x →
  ∃ s' q, Store.copy_cell p s = (s', Store.Done (Ok q))
    ∧ adds_pieces s s' ∧ Store.view_cell s' q = Some x.
Proof.
  destruct p as [pl|]; cbn.
  - destruct (Store.pieces s !! pl) as [pc|] eqn:E; [|done]. cbn. intros [= <-].
    eexists _, _. unfold Store.bind, Store.read_piece. rewrite E. cbn.
    split; [reflexivity|]. split.
    + split_and!; cbn; [|done..]. apply insert_subseteq.
      apply not_elem_of_dom, is_fresh.
    + cbn. rewrite lookup_insert_eq. by destruct pc.
  - intros [= <-]. exists s, None. split; [done|]. split; [apply adds_pieces_refl|done].
Qed.

(** The row made by [copy_row] reads as its source, and is a new object. *)
Lemma copy_row_spec s0 s rl xs :
  adds_rows s0 s → Store.view_row s rl = Some xs →
  ∃ s' rl', Store.copy_row rl s = (s', Store.Done (Ok rl'))
    ∧ adds_rows s s'
    ∧ Store.view_row s' rl' = Some xs ∧ rl' ∉ dom (Store.rows s0).
Proof.
  intros H0 Hv. unfold Store.view_row in Hv.
  destruct (Store.rows s !! rl) as [row|] eqn:E; [|done]. cbn in Hv.
  apply mapM_Some in Hv.
  destruct (comprehension_spec Store.copy_cell
              (fun s p x => Store.view_cell s p = Some x)
              (fun s p x => Store.view_cell s p = Some x)
              adds_pieces adds_pieces_refl adds_pieces_trans) with (s := s) (l := row) (xs := xs)
    as (s1 & cells & Hc & Hinv & Hcells).
  { intros ? ? ? ? (Hp & _). by apply view_cell_extends. }
  { intros ? ? ? ? (Hp & _). by apply view_cell_extends. }
  { apply copy_cell_spec. }
  { done. }
  set (l := fresh (dom (Store.rows s1))).
  assert (Hl : Store.rows s1 !! l = None) by (apply not_elem_of_dom, is_fresh).
  eexists _, l. unfold Store.copy_row, Store.bind, Store.read_row.
  rewrite E, Hc. cbn. split; [reflexivity|]. split; [|split].
  - eapply adds_rows_trans; [by apply adds_pieces_rows|].
    split_and!; cbn; [done| |done]. by apply insert_subseteq.
  - unfold Store.view_row. cbn. rewrite lookup_insert_eq. cbn.
    by apply mapM_Some.
  - destruct Hinv as (_ & Hr1 & _). destruct H0 as (_ & Hr0 & _).
    rewrite Hr1 in Hl. intros Hin. apply elem_of_dom in Hin as [y Hy].
    by rewrite (lookup_weaken _ _ _ _ Hy Hr0) in Hl.
Qed.

(** [clone] returns a new board object whose rows are new objects and
    which reads as the source; every object of the old store is kept. *)
Lemma clone_spec s self b :
  Store.view s self = Some b →
  ∃ s1 b2 o2, Store.clone self s = (s1, Store.Done (Ok b2))
    ∧ extends s s1
    ∧ Store.view s1 b2 = Some b
    ∧ (b2 ∉ dom (Store.boards s))
    ∧ Store.boards s1 !! b2 = Some o2
    ∧ Forall (fun rl => rl ∉ dom (Store.rows s)) (Store.o_board o2).
Proof.
  unfold Store.view.
  destruct (Store.boards s !! self) as [o|] eqn:E; [|done]. cbn.
  destruct (mapM (Store.view_row s) (Store.o_board o)) as [g|] eqn:Eg; [|done].
  cbn. intros [= <-]. apply mapM_Some in Eg.
  destruct (comprehension_spec Store.copy_row
              (fun s1 rl xs => adds_rows s s1 ∧ Store.view_row s1 rl = Some xs)
              (fun s1 rl xs => Store.view_row s1 rl = Some xs
                               ∧ rl ∉ dom (Store.rows s))
              adds_rows adds_rows_refl adds_rows_trans)
    with (s := s) (l := Store.o_board o) (xs := g)
    as (s1 & rls & Hc & Hinv & Hrls).
  { intros s1 s2 rl xs Hi [H0 Hv]. split; [by eapply adds_rows_trans|].
    destruct Hi as (Hp & Hr & _). by eapply view_row_extends. }
  { intros s1 s2 rl xs (Hp & Hr & _) [Hv Hf]. split; [|done].
    by eapply view_row_extends. }
  { intros s1 rl xs [H0 Hv].
    destruct (copy_row_spec s s1 rl xs H0 Hv) as (s' & rl' & ? & ? & ? & ?).
    by exists s', rl'. }
  { eapply Forall2_impl; [exact Eg|]. intros rl xs Hv. split; [apply adds_rows_refl|done]. }
  set (l := fresh (dom (Store.boards s1))).
  assert (Hl : Store.boards s1 !! l = None) by (apply not_elem_of_dom, is_fresh).
  eexists _, l, _. unfold Store.clone, Store.bind, Store.read_board.
  rewrite E, Hc. cbn. split; [reflexivity|].
  destruct Hinv as (Hp & Hr & Hb).
  split; [|split; [|split; [|split]]].
  - split_and!; cbn; [done..|]. rewrite <- Hb. by apply insert_subseteq.
  - unfold Store.view. cbn. rewrite lookup_insert_eq. cbn.
    assert (Hg : mapM (Store.view_row s1) rls = Some g).
    { apply mapM_Some. eapply Forall2_impl; [exact Hrls|].
      intros rl xs [Hv _]. exact Hv. }
    change (mapM (Store.view_row _) rls) with (mapM (Store.view_row s1) rls).
    rewrite Hg. done.
  - rewrite Hb in Hl. by apply not_elem_of_dom.
  - cbn. apply lookup_insert_eq.
  - cbn. eapply Forall2_Forall_l; [exact Hrls|]. apply Forall_true.
    intros xs rl. tauto.
Qed.

(** ** The object store: what a move on a clone can write *)

Lemma getitem_elem {A} (l : list A) i x : getitem l i = Ok x → x ∈ l.
Proof.
  unfold getitem. destruct (py_index _ i) as [k|e]; cbn; [|done].
  destruct (l !! k) as [y|] eqn:E; [|done]. intros [= <-].
  by eapply list_elem_of_lookup_2.
Qed.

Lemma load_cell_reads self r c s s' out :
  Store.load_cell self r c s = (s', out) → s' = s.
Proof.
  unfold Store.load_cell, Store.bind, Store.read_board, Store.read_row, Store.lift.
  destruct (Store.boards s !! self) as [o|]; [|by intros [= <- _]].
  destruct (getitem (Store.o_board o) r) as [rl|e]; [|by intros [= <- _]].
  destruct (Store.rows s !! rl) as [row|]; by intros [= <- _].
Qed.

(** [self.board[r][c] = v] writes one row of [self], nothing else. *)
Lemma store_cell_writes self o r c v s s' out :
  Store.boards s !! self = Some o →
  Store.store_cell self r c v s = (s', out) →
  writes_rows (Store.o_board o) s s'.
Proof.
  intros Ho. unfold Store.store_cell, Store.bind, Store.read_board,
    Store.read_row, Store.lift, Store.write_row. rewrite Ho.
  destruct (getitem (Store.o_board o) r) as [rl|e] eqn:Erl;
    [|intros [= <- _]; apply writes_rows_refl].
  destruct (Store.rows s !! rl) as [row|];
    [|intros [= <- _]; apply writes_rows_refl].
  destruct (setitem row c v) as [row'|e];
    [|intros [= <- _]; apply writes_rows_refl].
  intros [= <- _]. split_and!; cbn; [done..|].
  intros l Hl. apply lookup_insert_ne. intros ->.
  apply Hl. by eapply getitem_elem.
Qed.

Lemma alloc_piece_writes locs p s :
  writes_rows locs s (Store.alloc_piece p s).1.
Proof.
  split_and!; cbn; [|done..].
  apply insert_subseteq, not_elem_of_dom, is_fresh.
Qed.

(** [_make_move_no_checks] writes rows of [self] only, however it ends. *)
Lemma make_move_no_checks_writes self o move s s' out :
  Store.boards s !! self = Some o →
  Store._make_move_no_checks self move s = (s', out) →
  writes_rows (Store.o_board o) s s'.
Proof.
  intros Ho. destruct move as [[r1 c1] [r2 c2]].
  unfold Store._make_move_no_checks. unfold Store.bind at 1.
  destruct (Store.load_cell self r1 c1 s) as [s0 out0] eqn:E0.
  apply load_cell_reads in E0 as ->.
  destruct out0 as [[p|e]|]; [|intros [= <- _]; apply writes_rows_refl..].
  unfold Store.bind at 1.
  destruct (Store.store_cell self r1 c1 None s) as [s1 out1] eqn:E1.
  pose proof (store_cell_writes _ _ _ _ _ _ _ _ Ho E1) as W1.
  assert (Ho1 : Store.boards s1 !! self = Some o).
  { destruct W1 as (_ & -> & _). done. }
  destruct out1 as [[[]|e]|]; [|by intros [= <- _]..].
  destruct p as [pl|]; [|by intros [= <- _]].
  unfold Store.bind at 1, Store.read_piece.
  destruct (Store.pieces s1 !! pl) as [pc|]; [|by intros [= <- _]].
  destruct (bool_decide (kind pc = Pawn) && _).
  - unfold Store.bind at 1.
    pose proof (alloc_piece_writes (Store.o_board o) (mkPiece (color pc) Queen) s1) as W2.
    destruct (Store.alloc_piece _ s1) as [s2 out2] eqn:E2.
    assert (out2 = Store.Done (Ok (fresh (dom (Store.pieces s1)))))
      by (unfold Store.alloc_piece in E2; congruence).
    subst out2. cbn in W2.
    assert (Ho2 : Store.boards s2 !! self = Some o).
    { destruct W2 as (_ & -> & _). done. }
    intros E3. pose proof (store_cell_writes _ _ _ _ _ _ _ _ Ho2 E3) as W3.
    eapply writes_rows_trans; [exact W1|]. by eapply writes_rows_trans.
  - intros E3. pose proof (store_cell_writes _ _ _ _ _ _ _ _ Ho1 E3) as W3.
    by eapply writes_rows_trans.
Qed.

(** Writing new rows only keeps every object of an older store. *)
Lemma extends_writes_rows s0 s1 s2 locs :
  extends s0 s1 → writes_rows locs s1 s2 →
  Forall (fun rl => rl ∉ dom (Store.rows s0)) locs →
  extends s0 s2.
Proof.
  intros (Hp & Hr & Hb) (Hp' & Hb' & Hr') Hnew. split_and!.
  - by transitivity (Store.pieces s1).
  - apply map_subseteq_spec. intros l row Hl.
    rewrite Hr'; [by eapply lookup_weaken|].
    intros Hin. rewrite Forall_forall in Hnew.
    apply (Hnew l Hin). apply elem_of_dom. by eexists.
  - by rewrite Hb'.
Qed.

(** ** The object store: reads, and the early return of [is_legal_move] *)

Lemma getitem_Forall2 {A B} (R : A → B → Prop) l k i :
  Forall2 R l k → res_rel R (getitem l i) (getitem k i).
Proof.
  intros H. unfold getitem. rewrite (Forall2_length _ _ _ H).
  destruct (py_index _ i) as [n|e]; cbn; [|done].
  destruct (l !! n) as [x|] eqn:El, (k !! n) as [y|] eqn:Ek; cbn; try done.
  - by eapply Forall2_lookup_lr.
  - destruct (Forall2_lookup_l _ _ _ _ _ H El) as (y & Hy & _). congruence.
  - destruct (Forall2_lookup_r _ _ _ _ _ H Ek) as (x & Hx & _). congruence.
Qed.

(** [self.board[r][c]] in the store is [board[r][c]] of the value read
    off the store, exceptions included. *)
Lemma load_cell_view s self b r c :
  Store.view s self = Some b →
  ∃ out, Store.load_cell self r c s = (s, Store.Done out)
    ∧ res_rel (fun q x => Store.view_cell s q = Some x)
              out (board_at (board b) r c).
Proof.
  unfold Store.view.
  destruct (Store.boards s !! self) as [o|] eqn:E; [|done]. cbn.
  destruct (mapM (Store.view_row s) (Store.o_board o)) as [g|] eqn:Eg; [|done].
  cbn. intros [= <-]. cbn. apply mapM_Some in Eg.
  unfold Store.load_cell, Store.bind, Store.read_board, Store.read_row, Store.lift.
  rewrite E. unfold board_at.
  pose proof (getitem_Forall2 _ _ _ r Eg) as Hrow.
  destruct (getitem (Store.o_board o) r) as [rl|e], (getitem g r) as [xs|e'];
    cbn in Hrow; try done.
  - unfold Store.view_row in Hrow.
    destruct (Store.rows s !! rl) as [row|]; [|done]. cbn in Hrow.
    apply mapM_Some in Hrow. cbn [mbind res_bind].
    eexists. split; [reflexivity|]. by apply getitem_Forall2.
  - subst e'. eexists. split; [reflexivity|]. done.
Qed.

(** C5.  When the source square is empty or holds a piece of the other
    colour, [is_legal_move] returns [False] and the store -- the board
    included -- is the store it was called on. *)
Theorem is_legal_move_rejects s self b r1 c1 r2 c2 col :
  Store.view s self = Some b →
  (board_at (board b) r1 c1 = Ok None
   ∨ ∃ p, board_at (board b) r1 c1 = Ok (Some p) ∧ color p ≠ col) →
  Store.is_legal_move self ((r1, c1), (r2, c2)) col s
    = (s, Store.Done (Ok false))
  ∧ is_legal_move b ((r1, c1), (r2, c2)) col = Ok false.
Proof.
  intros Hv Hsrc.
  destruct (load_cell_view s self b r1 c1 Hv) as (out & Hload & Hrel).
  unfold Store.is_legal_move, is_legal_move. unfold Store.bind at 1.
  rewrite Hload.
  destruct Hsrc as [Hnone | (p & Hp & Hcol)].
  - rewrite Hnone in *. destruct out as [[pl|]|e]; cbn in Hrel; try done.
    destruct (Store.pieces s !! pl); done.
  - rewrite Hp in *. destruct out as [[pl|]|e]; cbn in Hrel; try done.
    unfold Store.bind, Store.read_piece.
    destruct (Store.pieces s !! pl) as [pc|]; [|done].
    injection Hrel as ->. cbn [mbind res_bind].
    by rewrite bool_decide_eq_false_2.
Qed.

Lemma is_legal_move_rejects_witness :
  Store.view Store.initial_store 1%positive = Some new_board
  ∧ (board_at (board new_board) 1 4 = Ok None
     ∨ ∃ p, board_at (board new_board) 1 4 = Ok (Some p) ∧ color p ≠ WHITE)
  ∧ Store.is_legal_move 1%positive ((1, 4), (2, 4)) WHITE Store.initial_store
      = (Store.initial_store, Store.Done (Ok false))
  ∧ is_legal_move new_board ((1, 4), (2, 4)) WHITE = Ok false.
Proof.
  assert (Hv : Store.view Store.initial_store 1%positive = Some new_board)
    by (vm_compute; reflexivity).
  assert (Hsrc : board_at (board new_board) 1 4 = Ok None
     ∨ ∃ p, board_at (board new_board) 1 4 = Ok (Some p) ∧ color p ≠ WHITE).
  { right. exists (mkPiece BLACK Pawn). split; [reflexivity|]. discriminate. }
  split; [exact Hv|]. split; [exact Hsrc|].
  apply (is_legal_move_rejects Store.initial_store 1%positive new_board
           1 4 2 4 WHITE Hv Hsrc).
Defined.

(** ** The object store against the value layer *)

Lemma getitem_Ok {A} (l : list A) i x :
  getitem l i = Ok x ↔
  ∃ k, py_index (Z.of_nat (length l)) i = Ok k ∧ l !! k = Some x.
Proof.
  unfold getitem. destruct (py_index _ i) as [k|e]; cbn.
  - destruct (l !! k) as [y|] eqn:E.
    + split; [intros [= <-]; by exists k|]. intros (k' & [= <-] & Hx). congruence.
    + split; [done|]. intros (k' & [= <-] & Hx). congruence.
  - split; [done|]. by intros (k' & ? & _).
Qed.

Lemma view_row_inv s rl xs :
  Store.view_row s rl = Some xs ↔
  ∃ row, Store.rows s !! rl = Some row
    ∧ Forall2 (fun p x => Store.view_cell s p = Some x) row xs.
Proof.
  unfold Store.view_row. destruct (Store.rows s !! rl) as [row|]; cbn.
  - rewrite mapM_Some. split; [by exists row|]. by intros (row' & [= <-] & H).
  - split; [done|]. by intros (row' & ? & _).
Qed.

Lemma view_inv s self b :
  Store.view s self = Some b ↔
  ∃ o, Store.boards s !! self = Some o
    ∧ Forall2 (fun rl xs => Store.view_row s rl = Some xs)
              (Store.o_board o) (board b)
    ∧ to_move b = Store.o_to_move o
    ∧ halfmove_clock b = Store.o_halfmove_clock o
    ∧ fullmove_number b = Store.o_fullmove_number o.
Proof.
  unfold Store.view. destruct (Store.boards s !! self) as [o|]; cbn.
  2:{ split; [done|]. by intros (o & ? & _). }
  destruct (mapM (Store.view_row s) (Store.o_board o)) as [g|] eqn:Eg; cbn.
  - apply mapM_Some in Eg. split.
    + intros [= <-]. by exists o.
    + intros (o' & [= <-] & Hg & Ht & Hh & Hf). apply mapM_Some in Hg.
      destruct b; cbn in *. subst.
      apply mapM_Some in Eg. congruence.
  - split; [done|]. intros (o' & [= <-] & Hg & _).
    apply mapM_Some in Hg. congruence.
Qed.

(** [self.board[r][c] = v] in the store is [board_set] on the value,
    when the rows of [self] are distinct objects. *)
Lemma store_cell_refines s self b r c v x :
  Store.view s self = Some b → rows_distinct s self →
  Store.view_cell s v = Some x →
  ∃ s' out, Store.store_cell self r c v s = (s', Store.Done out)
    ∧ Store.pieces s' = Store.pieces s ∧ Store.boards s' = Store.boards s
    ∧ match out, board_set (board b) r c x with
      | Ok _, Ok g' => Store.view s' self = Some (with_board b g')
      | Raise e, Raise e' => e = e'
      | _, _ => False
      end.
Proof.
  intros Hv (o & Ho & Hnd) Hx.
  destruct (proj1 (view_inv _ _ _) Hv) as (o' & Ho' & Hg & Ht & Hh & Hf).
  assert (o' = o) by congruence. subst o'.
  unfold Store.store_cell, Store.bind, Store.read_board, Store.read_row,
    Store.lift, Store.write_row. rewrite Ho. unfold board_set.
  pose proof (getitem_Forall2 _ _ _ r Hg) as Hrow.
  destruct (getitem (Store.o_board o) r) as [rl|e] eqn:Erl,
           (getitem (board b) r) as [xs|e'] eqn:Exs; cbn in Hrow; try done.
  2:{ by eexists _, _. }
  apply view_row_inv in Hrow as (row & Erow & Hcells). rewrite Erow.
  apply getitem_Ok in Erl as (k & Hk & Hrl), Exs as (k' & Hk' & Hxs).
  rewrite (Forall2_length _ _ _ Hg) in Hk.
  assert (k' = k) by congruence. subst k'.
  cbn [mbind res_bind]. unfold setitem.
  rewrite (Forall2_length _ _ _ Hcells), Hk.
  destruct (py_index (Z.of_nat (length xs)) c) as [j|e]; cbn [mbind res_bind].
  2:{ by eexists _, _. }
  eexists _, _. split; [reflexivity|]. cbn. split; [done|]. split; [done|].
  apply view_inv. exists o. cbn. split; [done|]. split; [|done].
  apply Forall2_same_length_lookup_2.
  { rewrite length_insert. by eapply Forall2_length. }
  intros i rli xsi Hrli Hxsi.
  apply list_lookup_insert_Some in Hxsi as [(<- & <- & Hlt) | (Hne & Hxsi)].
  - assert (rli = rl) by congruence. subst rli.
    apply view_row_inv. exists (<[j := v]> row). cbn.
    split; [apply lookup_insert_eq|]. by apply Forall2_insert.
  - assert (Hrl' : rli ≠ rl).
    { intros ->. apply Hne. by eapply NoDup_lookup. }
    pose proof (Forall2_lookup_lr _ _ _ _ _ _ Hg Hrli Hxsi) as Hold.
    apply view_row_inv in Hold as (row' & Erow' & Hcells').
    apply view_row_inv. exists row'. cbn. split; [|done].
    by rewrite lookup_insert_ne.
Qed.

(** [_make_move_no_checks] in the store is [_make_move_no_checks] on the
    value: the same exception, or a store in which [self] reads as the
    returned board. *)
Lemma make_move_no_checks_refines s self b move :
  Store.view s self = Some b → rows_distinct s self →
  ∃ s' out, Store._make_move_no_checks self move s = (s', Store.Done out)
    ∧ match out, _make_move_no_checks b move with
      | Ok _, Ok b' => Store.view s' self = Some b'
      | Raise e, Raise e' => e = e'
      | _, _ => False
      end.
Proof.
  intros Hv Hnd. destruct move as [[r1 c1] [r2 c2]].
  destruct (load_cell_view s self b r1 c1 Hv) as (out0 & Hload & Hrel).
  unfold Store._make_move_no_checks, _make_move_no_checks.
  unfold Store.bind at 1. rewrite Hload.
  destruct out0 as [q|e], (board_at (board b) r1 c1) as [x|e'];
    cbn in Hrel; try done; cbn [mbind res_bind].
  2:{ by eexists _, _. }
  destruct (store_cell_refines s self b r1 c1 None None Hv Hnd eq_refl)
    as (s1 & out1 & Hst1 & Hp1 & Hb1 & Hrel1).
  unfold Store.bind at 1. rewrite Hst1.
  destruct out1 as [[]|e], (board_set (board b) r1 c1 None) as [g1|e'];
    try done; cbn [mbind res_bind].
  2:{ by eexists _, _. }
  assert (Hnd1 : rows_distinct s1 self).
  { destruct Hnd as (o & Ho & Hn). exists o. by rewrite Hb1. }
  destruct q as [pl|].
  2:{ injection Hrel as <-. by eexists _, _. }
  cbn in Hrel. destruct (Store.pieces s !! pl) as [pc|] eqn:Epl; [|done].
  injection Hrel as <-.
  unfold Store.bind at 1, Store.read_piece. rewrite Hp1, Epl.
  destruct (bool_decide (kind pc = Pawn) && ((r2 =? 0) || (r2 =? 7))).
  - unfold Store.bind at 1. cbn [Store.alloc_piece].
    set (q := fresh (dom (Store.pieces s1))).
    set (s2 := {| Store.pieces := <[q := mkPiece (color pc) Queen]> (Store.pieces s1);
                  Store.rows := Store.rows s1; Store.boards := Store.boards s1 |}).
    assert (Hext : extends s1 s2).
    { split_and!; cbn; [|done..].
      apply insert_subseteq, not_elem_of_dom, is_fresh. }
    destruct (store_cell_refines s2 self (with_board b g1) r2 c2 (Some q)
                (Some (mkPiece (color pc) Queen)))
      as (s3 & out3 & Hst3 & _ & _ & Hrel3).
    { by eapply view_extends. }
    { done. }
    { cbn. by rewrite lookup_insert_eq. }
    exists s3, out3. split; [exact Hst3|].
    cbn [with_board board] in Hrel3.
    destruct out3 as [[]|e], (board_set g1 r2 c2 _) as [g2|e'];
      try done; cbn [mbind res_bind].
  - destruct (store_cell_refines s1 self (with_board b g1) r2 c2 (Some pl)
                (Some pc))
      as (s3 & out3 & Hst3 & _ & _ & Hrel3).
    { done. }
    { done. }
    { cbn. by rewrite Hp1, Epl. }
    exists s3, out3. split; [exact Hst3|].
    cbn [with_board board] in Hrel3.
    destruct out3 as [[]|e], (board_set g1 r2 c2 _) as [g2|e'];
      try done; cbn [mbind res_bind].
Qed.

(** The rows a clone is made of are new and pairwise distinct. *)
Lemma copy_rows_distinct l g s s' rls :
  Forall2 (fun rl xs => Store.view_row s rl = Some xs) l g →
  Store.comprehension Store.copy_row l s = (s', Store.Done (Ok rls)) →
  NoDup rls ∧ Forall (fun rl => rl ∉ dom (Store.rows s)) rls.
Proof.
  revert g s s' rls. induction l as [|a l IH]; intros g s s' rls Hg.
  - cbn. intros [= <- <-]. split; constructor.
  - apply Forall2_cons_inv_l in Hg as (x & g' & Ha & Hl & ->).
    destruct (copy_row_spec s s a x (adds_rows_refl s) Ha)
      as (s1 & rl' & Hrun & Hadd & Hv' & Hfresh).
    cbn. unfold Store.bind at 1. rewrite Hrun. unfold Store.bind at 1.
    destruct (Store.comprehension Store.copy_row l s1) as [s2 [[rls'|e]|]] eqn:E;
      try done.
    intros [= <- <-].
    destruct (IH g' s1 s2 rls') as [Hnd Hnew]; [|done|].
    { eapply Forall2_impl; [exact Hl|]. intros rl xs.
      destruct Hadd as (Hp & Hr & _). by apply view_row_extends. }
    apply view_row_inv in Hv' as (row & Hrow & _).
    rewrite Forall_forall in Hnew. split.
    + constructor; [|done]. intros Hin. apply (Hnew rl' Hin).
      by eapply elem_of_dom_2.
    + constructor; [done|]. apply Forall_forall. intros rl Hin Hdom.
      apply (Hnew rl Hin). destruct Hadd as (_ & Hr & _).
      by apply (subseteq_dom _ _ Hr).
Qed.

Lemma clone_rows_distinct s self b s1 b2 :
  Store.view s self = Some b →
  Store.clone self s = (s1, Store.Done (Ok b2)) →
  rows_distinct s1 b2.
Proof.
  intros Hv. apply view_inv in Hv as (o & Ho & Hg & _).
  unfold Store.clone, Store.bind, Store.read_board. rewrite Ho.
  destruct (Store.comprehension Store.copy_row (Store.o_board o) s)
    as [s' [[rls|e]|]] eqn:E; try done.
  cbn. intros [= <- <-]. eexists. cbn. split; [apply lookup_insert_eq|]. cbn.
  by destruct (copy_rows_distinct _ _ _ _ _ Hg E).
Qed.

(** [is_legal_move] in the store returns what [is_legal_move] on the
    value returns, exceptions included, and leaves [self] reading as
    before: the value layer loses nothing by passing boards around. *)
Lemma is_legal_move_refines s self b move col :
  Store.view s self = Some b →
  ∃ s', Store.is_legal_move self move col s
          = (s', Store.Done (is_legal_move b move col))
    ∧ Store.view s' self = Some b.
Proof.
  intros Hv. destruct move as [[r1 c1] [r2 c2]].
  destruct (load_cell_view s self b r1 c1 Hv) as (out0 & Hload & Hrel).
  unfold Store.is_legal_move, is_legal_move.
  unfold Store.bind at 1. rewrite Hload.
  destruct out0 as [q|e], (board_at (board b) r1 c1) as [x|e'];
    cbn in Hrel; try done; cbn [mbind res_bind].
  2:{ subst e'. by exists s. }
  destruct q as [pl|].
  2:{ injection Hrel as <-. by exists s. }
  cbn in Hrel. destruct (Store.pieces s !! pl) as [pc|] eqn:Epl; [|done].
  injection Hrel as <-.
  unfold Store.bind at 1, Store.read_piece. rewrite Epl.
  destruct (negb (bool_decide (color pc = col))); [by exists s|].
  destruct (clone_spec s self b Hv)
    as (s1 & b2 & o2 & Hc & Hext & Hv2 & Hnew & Ho2 & Hrows).
  pose proof (clone_rows_distinct _ _ _ _ _ Hv Hc) as Hnd.
  unfold Store.bind at 1. rewrite Hc.
  destruct (make_move_no_checks_refines s1 b2 b ((r1, c1), (r2, c2)) Hv2 Hnd)
    as (s2 & out2 & Hm & Hrel2).
  pose proof (make_move_no_checks_writes _ _ _ _ _ _ Ho2 Hm) as W.
  assert (Hself : Store.view s2 self = Some b).
  { eapply view_extends; [|exact Hv]. by eapply extends_writes_rows. }
  cbv beta iota. unfold Store.bind at 1. unfold Move, Square in *.
  rewrite Hm. rewrite clone_id.
  destruct out2 as [[]|e], (_make_move_no_checks b _) as [b'|e'];
    try done; cbn [mbind res_bind].
  - unfold Store.bind, Store.snapshot. rewrite Hrel2. by exists s2.
  - subst e'. by exists s2.
Qed.

Lemma keep_legal_refines s self b col moves :
  Store.view s self = Some b →
  ∃ s', Store.keep_legal self col moves s
          = (s', Store.Done (keep_legal b col moves))
    ∧ Store.view s' self = Some b.
Proof.
  revert s. induction moves as [|move moves IH]; intros s Hv; cbn.
  { by exists s. }
  destruct (is_legal_move_refines s self b move col Hv) as (s1 & Hrun & Hv1).
  unfold Store.bind at 1. rewrite Hrun.
  destruct (is_legal_move b move col) as [ok|e]; cbn [mbind res_bind].
  2:{ by exists s1. }
  destruct (IH s1 Hv1) as (s2 & Hrun2 & Hv2).
  unfold Store.bind at 1. rewrite Hrun2.
  destruct (keep_legal b col moves) as [kept|e]; cbn [mbind res_bind];
    by exists s2.
Qed.

Lemma legal_scan_refines s self b col sqs :
  Store.view s self = Some b →
  ∃ s', Store.legal_scan self col sqs s
          = (s', Store.Done (legal_scan b col sqs))
    ∧ Store.view s' self = Some b.
Proof.
  revert s. induction sqs as [|[r c] sqs IH]; intros s Hv.
  { by exists s. }
  cbn [Store.legal_scan legal_scan].
  set (here_v := match cell (board b) r c with
                 | Some p =>
                     if bool_decide (color p = col)
                     then moves ← generate_pseudo_legal_moves_from b r c;
                          keep_legal b col moves
                     else Ok []
                 | None => Ok []
                 end).
  unfold Store.bind at 1, Store.snapshot. rewrite Hv.
  assert (Hhere : ∃ s1,
    match cell (board b) r c with
    | Some p =>
        if bool_decide (color p = col)
        then Store.bind (Store.lift (generate_pseudo_legal_moves_from b r c))
                        (fun moves => Store.keep_legal self col moves)
        else Store.ret []
    | None => Store.ret []
    end s
    = (s1, Store.Done here_v)
    ∧ Store.view s1 self = Some b).
  { subst here_v. destruct (cell (board b) r c) as [p|]; [|by exists s].
    destruct (bool_decide (color p = col)); [|by exists s].
    unfold Store.bind, Store.lift.
    destruct (generate_pseudo_legal_moves_from b r c) as [moves|e];
      cbn [mbind res_bind]; [|by exists s].
    by apply keep_legal_refines. }
  destruct Hhere as (s1 & Hrun1 & Hv1).
  unfold Store.bind at 1. rewrite Hrun1.
  destruct here_v as [here|e]; cbn [mbind res_bind].
  2:{ by exists s1. }
  destruct (IH s1 Hv1) as (s2 & Hrun2 & Hv2).
  unfold Store.bind at 1. rewrite Hrun2.
  destruct (legal_scan b col sqs) as [later|e]; cbn [mbind res_bind];
    by exists s2.
Qed.

(** [generate_legal_moves] and [choose_ai_move] in the store return what
    they return on the value, and leave the board reading as before. *)
Lemma generate_legal_moves_refines s self b col :
  Store.view s self = Some b →
  ∃ s', Store.generate_legal_moves self col s
          = (s', Store.Done (generate_legal_moves b col))
    ∧ Store.view s' self = Some b.
Proof. apply legal_scan_refines. Qed.

Lemma choose_ai_move_refines rnd s self b :
  Store.view s self = Some b →
  ∃ s', Store.choose_ai_move rnd self s
          = (s', Store.Done (choose_ai_move rnd b))
    ∧ Store.view s' self = Some b.
Proof.
  intros Hv.
  destruct (generate_legal_moves_refines s self b BLACK Hv) as (s1 & Hrun & Hv1).
  unfold Store.choose_ai_move, choose_ai_move.
  unfold Store.bind at 1. rewrite Hrun.
  destruct (generate_legal_moves b BLACK) as [moves|e]; cbn [mbind res_bind].
  2:{ by exists s1. }
  unfold Store.bind, Store.snapshot, Store.lift. rewrite Hv1. by exists s1.
Qed.

(** The constructor in the store builds the board [new_board], out of
    eight distinct rows. *)
Lemma Board_init_view :
  Store.view Store.initial_store 1%positive = Some new_board
  ∧ rows_distinct Store.initial_store 1%positive.
Proof.
  split; [vm_compute; reflexivity|].
  eexists. split; [vm_compute; reflexivity|].
  cbn. apply (bool_decide_unpack _). vm_compute. exact I.
Qed.

(** ** The object store: the moved piece is the same object *)

Lemma py_index_lt len i k : py_index len i = Ok k → Z.of_nat k < len.
Proof.
  unfold py_index.
  destruct ((0 <=? i) && (i <? len)) eqn:E1.
  - intros [= <-]. apply andb_true_iff in E1. lia.
  - destruct ((- len <=? i) && (i <? 0)) eqn:E2; [|done].
    intros [= <-]. apply andb_true_iff in E2. lia.
Qed.

Lemma store_cell_Ok self r c v s s' :
  Store.store_cell self r c v s = (s', Store.Done (Ok tt)) →
  ∃ o rl row row',
    Store.boards s !! self = Some o
    ∧ getitem (Store.o_board o) r = Ok rl
    ∧ Store.rows s !! rl = Some row
    ∧ setitem row c v = Ok row'
    ∧ s' = Store.mkStore (Store.pieces s) (<[rl := row']> (Store.rows s))
                         (Store.boards s).
Proof.
  unfold Store.store_cell, Store.bind, Store.read_board, Store.read_row,
    Store.lift, Store.write_row.
  destruct (Store.boards s !! self) as [o|]; [|done].
  destruct (getitem (Store.o_board o) r) as [rl|e] eqn:Erl; [|done].
  destruct (Store.rows s !! rl) as [row|] eqn:Erow; [|done].
  destruct (setitem row c v) as [row'|e] eqn:Eset; [|done].
  intros [= <-]. by exists o, rl, row, row'.
Qed.

(** A cell reads back what was last written to it. *)
Lemma store_then_load self r c v s s' :
  Store.store_cell self r c v s = (s', Store.Done (Ok tt)) →
  Store.load_cell self r c s' = (s', Store.Done (Ok v)).
Proof.
  intros (o & rl & row & row' & Ho & Erl & Erow & Eset & ->)%store_cell_Ok.
  unfold Store.load_cell, Store.bind, Store.read_board, Store.read_row,
    Store.lift. cbn [Store.boards Store.rows Store.pieces].
  rewrite Ho, Erl. cbn [Store.boards Store.rows Store.pieces].
  rewrite lookup_insert_eq.
  unfold setitem in Eset.
  destruct (py_index _ c) as [j|e] eqn:Ej; [|done]. injection Eset as <-.
  unfold getitem. rewrite length_insert, Ej. cbn [mbind res_bind].
  rewrite list_lookup_insert_eq; [done|].
  apply py_index_lt in Ej. lia.
Qed.

(** After [_make_move_no_checks] has returned, the destination holds a
    reference to a new queen object when a pawn reached row 0 or 7, and
    otherwise the very reference that was on the source square. *)
Lemma make_move_no_checks_same_object self r1 c1 r2 c2 s s' pl pc :
  Store.load_cell self r1 c1 s = (s, Store.Done (Ok (Some pl))) →
  Store.pieces s !! pl = Some pc →
  Store._make_move_no_checks self ((r1, c1), (r2, c2)) s
    = (s', Store.Done (Ok tt)) →
  if bool_decide (kind pc = Pawn) && ((r2 =? 0) || (r2 =? 7))
  then ∃ q, Store.load_cell self r2 c2 s' = (s', Store.Done (Ok (Some q)))
         ∧ (q ∉ dom (Store.pieces s))
         ∧ Store.pieces s' !! q = Some (mkPiece (color pc) Queen)
  else Store.load_cell self r2 c2 s' = (s', Store.Done (Ok (Some pl)))
       ∧ Store.pieces s' !! pl = Some pc.
Proof.
  intros Hload Hpc. unfold Store._make_move_no_checks.
  unfold Store.bind at 1. rewrite Hload. unfold Store.bind at 1.
  destruct (Store.store_cell self r1 c1 None s) as [s1 [[[]|e]|]] eqn:E1; try done.
  assert (Hp1 : Store.pieces s1 = Store.pieces s).
  { by apply store_cell_Ok in E1 as (? & ? & ? & ? & _ & _ & _ & _ & ->). }
  unfold Store.bind at 1, Store.read_piece. rewrite Hp1, Hpc.
  destruct (bool_decide (kind pc = Pawn) && ((r2 =? 0) || (r2 =? 7))).
  - unfold Store.bind at 1. cbn [Store.alloc_piece]. intros E3.
    exists (fresh (dom (Store.pieces s1))).
    split; [by apply (store_then_load _ _ _ _ _ _ E3)|].
    split; [rewrite Hp1; apply is_fresh|].
    apply store_cell_Ok in E3 as (? & ? & ? & ? & _ & _ & _ & _ & ->).
    cbn. apply lookup_insert_eq.
  - intros E3. split; [by apply (store_then_load _ _ _ _ _ _ E3)|].
    apply store_cell_Ok in E3 as (? & ? & ? & ? & _ & _ & _ & _ & ->).
    cbn. by rewrite Hp1.
Qed.

(** ** The object store: [make_move] *)

Lemma writes_object_refl self locs s : writes_object self locs s s.
Proof. by split_and!. Qed.

Lemma writes_object_trans self locs s1 s2 s3 :
  writes_object self locs s1 s2 → writes_object self locs s2 s3 →
  writes_object self locs s1 s3.
Proof.
  intros (Hp & Hb & Hr) (Hp' & Hb' & Hr'). split_and!.
  - by transitivity (Store.pieces s2).
  - intros l Hl. by rewrite Hb', Hb.
  - intros l Hl. by rewrite Hr', Hr.
Qed.

Lemma confined_stays {A} self locs (m : Store.M A) :
  (∀ s s' out, m s = (s', out) → s' = s) → confined self locs m.
Proof.
  intros H s s' out Hr Hm. apply H in Hm as ->.
  split; [apply writes_object_refl|done].
Qed.

Lemma confined_bind {A B} self locs (m : Store.M A) (f : A → Store.M B) :
  confined self locs m → (∀ a, confined self locs (f a)) →
  confined self locs (Store.bind m f).
Proof.
  intros Hm Hf s s' out Hr. unfold Store.bind.
  destruct (m s) as [s1 out1] eqn:E.
  destruct (Hm s s1 out1 Hr E) as [W1 Hr1].
  destruct out1 as [[a|e]|]; [|by intros [= <- _]..].
  intros E2. destruct (Hf a s1 s' out Hr1 E2) as [W2 Hr2].
  split; [by eapply writes_object_trans|done].
Qed.

Lemma confined_make_move_no_checks self locs move :
  confined self locs (Store._make_move_no_checks self move).
Proof.
  intros s s' out (o & Ho & <-) Hm.
  destruct (make_move_no_checks_writes _ _ _ _ _ _ Ho Hm) as (Hp & Hb & Hr).
  split; [by split_and!; [|intros; rewrite Hb|]|].
  exists o. by rewrite Hb.
Qed.

Lemma confined_write_board self locs o :
  Store.o_board o = locs → confined self locs (Store.write_board self o).
Proof.
  intros Ho s s' out _ [= <- _]. split.
  - split_and!; cbn; [done| |done]. intros l Hl. by apply lookup_insert_ne.
  - exists o. cbn. split; [apply lookup_insert_eq|done].
Qed.

(** An assignment to a field of [self] writes that one object. *)
Lemma confined_setter self locs (upd : Store.obj → Store.obj) :
  (∀ o, Store.o_board (upd o) = Store.o_board o) →
  confined self locs
    (Store.bind (Store.read_board self)
                (fun o => Store.write_board self (upd o))).
Proof.
  intros Hupd s s' out (o & Ho & Hl). unfold Store.bind, Store.read_board.
  rewrite Ho. intros Hw.
  eapply (confined_write_board self locs (upd o)); [|by exists o|exact Hw].
  by rewrite Hupd.
Qed.

Lemma confined_read_board self locs :
  confined self locs (Store.read_board self).
Proof.
  apply confined_stays. intros s s' out. unfold Store.read_board.
  destruct (Store.boards s !! self); by intros [= <- _].
Qed.

(** [make_move] writes the rows and the fields of [self], nothing else. *)
Lemma confined_make_move self locs move :
  confined self locs (Store.make_move self move).
Proof.
  destruct move as [[r1 c1] [r2 c2]]. unfold Store.make_move.
  apply confined_bind.
  { apply confined_stays. intros s s' out. apply load_cell_reads. }
  intros moving. apply confined_bind.
  { apply confined_stays. intros s s' out. apply load_cell_reads. }
  intros captured. apply confined_bind.
  { apply confined_make_move_no_checks. }
  intros _. destruct moving as [ml|].
  2:{ apply confined_stays. by intros s s' out [= <- _]. }
  apply confined_bind.
  { apply confined_stays. intros s s' out. unfold Store.read_piece.
    destruct (Store.pieces s !! ml); by intros [= <- _]. }
  intros mp. apply confined_bind.
  { destruct (_ || _).
    - by apply (confined_setter self locs
                  (fun o => Store.mkObj (Store.o_board o) (Store.o_to_move o) 0
                                        (Store.o_fullmove_number o))).
    - apply confined_bind; [apply confined_read_board|]. intros o.
      by apply (confined_setter self locs
                  (fun o' => Store.mkObj (Store.o_board o') (Store.o_to_move o')
                               (Store.o_halfmove_clock o + 1)
                               (Store.o_fullmove_number o'))). }
  intros _. apply confined_bind.
  { apply confined_bind; [apply confined_read_board|]. intros o.
    destruct (bool_decide _).
    - by apply (confined_setter self locs
                  (fun o' => Store.mkObj (Store.o_board o') (Store.o_to_move o')
                               (Store.o_halfmove_clock o')
                               (Store.o_fullmove_number o + 1))).
    - apply confined_stays. by intros s s' out [= <- _]. }
  intros _. apply confined_bind; [apply confined_read_board|]. intros o.
  by apply (confined_setter self locs
              (fun o' => Store.mkObj (Store.o_board o')
                           (if bool_decide (Store.o_to_move o = BLACK)
                            then WHITE else BLACK)
                           (Store.o_halfmove_clock o')
                           (Store.o_fullmove_number o'))).
Qed.

(** Writing a new object only keeps every object of an older store. *)
Lemma extends_writes_object s0 s1 s2 self locs :
  extends s0 s1 → writes_object self locs s1 s2 →
  self ∉ dom (Store.boards s0) →
  Forall (fun rl => rl ∉ dom (Store.rows s0)) locs →
  extends s0 s2.
Proof.
  intros (Hp & Hr & Hb) (Hp' & Hb' & Hr') Hself Hnew. split_and!.
  - by transitivity (Store.pieces s1).
  - apply map_subseteq_spec. intros l row Hl.
    rewrite Hr'; [by eapply lookup_weaken|].
    intros Hin. rewrite Forall_forall in Hnew.
    apply (Hnew l Hin). by eapply elem_of_dom_2.
  - apply map_subseteq_spec. intros l o Hl.
    rewrite Hb'; [by eapply lookup_weaken|].
    intros ->. apply Hself. by eapply elem_of_dom_2.
Qed.

(** Assigning fields of [self]: the board read off the store afterwards. *)
Lemma setter_view s self b (upd : Store.obj → Store.obj) :
  Store.view s self = Some b →
  (∀ o, Store.o_board (upd o) = Store.o_board o) →
  ∃ s' o, Store.boards s !! self = Some o
    ∧ Store.bind (Store.read_board self)
                 (fun o => Store.write_board self (upd o)) s
      = (s', Store.Done (Ok tt))
    ∧ Store.view s' self
      = Some (mkBoard (board b) (Store.o_to_move (upd o))
                      (Store.o_halfmove_clock (upd o))
                      (Store.o_fullmove_number (upd o))).
Proof.
  intros Hv Hupd. apply view_inv in Hv as (o & Ho & Hg & Ht & Hh & Hf).
  eexists _, o. split; [done|].
  unfold Store.bind, Store.read_board, Store.write_board. rewrite Ho.
  split; [reflexivity|].
  apply view_inv. exists (upd o). cbn. split; [apply lookup_insert_eq|].
  split; [|done]. rewrite Hupd. done.
Qed.

Lemma read_board_view s self b :
  Store.view s self = Some b →
  ∃ o, Store.read_board self s = (s, Store.Done (Ok o))
    ∧ to_move b = Store.o_to_move o
    ∧ halfmove_clock b = Store.o_halfmove_clock o
    ∧ fullmove_number b = Store.o_fullmove_number o.
Proof.
  intros (o & Ho & _ & Ht & Hh & Hf)%view_inv. exists o.
  unfold Store.read_board. by rewrite Ho.
Qed.

(** [make_move] in the store is [make_move] on the value. *)
Lemma make_move_refines s self b move :
  Store.view s self = Some b → rows_distinct s self →
  ∃ s' out, Store.make_move self move s = (s', Store.Done out)
    ∧ match out, make_move b move with
      | Ok _, Ok b' => Store.view s' self = Some b'
      | Raise e, Raise e' => e = e'
      | _, _ => False
      end.
Proof.
  intros Hv Hnd. destruct move as [[r1 c1] [r2 c2]].
  destruct (load_cell_view s self b r1 c1 Hv) as (out1 & Hload1 & Hrel1).
  destruct (load_cell_view s self b r2 c2 Hv) as (out2 & Hload2 & Hrel2).
  destruct (make_move_no_checks_refines s self b ((r1, c1), (r2, c2)) Hv Hnd)
    as (s1 & out3 & Hm & Hrel3).
  pose proof Hnd as (o0 & Ho0 & _).
  pose proof (make_move_no_checks_writes _ _ _ _ _ _ Ho0 Hm) as (Hp1 & _ & _).
  unfold Store.make_move, make_move.
  unfold Store.bind at 1. rewrite Hload1.
  destruct out1 as [q1|e], (board_at (board b) r1 c1) as [x1|e'] eqn:Ex1;
    cbn in Hrel1; try done; cbn [mbind res_bind].
  2:{ by eexists _, _. }
  unfold Store.bind at 1. rewrite Hload2.
  destruct out2 as [q2|e], (board_at (board b) r2 c2) as [x2|e'];
    cbn in Hrel2; try done; cbn [mbind res_bind].
  2:{ by eexists _, _. }
  unfold Store.bind at 1. unfold Move, Square in *. rewrite Hm.
  destruct out3 as [[]|e], (_make_move_no_checks b _) as [b1|e'] eqn:Eb1;
    try done; cbn [mbind res_bind].
  2:{ by eexists _, _. }
  destruct q1 as [ml|].
  2:{ exfalso. injection Hrel1 as <-. revert Eb1. unfold _make_move_no_checks.
      rewrite Ex1. cbn [mbind res_bind].
      by destruct (board_set (board b) r1 c1 None). }
  cbn in Hrel1. destruct (Store.pieces s !! ml) as [mp|] eqn:Eml; [|done].
  injection Hrel1 as <-.
  unfold Store.bind at 1, Store.read_piece.
  rewrite (lookup_weaken _ _ _ _ Eml Hp1).
  assert (Hcap : match q2 with Some _ => true | None => false end
                 = negb (is_none x2)).
  { destruct q2 as [l|]; cbn in Hrel2.
    - destruct (Store.pieces s !! l); [|done]. by injection Hrel2 as <-.
    - by injection Hrel2 as <-. }
  rewrite Hcap.
  set (hm := if bool_decide (kind mp = Pawn) || negb (is_none x2)
             then 0 else halfmove_clock b1 + 1).
  assert (Hstep1 : ∃ s2,
    (if bool_decide (kind mp = Pawn) || negb (is_none x2)
     then Store.set_halfmove_clock self 0
     else Store.bind (Store.read_board self) (fun o =>
            Store.set_halfmove_clock self (Store.o_halfmove_clock o + 1))) s1
    = (s2, Store.Done (Ok tt))
    ∧ Store.view s2 self
      = Some (mkBoard (board b1) (to_move b1) hm (fullmove_number b1))).
  { destruct (read_board_view _ _ _ Hrel3) as (o & Hread & Ht & Hh & Hf).
    subst hm. destruct (_ || _).
    - destruct (setter_view s1 self b1
                  (fun o => Store.mkObj (Store.o_board o) (Store.o_to_move o) 0
                                        (Store.o_fullmove_number o)) Hrel3)
        as (s2 & o' & Ho' & Hrun & Hview); [done|].
      exists s2. split; [exact Hrun|]. rewrite Hview. cbn.
      unfold Store.read_board in Hread. rewrite Ho' in Hread.
      injection Hread as <-. by rewrite Ht, Hf.
    - unfold Store.bind at 1. rewrite Hread.
      destruct (setter_view s1 self b1
                  (fun o' => Store.mkObj (Store.o_board o') (Store.o_to_move o')
                               (Store.o_halfmove_clock o + 1)
                               (Store.o_fullmove_number o')) Hrel3)
        as (s2 & o' & Ho' & Hrun & Hview); [done|].
      exists s2. split; [exact Hrun|]. rewrite Hview. cbn.
      unfold Store.read_board in Hread. rewrite Ho' in Hread.
      injection Hread as <-. by rewrite Ht, Hh, Hf. }
  destruct Hstep1 as (s2 & Hrun2 & Hv2).
  unfold Store.bind at 1. rewrite Hrun2.
  set (fm := if bool_decide (to_move b1 = BLACK)
             then fullmove_number b1 + 1 else fullmove_number b1).
  assert (Hstep2 : ∃ s3,
    Store.bind (Store.read_board self) (fun o =>
      if bool_decide (Store.o_to_move o = BLACK)
      then Store.set_fullmove_number self (Store.o_fullmove_number o + 1)
      else Store.ret tt) s2
    = (s3, Store.Done (Ok tt))
    ∧ Store.view s3 self = Some (mkBoard (board b1) (to_move b1) hm fm)).
  { destruct (read_board_view _ _ _ Hv2) as (o & Hread & Ht & Hh & Hf).
    cbn in Ht, Hh, Hf. unfold Store.bind at 1. rewrite Hread. rewrite <- Ht.
    subst fm. destruct (bool_decide (to_move b1 = BLACK)).
    - destruct (setter_view s2 self _
                  (fun o' => Store.mkObj (Store.o_board o') (Store.o_to_move o')
                               (Store.o_halfmove_clock o')
                               (Store.o_fullmove_number o + 1)) Hv2)
        as (s3 & o' & Ho' & Hrun & Hview); [done|].
      exists s3. split; [exact Hrun|]. rewrite Hview. cbn.
      unfold Store.read_board in Hread. rewrite Ho' in Hread.
      injection Hread as <-. by rewrite <- Ht, <- Hh, <- Hf.
    - exists s2. split; [done|]. done. }
  destruct Hstep2 as (s3 & Hrun3 & Hv3).
  unfold Store.bind at 1. rewrite Hrun3.
  destruct (read_board_view _ _ _ Hv3) as (o & Hread & Ht & Hh & Hf).
  cbn in Ht, Hh, Hf. unfold Store.bind at 1. rewrite Hread.
  destruct (setter_view s3 self _
              (fun o' => Store.mkObj (Store.o_board o')
                           (if bool_decide (Store.o_to_move o = BLACK)
                            then WHITE else BLACK)
                           (Store.o_halfmove_clock o')
                           (Store.o_fullmove_number o')) Hv3)
    as (s4 & o' & Ho' & Hrun & Hview); [done|].
  exists s4, (Ok tt). split; [exact Hrun|]. rewrite Hview. cbn.
  unfold Store.read_board in Hread. rewrite Ho' in Hread.
  injection Hread as <-. by rewrite <- Ht, <- Hh, <- Hf.
Qed.

(** ** Promotion *)

(** C3.  [_make_move_no_checks] on a board whose source square holds the
    piece object [pl].  When that piece is a pawn and the destination row
    is 0 or 7, the destination afterwards holds a new object, a queen of
    the pawn's colour.  In every other case the destination holds [pl],
    the object that stood on the source square, unchanged.  The source
    square is left empty. *)
Theorem make_move_no_checks_promotion s self b r1 c1 r2 c2 pl p :
  Store.view s self = Some b → rows_distinct s self → wf_grid (board b) →
  inside r1 c1 = true → inside r2 c2 = true →
  Store.load_cell self r1 c1 s = (s, Store.Done (Ok (Some pl))) →
  Store.pieces s !! pl = Some p →
  ∃ s' b',
    Store._make_move_no_checks self ((r1, c1), (r2, c2)) s
      = (s', Store.Done (Ok tt))
    ∧ _make_move_no_checks b ((r1, c1), (r2, c2)) = Ok b'
    ∧ Store.view s' self = Some b'
    ∧ (kind p = Pawn → r2 = 0 ∨ r2 = 7 →
       cell (board b') r2 c2 = Some (mkPiece (color p) Queen)
       ∧ ∃ q, Store.load_cell self r2 c2 s' = (s', Store.Done (Ok (Some q)))
           ∧ (q ∉ dom (Store.pieces s))
           ∧ Store.pieces s' !! q = Some (mkPiece (color p) Queen))
    ∧ (¬ (kind p = Pawn ∧ (r2 = 0 ∨ r2 = 7)) →
       cell (board b') r2 c2 = Some p
       ∧ Store.load_cell self r2 c2 s' = (s', Store.Done (Ok (Some pl)))
       ∧ Store.pieces s' !! pl = Some p)
    ∧ ((r1, c1) ≠ (r2, c2) → cell (board b') r1 c1 = None).
Proof.
  intros Hv Hnd Hwf H1 H2 Hload Hpl.
  assert (Hp : cell (board b) r1 c1 = Some p).
  { destruct (load_cell_view s self b r1 c1 Hv) as (out & Hload' & Hrel).
    rewrite Hload in Hload'. injection Hload' as <-.
    rewrite (board_at_inside _ _ _ Hwf H1) in Hrel. cbn in Hrel.
    rewrite Hpl in Hrel. by injection Hrel as <-. }
  destruct (make_move_no_checks_lands b r1 c1 r2 c2 p Hwf H1 H2 Hp)
    as (b' & Hb' & Hpromo & Hplain & Hsrc).
  destruct (make_move_no_checks_refines s self b ((r1, c1), (r2, c2)) Hv Hnd)
    as (s' & out & Hrun & Hrel).
  unfold Move, Square in *. rewrite Hb' in Hrel.
  destruct out as [[]|e]; [|done].
  pose proof (make_move_no_checks_same_object _ _ _ _ _ _ _ _ _ Hload Hpl Hrun)
    as Hobj.
  exists s', b'. split_and!; try done.
  - intros Hk Hr. split; [by apply Hpromo|].
    rewrite bool_decide_eq_true_2 in Hobj by done.
    replace ((r2 =? 0) || (r2 =? 7)) with true in Hobj; [done|].
    symmetry. apply orb_true_iff. lia.
  - intros Hn. split; [by apply Hplain|].
    destruct (bool_decide (kind p = Pawn) && ((r2 =? 0) || (r2 =? 7))) eqn:E;
      [|done].
    exfalso. apply Hn. apply andb_true_iff in E as [Hk Hr].
    apply bool_decide_eq_true in Hk. apply orb_true_iff in Hr. split; [done|lia].
Qed.

Lemma make_move_no_checks_promotion_witness :
  Store.view Store.initial_store 1%positive = Some new_board
  ∧ rows_distinct Store.initial_store 1%positive
  ∧ wf_grid (board new_board)
  ∧ inside 6 4 = true ∧ inside 4 4 = true
  ∧ Store.load_cell 1%positive 6 4 Store.initial_store
      = (Store.initial_store, Store.Done (Ok (Some 9%positive)))
  ∧ Store.pieces Store.initial_store !! 9%positive = Some (mkPiece WHITE Pawn)
  ∧ ∃ s' b',
      Store._make_move_no_checks 1%positive ((6, 4), (4, 4)) Store.initial_store
        = (s', Store.Done (Ok tt))
      ∧ _make_move_no_checks new_board ((6, 4), (4, 4)) = Ok b'
      ∧ Store.view s' 1%positive = Some b'
      ∧ (kind (mkPiece WHITE Pawn) = Pawn → 4 = 0 ∨ 4 = 7 →
         cell (board b') 4 4 = Some (mkPiece (color (mkPiece WHITE Pawn)) Queen)
         ∧ ∃ q, Store.load_cell 1%positive 4 4 s' = (s', Store.Done (Ok (Some q)))
             ∧ (q ∉ dom (Store.pieces Store.initial_store))
             ∧ Store.pieces s' !! q
               = Some (mkPiece (color (mkPiece WHITE Pawn)) Queen))
      ∧ (¬ (kind (mkPiece WHITE Pawn) = Pawn ∧ (4 = 0 ∨ 4 = 7)) →
         cell (board b') 4 4 = Some (mkPiece WHITE Pawn)
         ∧ Store.load_cell 1%positive 4 4 s'
           = (s', Store.Done (Ok (Some 9%positive)))
         ∧ Store.pieces s' !! 9%positive = Some (mkPiece WHITE Pawn))
      ∧ ((6, 4) ≠ (4, 4) → cell (board b') 6 4 = None).
Proof.
  destruct Board_init_view as [Hv Hnd].
  assert (Hload : Store.load_cell 1%positive 6 4 Store.initial_store
            = (Store.initial_store, Store.Done (Ok (Some 9%positive))))
    by (vm_compute; reflexivity).
  assert (Hpl : Store.pieces Store.initial_store !! 9%positive
            = Some (mkPiece WHITE Pawn))
    by (vm_compute; reflexivity).
  split; [exact Hv|]. split; [exact Hnd|]. split; [exact wf_grid_new_board|].
  split; [reflexivity|]. split; [reflexivity|].
  split; [exact Hload|]. split; [exact Hpl|].
  exact (make_move_no_checks_promotion Store.initial_store 1%positive new_board
           6 4 4 4 9%positive (mkPiece WHITE Pawn)
           Hv Hnd wf_grid_new_board eq_refl eq_refl Hload Hpl).
Defined.

(** ** The clone and its source *)

(** C9.  [clone] returns a new board object that reads, square by square
    and field by field, as its source.  Whatever [_make_move_no_checks]
    or [make_move] then does to the clone, the source still reads as
    before, while the clone reads as the moved board. *)
Theorem clone_is_independent s self b move :
  Store.view s self = Some b →
  ∃ s1 b2, Store.clone self s = (s1, Store.Done (Ok b2))
    ∧ b2 ≠ self
    ∧ Store.view s1 b2 = Some b
    ∧ Store.view s1 self = Some b
    ∧ (∀ s2 out, Store._make_move_no_checks b2 move s1 = (s2, out) →
         Store.view s2 self = Some b
         ∧ ∀ b', _make_move_no_checks b move = Ok b' →
             Store.view s2 b2 = Some b')
    ∧ (∀ s2 out, Store.make_move b2 move s1 = (s2, out) →
         Store.view s2 self = Some b
         ∧ ∀ b', make_move b move = Ok b' → Store.view s2 b2 = Some b').
Proof.
  intros Hv.
  destruct (clone_spec s self b Hv)
    as (s1 & b2 & o2 & Hc & Hext & Hv2 & Hnew & Ho2 & Hrows).
  pose proof (clone_rows_distinct _ _ _ _ _ Hv Hc) as Hnd.
  exists s1, b2. split_and!; [done| |done| | |].
  - intros ->. apply Hnew. apply view_inv in Hv as (o & Ho & _).
    by eapply elem_of_dom_2.
  - by eapply view_extends.
  - intros s2 out Hm. split.
    + pose proof (make_move_no_checks_writes _ _ _ _ _ _ Ho2 Hm) as W.
      eapply view_extends; [|exact Hv]. by eapply extends_writes_rows.
    + intros b' Hb'.
      destruct (make_move_no_checks_refines s1 b2 b move Hv2 Hnd)
        as (s2' & out' & Hm' & Hrel).
      rewrite Hm in Hm'. injection Hm' as -> ->. rewrite Hb' in Hrel.
      by destruct out'.
  - intros s2 out Hm. split.
    + destruct (confined_make_move b2 (Store.o_board o2) move s1 s2 out)
        as [W _]; [by exists o2|done|].
      eapply view_extends; [|exact Hv]. by eapply extends_writes_object.
    + intros b' Hb'.
      destruct (make_move_refines s1 b2 b move Hv2 Hnd)
        as (s2' & out' & Hm' & Hrel).
      rewrite Hm in Hm'. injection Hm' as -> ->. rewrite Hb' in Hrel.
      by destruct out'.
Qed.

Lemma clone_is_independent_witness :
  Store.view Store.initial_store 1%positive = Some new_board
  ∧ ∃ s1 b2, Store.clone 1%positive Store.initial_store = (s1, Store.Done (Ok b2))
      ∧ b2 ≠ 1%positive
      ∧ Store.view s1 b2 = Some new_board
      ∧ Store.view s1 1%positive = Some new_board
      ∧ (∀ s2 out,
           Store._make_move_no_checks b2 ((6, 4), (4, 4)) s1 = (s2, out) →
           Store.view s2 1%positive = Some new_board
           ∧ ∀ b', _make_move_no_checks new_board ((6, 4), (4, 4)) = Ok b' →
               Store.view s2 b2 = Some b')
      ∧ (∀ s2 out,
           Store.make_move b2 ((6, 4), (4, 4)) s1 = (s2, out) →
           Store.view s2 1%positive = Some new_board
           ∧ ∀ b', make_move new_board ((6, 4), (4, 4)) = Ok b' →
               Store.view s2 b2 = Some b').
Proof.
  split; [vm_compute; reflexivity|].
  apply (clone_is_independent Store.initial_store 1%positive new_board
           ((6, 4), (4, 4))).
  vm_compute; reflexivity.
Defined.


(** * Further properties of the rules engine *)

(** ** Shape and scalar fields under the moves *)

Lemma getitem_Ok_length {A} (l : list A) i x :
  getitem l i = Ok x → ∃ k, l !! k = Some x ∧ (k < length l)%nat
    ∧ ∀ v, setitem l i v = Ok (<[k := v]> l).
Proof.
  intros (k & Hk & Hx)%getitem_Ok. exists k. split; [done|].
  split; [by eapply lookup_lt_Some|]. intros v. unfold setitem. by rewrite Hk.
Qed.

Lemma setitem_Ok {A} (l : list A) i v l' :
  setitem l i v = Ok l' → ∃ k, l' = <[k := v]> l.
Proof.
  unfold setitem. destruct (py_index _ i) as [k|e]; [|done].
  intros [= <-]. by exists k.
Qed.

(** A write keeps the lengths of the grid and of its rows. *)
Lemma board_set_shape g r c v g' :
  board_set g r c v = Ok g' →
  length g' = length g
  ∧ ∀ n, Forall (fun row => length row = n) g →
         Forall (fun row => length row = n) g'.
Proof.
  unfold board_set.
  destruct (getitem g r) as [row|e] eqn:Erow; [|done]. cbn [mbind res_bind].
  destruct (setitem row c v) as [row'|e] eqn:Erow'; [|done]. cbn [mbind res_bind].
  intros (k & ->)%setitem_Ok. apply setitem_Ok in Erow' as (j & ->).
  split; [by rewrite length_insert|]. intros n Hn.
  apply Forall_insert; [done|]. rewrite length_insert.
  apply getitem_elem in Erow. rewrite Forall_forall in Hn. by apply Hn.
Qed.

Lemma board_set_wf g r c v g' :
  wf_grid g → board_set g r c v = Ok g' → wf_grid g'.
Proof.
  intros [Hl Hr] H. destruct (board_set_shape _ _ _ _ _ H) as [Hl' Hr'].
  split; [congruence|by apply Hr'].
Qed.

(** What [_make_move_no_checks] returns differs from its argument in the
    grid only, and the grid keeps its shape. *)
Lemma make_move_no_checks_Ok b move b1 :
  _make_move_no_checks b move = Ok b1 →
  to_move b1 = to_move b
  ∧ halfmove_clock b1 = halfmove_clock b
  ∧ fullmove_number b1 = fullmove_number b
  ∧ (wf_grid (board b) → wf_grid (board b1)).
Proof.
  destruct move as [[r1 c1] [r2 c2]]. unfold _make_move_no_checks.
  destruct (board_at (board b) r1 c1) as [p|e]; [|done]. cbn [mbind res_bind].
  destruct (board_set (board b) r1 c1 None) as [g1|e] eqn:E1; [|done].
  cbn [mbind res_bind]. destruct p as [p|]; [|done].
  destruct (if bool_decide (kind p = Pawn) && ((r2 =? 0) || (r2 =? 7))
            then board_set g1 r2 c2 (Some (mkPiece (color p) Queen))
            else board_set g1 r2 c2 (Some p)) as [g2|e] eqn:E2; [|done].
  cbn [mbind res_bind]. intros [= <-]. cbn. split_and!; try done.
  intros Hwf. pose proof (board_set_wf _ _ _ _ _ Hwf E1) as Hwf1.
  destruct (bool_decide (kind p = Pawn) && ((r2 =? 0) || (r2 =? 7)));
    by eapply board_set_wf.
Qed.

(** The scalar fields after any [make_move] that returns. *)
Lemma make_move_Ok b move b' :
  make_move b move = Ok b' →
  to_move b' = (if bool_decide (to_move b = BLACK) then WHITE else BLACK)
  ∧ fullmove_number b' = (if bool_decide (to_move b = BLACK)
                          then fullmove_number b + 1 else fullmove_number b)
  ∧ (halfmove_clock b' = 0 ∨ halfmove_clock b' = halfmove_clock b + 1)
  ∧ (wf_grid (board b) → wf_grid (board b'))
  ∧ ∃ b1, _make_move_no_checks b move = Ok b1 ∧ board b' = board b1.
Proof.
  destruct move as [[r1 c1] [r2 c2]]. unfold make_move.
  destruct (board_at (board b) r1 c1) as [moving|e]; [|done]. cbn [mbind res_bind].
  destruct (board_at (board b) r2 c2) as [captured|e]; [|done]. cbn [mbind res_bind].
  destruct (_make_move_no_checks b _) as [b1|e] eqn:E1; [|done]. cbn [mbind res_bind].
  destruct moving as [moving|]; [|done]. intros [= <-]. cbn.
  destruct (make_move_no_checks_Ok _ _ _ E1) as (Ht & Hh & Hf & Hwf).
  rewrite Ht, Hh, Hf. split_and!; try done.
  - destruct (_ || _); [by left|by right].
  - by exists b1.
Qed.

(** X1.  Whatever the move, a [make_move] that returns leaves an 8x8 grid
    8x8, hands the turn to the other side, and advances the full-move
    counter exactly after Black's moves; after two moves in a row the
    same side is to move again and the counter has advanced by one. *)
Theorem make_move_twice b m1 b1 m2 b2 :
  wf_grid (board b) →
  make_move b m1 = Ok b1 → make_move b1 m2 = Ok b2 →
  wf_grid (board b1) ∧ wf_grid (board b2)
  ∧ to_move b1 ≠ to_move b
  ∧ to_move b2 = to_move b
  ∧ fullmove_number b2 = fullmove_number b + 1
  ∧ (fullmove_number b1 = fullmove_number b ↔ to_move b = WHITE).
Proof.
  intros Hwf (Ht1 & Hf1 & _ & Hwf1 & _)%make_move_Ok
             (Ht2 & Hf2 & _ & Hwf2 & _)%make_move_Ok.
  rewrite Ht2, Hf2, Ht1, Hf1.
  split; [by apply Hwf1|]. split; [by apply Hwf2, Hwf1|].
  destruct (to_move b); repeat case_bool_decide; try done;
    (split_and!; [done|done|lia|split; intros; (done || lia)]).
Qed.

Lemma make_move_twice_witness :
  wf_grid (board new_board)
  ∧ ∃ b1 b2, make_move new_board ((6, 4), (4, 4)) = Ok b1
      ∧ make_move b1 ((1, 4), (3, 4)) = Ok b2
      ∧ wf_grid (board b1) ∧ wf_grid (board b2)
      ∧ to_move b1 ≠ to_move new_board
      ∧ to_move b2 = to_move new_board
      ∧ fullmove_number b2 = fullmove_number new_board + 1
      ∧ (fullmove_number b1 = fullmove_number new_board
         ↔ to_move new_board = WHITE).
Proof.
  split; [exact wf_grid_new_board|].
  eexists _, _. split; [vm_compute; reflexivity|].
  split; [vm_compute; reflexivity|].
  eapply (make_move_twice new_board ((6, 4), (4, 4)) _ ((1, 4), (3, 4)) _
            wf_grid_new_board); vm_compute; reflexivity.
Defined.

(** ** [king_position] when there is a king *)

Lemma all_squares_lookup i :
  (i < 64)%nat →
  all_squares !! i = Some (Z.of_nat i `div` 8, Z.of_nat i `mod` 8).
Proof.
  intros Hi.
  assert (Hall : forallb (fun i => bool_decide
            (all_squares !! i = Some (Z.of_nat i `div` 8, Z.of_nat i `mod` 8)))
            (seq 0 64) = true) by (vm_compute; reflexivity).
  rewrite forallb_forall in Hall.
  eapply bool_decide_eq_true_1. apply Hall, in_seq. lia.
Qed.

(** The scan visits the squares row by row, each row left to right. *)
Lemma all_squares_order i j r1 c1 r2 c2 :
  all_squares !! i = Some (r1, c1) → all_squares !! j = Some (r2, c2) →
  r1 < r2 ∨ (r1 = r2 ∧ c1 < c2) → (i < j)%nat.
Proof.
  intros Hi Hj Hlt.
  assert (Hi' : (i < 64)%nat) by exact (lookup_lt_Some _ _ _ Hi).
  assert (Hj' : (j < 64)%nat) by exact (lookup_lt_Some _ _ _ Hj).
  rewrite all_squares_lookup in Hi by lia. rewrite all_squares_lookup in Hj by lia.
  injection Hi as <- <-. injection Hj as <- <-.
  pose proof (Z.div_mod (Z.of_nat i) 8 ltac:(lia)).
  pose proof (Z.div_mod (Z.of_nat j) 8 ltac:(lia)).
  pose proof (Z.mod_pos_bound (Z.of_nat i) 8 ltac:(lia)).
  pose proof (Z.mod_pos_bound (Z.of_nat j) 8 ltac:(lia)).
  lia.
Qed.

Lemma king_scan_first b col sqs :
  existsb (fun '(r, c) => is_piece col King (cell (board b) r c)) sqs = true →
  ∃ i r c, sqs !! i = Some (r, c)
    ∧ king_scan b col sqs = (r, c)
    ∧ is_piece col King (cell (board b) r c) = true
    ∧ ∀ j r' c', (j < i)%nat → sqs !! j = Some (r', c') →
        is_piece col King (cell (board b) r' c') = false.
Proof.
  induction sqs as [|[r c] sqs IH]; cbn; [done|].
  destruct (is_piece col King (cell (board b) r c)) eqn:E.
  - intros _. exists 0%nat, r, c. split_and!; try done. intros j r' c' Hj. lia.
  - cbn. intros H. destruct (IH H) as (i & r0 & c0 & Hi & Hscan & Hk & Hfirst).
    exists (S i), r0, c0. split_and!; try done.
    intros [|j] r' c' Hj; cbn.
    + by intros [= <- <-].
    + apply Hfirst. lia.
Qed.

(** X2.  When some square holds a king of the colour, [king_position]
    returns a square of the board that holds one: the first in row-major
    order, so every square before it holds none; and [is_in_check] is
    the attack test on that square. *)
Theorem king_position_first_king b col :
  has_king b col = true →
  ∃ r c, king_position b col = (r, c)
    ∧ inside r c = true
    ∧ is_piece col King (cell (board b) r c) = true
    ∧ (∀ r' c', inside r' c' = true → r' < r ∨ (r' = r ∧ c' < c) →
         is_piece col King (cell (board b) r' c') = false)
    ∧ is_in_check b col = is_square_attacked_by b r c (opponent col).
Proof.
  intros Hk. destruct (king_scan_first b col all_squares Hk)
    as (i & r & c & Hi & Hscan & Hking & Hfirst).
  pose proof (all_squares_inside (r, c) (list_elem_of_lookup_2 _ _ _ Hi)) as Hin.
  cbn in Hin.
  exists r, c. split_and!; try done.
  - intros r' c' Hin' Hlt.
    apply inside_all_squares, list_elem_of_lookup_1 in Hin' as [j Hj].
    apply (Hfirst j r' c'); [|done]. by eapply all_squares_order.
  - unfold is_in_check, king_position. rewrite Hscan.
    apply inside_spec in Hin. destruct (Z.eqb_spec r (-1)); [lia|done].
Qed.

Lemma king_position_first_king_witness :
  has_king new_board BLACK = true
  ∧ ∃ r c, king_position new_board BLACK = (r, c)
      ∧ inside r c = true
      ∧ is_piece BLACK King (cell (board new_board) r c) = true
      ∧ (∀ r' c', inside r' c' = true → r' < r ∨ (r' = r ∧ c' < c) →
           is_piece BLACK King (cell (board new_board) r' c') = false)
      ∧ is_in_check new_board BLACK
        = is_square_attacked_by new_board r c (opponent BLACK).
Proof.
  split; [reflexivity|].
  apply (king_position_first_king new_board BLACK). reflexivity.
Defined.

(** ** What [generate_legal_moves] contains *)

Lemma keep_legal_complete b col moves kept m :
  keep_legal b col moves = Ok kept →
  m ∈ moves → is_legal_move b m col = Ok true → m ∈ kept.
Proof.
  revert kept. induction moves as [|m0 moves IH]; intros kept; cbn.
  { by intros _ ?%elem_of_nil. }
  destruct (is_legal_move b m0 col) as [ok|e] eqn:E0; cbn [mbind res_bind]; [|done].
  destruct (keep_legal b col moves) as [kept'|e]; cbn [mbind res_bind]; [|done].
  intros [= <-] [-> | Hm]%elem_of_cons Hok.
  - rewrite Hok in E0. injection E0 as <-. left.
  - destruct ok; [right|]; by apply IH.
Qed.

Lemma legal_scan_complete b col sqs moves r c p m :
  legal_scan b col sqs = Ok moves →
  (r, c) ∈ sqs → board_at (board b) r c = Ok (Some p) → color p = col →
  m ∈ piece_moves b r c p → is_legal_move b m col = Ok true →
  m ∈ moves.
Proof.
  revert moves. induction sqs as [|[r0 c0] sqs IH]; intros moves; cbn.
  { by intros _ ?%elem_of_nil. }
  destruct (match cell (board b) r0 c0 with Some _ => _ | None => _ end)
    as [here|e] eqn:Ehere; cbn [mbind res_bind]; [|done].
  destruct (legal_scan b col sqs) as [later|e]; cbn [mbind res_bind]; [|done].
  intros [= <-] [[= <- <-] | Hsq]%elem_of_cons Hat Hcol Hm Hok;
    apply elem_of_app; [left|right; by eapply IH].
  unfold cell in Ehere. unfold generate_pseudo_legal_moves_from in Ehere.
  rewrite Hat in Ehere. cbn [mbind res_bind] in Ehere.
  rewrite bool_decide_eq_true_2 in Ehere by done.
  by eapply keep_legal_complete.
Qed.

Lemma legal_scan_origin b col sqs moves m :
  legal_scan b col sqs = Ok moves → m ∈ moves →
  ∃ r c p, (r, c) ∈ sqs ∧ board_at (board b) r c = Ok (Some p)
    ∧ color p = col ∧ m ∈ piece_moves b r c p
    ∧ is_legal_move b m col = Ok true.
Proof.
  revert moves. induction sqs as [|[r c] sqs IH]; intros moves; cbn.
  { intros [= <-]. by intros ?%elem_of_nil. }
  destruct (match cell (board b) r c with Some _ => _ | None => _ end)
    as [here|e] eqn:Ehere; cbn [mbind res_bind]; [|done].
  destruct (legal_scan b col sqs) as [later|e]; cbn [mbind res_bind]; [|done].
  intros [= <-] [Hm|Hm]%elem_of_app.
  - unfold cell, generate_pseudo_legal_moves_from in Ehere.
    destruct (board_at (board b) r c) as [[p|]|e] eqn:Hat;
      cbn [mbind res_bind] in Ehere;
      try (injection Ehere as <-; by apply elem_of_nil in Hm).
    destruct (bool_decide (color p = col)) eqn:Ecol;
      [|injection Ehere as <-; by apply elem_of_nil in Hm].
    apply bool_decide_eq_true in Ecol.
    destruct (keep_legal_sound _ _ _ _ _ Ehere Hm) as [Hin Hok].
    exists r, c, p. split_and!; try done. left.
  - destruct (IH later eq_refl Hm) as (r' & c' & p & Hsq & Hrest).
    exists r', c', p. split; [by right|done].
Qed.

(** X3.  The moves [generate_legal_moves] returns are exactly the moves
    that [generate_pseudo_legal_moves_from] lists for a square holding a
    piece of the colour and that [is_legal_move] accepts: none is
    missing, none is added. *)
Theorem generate_legal_moves_exact b col moves m :
  wf_grid (board b) → generate_legal_moves b col = Ok moves →
  m ∈ moves ↔
  ∃ r c p pseudo,
    inside r c = true ∧ cell (board b) r c = Some p ∧ color p = col
    ∧ generate_pseudo_legal_moves_from b r c = Ok pseudo ∧ m ∈ pseudo
    ∧ is_legal_move b m col = Ok true.
Proof.
  intros Hwf Hgen. split.
  - intros Hm.
    destruct (legal_scan_origin _ _ _ _ _ Hgen Hm)
      as (r & c & p & Hsq & Hat & Hcol & Hpm & Hok).
    pose proof (all_squares_inside _ Hsq) as Hin. cbn in Hin.
    assert (Hp : cell (board b) r c = Some p) by (unfold cell; by rewrite Hat).
    exists r, c, p, (piece_moves b r c p). split_and!; try done.
    by rewrite (generate_pseudo_legal_moves_from_inside _ _ _ Hwf Hin), Hp.
  - intros (r & c & p & pseudo & Hin & Hp & Hcol & Hps & Hm & Hok).
    rewrite (generate_pseudo_legal_moves_from_inside _ _ _ Hwf Hin), Hp in Hps.
    injection Hps as <-.
    eapply (legal_scan_complete b col all_squares moves r c p); try done.
    + by apply inside_all_squares.
    + by rewrite (board_at_inside _ _ _ Hwf Hin), Hp.
Qed.

Lemma generate_legal_moves_exact_witness :
  wf_grid (board new_board)
  ∧ generate_legal_moves new_board WHITE
    = Ok [((6,0),(5,0)); ((6,0),(4,0)); ((6,1),(5,1)); ((6,1),(4,1));
          ((6,2),(5,2)); ((6,2),(4,2)); ((6,3),(5,3)); ((6,3),(4,3));
          ((6,4),(5,4)); ((6,4),(4,4)); ((6,5),(5,5)); ((6,5),(4,5));
          ((6,6),(5,6)); ((6,6),(4,6)); ((6,7),(5,7)); ((6,7),(4,7));
          ((7,1),(5,2)); ((7,1),(5,0)); ((7,6),(5,7)); ((7,6),(5,5))]
  ∧ (((7,1),(5,2)) ∈ [((6,0),(5,0)); ((6,0),(4,0)); ((6,1),(5,1)); ((6,1),(4,1));
          ((6,2),(5,2)); ((6,2),(4,2)); ((6,3),(5,3)); ((6,3),(4,3));
          ((6,4),(5,4)); ((6,4),(4,4)); ((6,5),(5,5)); ((6,5),(4,5));
          ((6,6),(5,6)); ((6,6),(4,6)); ((6,7),(5,7)); ((6,7),(4,7));
          ((7,1),(5,2)); ((7,1),(5,0)); ((7,6),(5,7)); ((7,6),(5,5))]
     ↔ ∃ r c p pseudo,
         inside r c = true ∧ cell (board new_board) r c = Some p
         ∧ color p = WHITE
         ∧ generate_pseudo_legal_moves_from new_board r c = Ok pseudo
         ∧ ((7,1),(5,2)) ∈ pseudo
         ∧ is_legal_move new_board ((7,1),(5,2)) WHITE = Ok true).
Proof.
  assert (Hgen : generate_legal_moves new_board WHITE
    = Ok [((6,0),(5,0)); ((6,0),(4,0)); ((6,1),(5,1)); ((6,1),(4,1));
          ((6,2),(5,2)); ((6,2),(4,2)); ((6,3),(5,3)); ((6,3),(4,3));
          ((6,4),(5,4)); ((6,4),(4,4)); ((6,5),(5,5)); ((6,5),(4,5));
          ((6,6),(5,6)); ((6,6),(4,6)); ((6,7),(5,7)); ((6,7),(4,7));
          ((7,1),(5,2)); ((7,1),(5,0)); ((7,6),(5,7)); ((7,6),(5,5))])
    by (vm_compute; reflexivity).
  split; [exact wf_grid_new_board|]. split; [exact Hgen|].
  exact (generate_legal_moves_exact new_board WHITE _ ((7,1),(5,2))
           wf_grid_new_board Hgen).
Defined.

(** ** Rays *)

Lemma clear_run_0 b rr cc dr dc : clear_run b rr cc dr dc 0.
Proof. intros j Hj. lia. Qed.

Lemma clear_run_step b rr cc dr dc k :
  0 ≤ k →
  clear_run b rr cc dr dc (k + 1) ↔
  (inside rr cc = true ∧ cell (board b) rr cc = None)
  ∧ clear_run b (rr + dr) (cc + dc) dr dc k.
Proof.
  intros Hk. split.
  - intros H. split.
    + specialize (H 0 ltac:(lia)).
      by replace (rr + 0 * dr) with rr in H by lia;
         replace (cc + 0 * dc) with cc in H by lia.
    + intros j Hj. specialize (H (j + 1) ltac:(lia)).
      by replace (rr + (j + 1) * dr) with (rr + dr + j * dr) in H by lia;
         replace (cc + (j + 1) * dc) with (cc + dc + j * dc) in H by lia.
  - intros [H0 H] j Hj. destruct (decide (j = 0)) as [->|Hne].
    + by replace (rr + 0 * dr) with rr by lia;
         replace (cc + 0 * dc) with cc by lia.
    + specialize (H (j - 1) ltac:(lia)).
      by replace (rr + dr + (j - 1) * dr) with (rr + j * dr) in H by lia;
         replace (cc + dc + (j - 1) * dc) with (cc + j * dc) in H by lia.
Qed.

(** What a walk of [slide] collects: the squares up to and including the
    first one that is not empty, if that one holds an opposing piece. *)
Lemma slide_spec fuel b col r c rr cc dr dc r2 c2 :
  ((r, c), (r2, c2)) ∈ slide fuel b col r c rr cc dr dc ↔
  ∃ k, 0 ≤ k < Z.of_nat fuel
    ∧ r2 = rr + k * dr ∧ c2 = cc + k * dc
    ∧ clear_run b rr cc dr dc k
    ∧ inside r2 c2 = true
    ∧ free_for col (cell (board b) r2 c2) = true.
Proof.
  revert rr cc. induction fuel as [|n IH]; intros rr cc.
  { cbn. split; [by intros ?%elem_of_nil|]. intros (k & ? & _). lia. }
  cbn [slide]. destruct (inside rr cc) eqn:Hin.
  2:{ split; [by intros ?%elem_of_nil|].
      intros (k & Hk & -> & -> & Hrun & Hin2 & _).
      destruct (decide (k = 0)) as [->|Hne].
      - replace (rr + 0 * dr) with rr in Hin2 by lia.
        replace (cc + 0 * dc) with cc in Hin2 by lia. congruence.
      - replace k with ((k - 1) + 1) in Hrun by lia.
        apply clear_run_step in Hrun as [[? _] _]; [congruence|lia]. }
  destruct (cell (board b) rr cc) as [t|] eqn:Hcell.
  - split.
    + destruct (negb (bool_decide (color t = col))) eqn:Ecol;
        [|by intros ?%elem_of_nil].
      intros [= -> ->]%list_elem_of_singleton. exists 0.
      split; [lia|]. split; [lia|]. split; [lia|].
      split; [apply clear_run_0|]. split; [done|]. by rewrite Hcell.
    + intros (k & Hk & -> & -> & Hrun & Hin2 & Hfree).
      destruct (decide (k = 0)) as [->|Hne].
      * replace (rr + 0 * dr) with rr in * by lia.
        replace (cc + 0 * dc) with cc in * by lia.
        rewrite Hcell in Hfree. cbn in Hfree. rewrite Hfree. left.
      * replace k with ((k - 1) + 1) in Hrun by lia.
        apply clear_run_step in Hrun as [[_ ?] _]; [congruence|lia].
  - rewrite elem_of_cons, IH. split.
    + intros [[= -> ->] | (k & Hk & -> & -> & Hrun & Hin2 & Hfree)].
      * exists 0. split; [lia|]. split; [lia|]. split; [lia|].
        split; [apply clear_run_0|]. split; [done|]. by rewrite Hcell.
      * exists (k + 1). split; [lia|]. split; [lia|]. split; [lia|].
        split; [apply clear_run_step; [lia|by split_and!]|].
        replace (rr + (k + 1) * dr) with (rr + dr + k * dr) by lia.
        replace (cc + (k + 1) * dc) with (cc + dc + k * dc) by lia. done.
    + intros (k & Hk & -> & -> & Hrun & Hin2 & Hfree).
      destruct (decide (k = 0)) as [->|Hne].
      * left. f_equal. f_equal; lia.
      * right. exists (k - 1). replace k with ((k - 1) + 1) in Hrun by lia.
        apply clear_run_step in Hrun as [_ Hrun]; [|lia].
        split; [lia|]. split; [lia|]. split; [lia|]. split; [done|].
        replace (rr + dr + (k - 1) * dr) with (rr + k * dr) by lia.
        replace (cc + dc + (k - 1) * dc) with (cc + k * dc) by lia. done.
Qed.

(** What a walk of [attack_ray] decides: the first piece on the ray. *)
Lemma attack_ray_spec fuel b ac k1 k2 rr cc dr dc :
  attack_ray fuel b ac k1 k2 rr cc dr dc = true ↔
  ∃ k p, 0 ≤ k < Z.of_nat fuel
    ∧ clear_run b rr cc dr dc k
    ∧ inside (rr + k * dr) (cc + k * dc) = true
    ∧ cell (board b) (rr + k * dr) (cc + k * dc) = Some p
    ∧ color p = ac ∧ (kind p = k1 ∨ kind p = k2).
Proof.
  revert rr cc. induction fuel as [|n IH]; intros rr cc.
  { cbn. split; [done|]. intros (k & p & ? & _). lia. }
  cbn [attack_ray]. destruct (inside rr cc) eqn:Hin.
  2:{ split; [done|].
      intros (k & p & Hk & Hrun & Hin2 & _).
      destruct (decide (k = 0)) as [->|Hne].
      - replace (rr + 0 * dr) with rr in Hin2 by lia.
        replace (cc + 0 * dc) with cc in Hin2 by lia. congruence.
      - replace k with ((k - 1) + 1) in Hrun by lia.
        apply clear_run_step in Hrun as [[? _] _]; [congruence|lia]. }
  destruct (cell (board b) rr cc) as [t|] eqn:Hcell.
  - split.
    + intros [Hc Hk]%andb_true_iff. apply bool_decide_eq_true in Hc.
      exists 0, t. split; [lia|]. split; [apply clear_run_0|].
      replace (rr + 0 * dr) with rr by lia.
      replace (cc + 0 * dc) with cc by lia. split_and!; try done.
      apply orb_true_iff in Hk as [Hk|Hk]; apply bool_decide_eq_true in Hk;
        [by left|by right].
    + intros (k & p & Hk & Hrun & Hin2 & Hp & Hcol & Hkind).
      destruct (decide (k = 0)) as [->|Hne].
      * replace (rr + 0 * dr) with rr in * by lia.
        replace (cc + 0 * dc) with cc in * by lia.
        assert (p = t) by congruence. subst p.
        apply andb_true_iff. split; [by apply bool_decide_eq_true|].
        apply orb_true_iff.
        destruct Hkind; [left|right]; by apply bool_decide_eq_true.
      * replace k with ((k - 1) + 1) in Hrun by lia.
        apply clear_run_step in Hrun as [[_ ?] _]; [congruence|lia].
  - rewrite IH. split.
    + intros (k & p & Hk & Hrun & Hin2 & Hp & Hrest).
      exists (k + 1), p. split; [lia|]. split; [apply clear_run_step; [lia|by split_and!]|].
      replace (rr + (k + 1) * dr) with (rr + dr + k * dr) by lia.
      replace (cc + (k + 1) * dc) with (cc + dc + k * dc) by lia. done.
    + intros (k & p & Hk & Hrun & Hin2 & Hp & Hrest).
      destruct (decide (k = 0)) as [->|Hne].
      * replace (rr + 0 * dr) with rr in * by lia.
        replace (cc + 0 * dc) with cc in * by lia. congruence.
      * exists (k - 1), p. replace k with ((k - 1) + 1) in Hrun by lia.
        apply clear_run_step in Hrun as [_ Hrun]; [|lia].
        split; [lia|]. split; [done|].
        replace (rr + dr + (k - 1) * dr) with (rr + k * dr) by lia.
        replace (cc + dc + (k - 1) * dc) with (cc + k * dc) by lia. done.
Qed.

(** A clear run walked from the other end. *)
Lemma clear_run_reverse b r c dr dc k :
  0 ≤ k →
  clear_run b (r + dr) (c + dc) dr dc k →
  clear_run b (r + (k + 1) * dr - dr) (c + (k + 1) * dc - dc) (- dr) (- dc) k.
Proof.
  intros Hk H j Hj. specialize (H (k - 1 - j) ltac:(lia)).
  by replace (r + (k + 1) * dr - dr + j * - dr)
       with (r + dr + (k - 1 - j) * dr) by lia;
     replace (c + (k + 1) * dc - dc + j * - dc)
       with (c + dc + (k - 1 - j) * dc) by lia.
Qed.

(** ** Attack detection against move generation *)

Lemma offset_moves_spec b r c col offs r2 c2 :
  ((r, c), (r2, c2)) ∈ offset_moves b r c col offs ↔
  ∃ dr dc, (dr, dc) ∈ offs ∧ r2 = r + dr ∧ c2 = c + dc
    ∧ inside r2 c2 = true ∧ free_for col (cell (board b) r2 c2) = true.
Proof.
  unfold offset_moves. rewrite list_elem_of_bind. split.
  - intros ([dr dc] & H & Hin). cbn in H.
    destruct (inside (r + dr) (c + dc)) eqn:E; cbn in H;
      [|by apply elem_of_nil in H].
    destruct (free_for _ _) eqn:F; [|by apply elem_of_nil in H].
    apply list_elem_of_singleton in H. injection H as -> ->.
    by exists dr, dc.
  - intros (dr & dc & Hin & -> & -> & E & F). exists (dr, dc).
    split; [|done]. cbn. rewrite E, F. cbn. left.
Qed.

Lemma probe_offsets_spec b r c ac k offs :
  existsb (fun '(dr, dc) => probe b (r + dr) (c + dc) ac k) offs = true ↔
  ∃ dr dc p, (dr, dc) ∈ offs ∧ inside (r + dr) (c + dc) = true
    ∧ cell (board b) (r + dr) (c + dc) = Some p
    ∧ color p = ac ∧ kind p = k.
Proof.
  rewrite existsb_exists. split.
  - intros ([dr dc] & Hin & H). unfold probe in H.
    apply andb_true_iff in H as [Hi Hp].
    destruct (cell (board b) (r + dr) (c + dc)) as [p|] eqn:E; [|done].
    cbn in Hp. apply andb_true_iff in Hp as [Hc Hk].
    apply bool_decide_eq_true in Hc, Hk.
    exists dr, dc, p. split_and!; try done. by apply list_elem_of_In.
  - intros (dr & dc & p & Hin & Hi & Hp & Hc & Hk). exists (dr, dc).
    split; [by apply list_elem_of_In|]. unfold probe. rewrite Hi, Hp. cbn.
    by rewrite !bool_decide_eq_true_2.
Qed.

(** The offset and direction tables hold the opposite of each entry. *)
Lemma neg_closed (offs : list (Z * Z)) dr dc :
  forallb (fun d => bool_decide ((- d.1, - d.2) ∈ offs)) offs = true →
  (dr, dc) ∈ offs → (- dr, - dc) ∈ offs.
Proof.
  rewrite forallb_forall. intros H Hin.
  eapply bool_decide_eq_true_1. apply (H (dr, dc)). by apply list_elem_of_In.
Qed.

(** A piece that steps by offsets attacks exactly where it can move. *)
Lemma offsets_agree b r c ac k offs :
  forallb (fun d => bool_decide ((- d.1, - d.2) ∈ offs)) offs = true →
  inside r c = true → free_for ac (cell (board b) r c) = true →
  existsb (fun '(dr, dc) => probe b (r + dr) (c + dc) ac k) offs = true ↔
  ∃ r0 c0 p, inside r0 c0 = true ∧ cell (board b) r0 c0 = Some p
    ∧ color p = ac ∧ kind p = k
    ∧ ((r0, c0), (r, c)) ∈ offset_moves b r0 c0 ac offs.
Proof.
  intros Hneg Hin Hfree. rewrite probe_offsets_spec. split.
  - intros (dr & dc & p & Hd & Hi & Hp & Hc & Hk).
    exists (r + dr), (c + dc), p. split_and!; try done.
    apply offset_moves_spec. exists (- dr), (- dc).
    split; [by apply neg_closed|]. split; [lia|]. split; [lia|]. done.
  - intros (r0 & c0 & p & Hi & Hp & Hc & Hk & Hm).
    apply offset_moves_spec in Hm as (dr & dc & Hd & -> & -> & _ & _).
    exists (- dr), (- dc), p. split; [by apply neg_closed|].
    replace (r0 + dr + - dr) with r0 by lia.
    replace (c0 + dc + - dc) with c0 by lia. done.
Qed.

(** A sliding piece attacks exactly where its walk can end. *)
Lemma rays_agree b r c ac k1 k2 dirs :
  forallb (fun d => bool_decide ((- d.1, - d.2) ∈ dirs)) dirs = true →
  inside r c = true → free_for ac (cell (board b) r c) = true →
  existsb (fun '(dr, dc) =>
             attack_ray 8 b ac k1 k2 (r + dr) (c + dc) dr dc) dirs = true ↔
  ∃ r0 c0 p dr dc, (dr, dc) ∈ dirs
    ∧ inside r0 c0 = true ∧ cell (board b) r0 c0 = Some p
    ∧ color p = ac ∧ (kind p = k1 ∨ kind p = k2)
    ∧ ((r0, c0), (r, c)) ∈ slide 8 b ac r0 c0 (r0 + dr) (c0 + dc) dr dc.
Proof.
  intros Hneg Hin Hfree. rewrite existsb_exists. split.
  - intros ([dr dc] & Hd & H). apply list_elem_of_In in Hd.
    apply attack_ray_spec in H as (k & p & Hk & Hrun & Hi & Hp & Hc & Hkind).
    exists (r + dr + k * dr), (c + dc + k * dc), p, (- dr), (- dc).
    split; [by apply neg_closed|]. split_and!; try done.
    apply slide_spec. exists k. split; [done|]. split; [lia|]. split; [lia|].
    split; [|done]. intros j Hj. specialize (Hrun (k - 1 - j) ltac:(lia)).
    by replace (r + dr + k * dr + - dr + j * - dr)
         with (r + dr + (k - 1 - j) * dr) by lia;
       replace (c + dc + k * dc + - dc + j * - dc)
         with (c + dc + (k - 1 - j) * dc) by lia.
  - intros (r0 & c0 & p & dr & dc & Hd & Hi & Hp & Hc & Hkind & Hm).
    apply slide_spec in Hm as (k & Hk & Hr & Hcc & Hrun & _ & _).
    exists (- dr, - dc). split; [apply list_elem_of_In; by apply neg_closed|].
    apply attack_ray_spec. exists k, p. split; [done|].
    replace (r + - dr + k * - dr) with r0 by lia.
    replace (c + - dc + k * - dc) with c0 by lia. split_and!; try done.
    intros j Hj. specialize (Hrun (k - 1 - j) ltac:(lia)).
    by replace (r + - dr + j * - dr) with (r0 + dr + (k - 1 - j) * dr) by lia;
       replace (c + - dc + j * - dc) with (c0 + dc + (k - 1 - j) * dc) by lia.
Qed.

Lemma slider_moves_spec b r0 c0 p m :
  m ∈ slider_moves b r0 c0 p ↔
  ∃ dr dc, (dr, dc) ∈ directions_of (kind p)
    ∧ m ∈ slide 8 b (color p) r0 c0 (r0 + dr) (c0 + dc) dr dc.
Proof.
  unfold slider_moves. rewrite list_elem_of_bind. split.
  - intros ([dr dc] & H & Hin). by exists dr, dc.
  - intros (dr & dc & Hin & H). by exists (dr, dc).
Qed.

(** X4.  For every piece but the pawn, [is_square_attacked_by] and
    [generate_pseudo_legal_moves_from] agree.  A square of the board that
    holds no piece of the attacking colour is reported attacked exactly
    when the pawn clause fires or some knight, bishop, rook, queen or king
    of that colour has a pseudo-legal move onto it. *)
Theorem attack_matches_moves b r c ac :
  wf_grid (board b) → inside r c = true →
  free_for ac (cell (board b) r c) = true →
  is_square_attacked_by b r c ac = true ↔
  pawn_clause b r c ac = true
  ∨ ∃ r0 c0 p moves,
      inside r0 c0 = true ∧ cell (board b) r0 c0 = Some p
      ∧ color p = ac ∧ kind p ≠ Pawn
      ∧ generate_pseudo_legal_moves_from b r0 c0 = Ok moves
      ∧ ((r0, c0), (r, c)) ∈ moves.
Proof.
  intros Hwf Hin Hfree.
  pose proof (offsets_agree b r c ac Knight knight_moves eq_refl Hin Hfree) as HN.
  pose proof (offsets_agree b r c ac King king_offsets eq_refl Hin Hfree) as HK.
  pose proof (rays_agree b r c ac Bishop Queen diagonals eq_refl Hin Hfree) as HD.
  pose proof (rays_agree b r c ac Rook Queen straights eq_refl Hin Hfree) as HS.
  unfold is_square_attacked_by.
  change (knight_clause b r c ac) with
    (existsb (fun '(dr, dc) => probe b (r + dr) (c + dc) ac Knight) knight_moves).
  change (king_clause b r c ac) with
    (existsb (fun '(dr, dc) => probe b (r + dr) (c + dc) ac King) king_offsets).
  change (diagonal_clause b r c ac) with
    (existsb (fun '(dr, dc) =>
       attack_ray 8 b ac Bishop Queen (r + dr) (c + dc) dr dc) diagonals).
  change (straight_clause b r c ac) with
    (existsb (fun '(dr, dc) =>
       attack_ray 8 b ac Rook Queen (r + dr) (c + dc) dr dc) straights).
  rewrite !orb_true_iff, HN, HK, HD, HS. clear HN HK HD HS. split.
  - intros [[[[H|H]|H]|H]|H]; [|by left|..]; right.
    + destruct H as (r0 & c0 & p & Hi & Hp & Hc & Hk & Hm).
      exists r0, c0, p, (piece_moves b r0 c0 p).
      rewrite (generate_pseudo_legal_moves_from_inside _ _ _ Hwf Hi), Hp.
      split_and!; try done; [congruence|].
      unfold piece_moves. by rewrite Hk, Hc.
    + destruct H as (r0 & c0 & p & Hi & Hp & Hc & Hk & Hm).
      exists r0, c0, p, (piece_moves b r0 c0 p).
      rewrite (generate_pseudo_legal_moves_from_inside _ _ _ Hwf Hi), Hp.
      split_and!; try done; [congruence|].
      unfold piece_moves. by rewrite Hk, Hc.
    + destruct H as (r0 & c0 & p & dr & dc & Hd & Hi & Hp & Hc & Hk & Hm).
      exists r0, c0, p, (piece_moves b r0 c0 p).
      rewrite (generate_pseudo_legal_moves_from_inside _ _ _ Hwf Hi), Hp.
      split_and!; try done; [destruct Hk; congruence|].
      assert (Hs : ((r0, c0), (r, c)) ∈ slider_moves b r0 c0 p).
      { apply slider_moves_spec. exists dr, dc. rewrite Hc. split; [|done].
        unfold directions_of. apply elem_of_app. left.
        destruct Hk as [-> | ->]; done. }
      unfold piece_moves. by destruct Hk as [Hk|Hk]; rewrite Hk in *.
    + destruct H as (r0 & c0 & p & dr & dc & Hd & Hi & Hp & Hc & Hk & Hm).
      exists r0, c0, p, (piece_moves b r0 c0 p).
      rewrite (generate_pseudo_legal_moves_from_inside _ _ _ Hwf Hi), Hp.
      split_and!; try done; [destruct Hk; congruence|].
      assert (Hs : ((r0, c0), (r, c)) ∈ slider_moves b r0 c0 p).
      { apply slider_moves_spec. exists dr, dc. rewrite Hc. split; [|done].
        unfold directions_of. apply elem_of_app. right.
        destruct Hk as [-> | ->]; done. }
      unfold piece_moves. by destruct Hk as [Hk|Hk]; rewrite Hk in *.
  - intros [H | (r0 & c0 & p & moves & Hi & Hp & Hc & Hk & Hgen & Hm)];
      [by left; left; left; right|].
    rewrite (generate_pseudo_legal_moves_from_inside _ _ _ Hwf Hi), Hp in Hgen.
    injection Hgen as <-. unfold piece_moves in Hm.
    destruct (kind p) eqn:Ekind; try done.
    + left; left; right. exists r0, c0, p. split_and!; try done.
      by rewrite <- Hc.
    + apply slider_moves_spec in Hm as (dr & dc & Hd & Hm).
      rewrite Ekind in Hd. unfold directions_of in Hd. cbn in Hd.
      rewrite Hc in Hm.
      apply elem_of_app in Hd as [Hd|Hd].
      * left; right. exists r0, c0, p, dr, dc. split_and!; try done. by right.
      * right. exists r0, c0, p, dr, dc. split_and!; try done. by right.
    + apply slider_moves_spec in Hm as (dr & dc & Hd & Hm).
      rewrite Ekind in Hd. unfold directions_of in Hd. cbn in Hd.
      rewrite Hc in Hm.
      right. exists r0, c0, p, dr, dc. split_and!; try done. by left.
    + apply slider_moves_spec in Hm as (dr & dc & Hd & Hm).
      rewrite Ekind in Hd. unfold directions_of in Hd. cbn in Hd.
      rewrite app_nil_r in Hd. rewrite Hc in Hm.
      left; right. exists r0, c0, p, dr, dc. split_and!; try done. by left.
    + left; left; left; left. exists r0, c0, p. split_and!; try done.
      by rewrite <- Hc.
Qed.

Lemma attack_matches_moves_witness :
  wf_grid (board new_board) ∧ inside 5 2 = true
  ∧ free_for WHITE (cell (board new_board) 5 2) = true
  ∧ (is_square_attacked_by new_board 5 2 WHITE = true ↔
     pawn_clause new_board 5 2 WHITE = true
     ∨ ∃ r0 c0 p moves,
         inside r0 c0 = true ∧ cell (board new_board) r0 c0 = Some p
         ∧ color p = WHITE ∧ kind p ≠ Pawn
         ∧ generate_pseudo_legal_moves_from new_board r0 c0 = Ok moves
         ∧ ((r0, c0), (5, 2)) ∈ moves).
Proof.
  split; [exact wf_grid_new_board|]. split; [reflexivity|]. split; [reflexivity|].
  apply (attack_matches_moves new_board 5 2 WHITE wf_grid_new_board);
    reflexivity.
Defined.

(** ** Where moves start and end *)

Lemma no_null_offset (offs : list (Z * Z)) dr dc :
  forallb (fun d => negb (bool_decide (d = (0, 0)))) offs = true →
  (dr, dc) ∈ offs → ¬ (dr = 0 ∧ dc = 0).
Proof.
  rewrite forallb_forall. intros H Hin [-> ->].
  apply list_elem_of_In, H in Hin. by rewrite bool_decide_eq_true_2 in Hin.
Qed.

Lemma direction_cases dr dc :
  (dr, dc) ∈ diagonals ++ straights →
  (dr = 1 ∨ dr = -1 ∨ dr = 0) ∧ (dc = 1 ∨ dc = -1 ∨ dc = 0)
  ∧ ¬ (dr = 0 ∧ dc = 0).
Proof.
  intros H. repeat (apply elem_of_cons in H as [[= -> ->] | H]; [lia|]).
  by apply elem_of_nil in H.
Qed.

Lemma directions_of_sub k dr dc :
  (dr, dc) ∈ directions_of k → (dr, dc) ∈ diagonals ++ straights.
Proof.
  unfold directions_of. rewrite !elem_of_app.
  intros [H|H]; [left|right].
  - by destruct (_ || _); [|apply elem_of_nil in H].
  - by destruct (_ || _); [|apply elem_of_nil in H].
Qed.

Lemma is_none_free col o : is_none o = true → free_for col o = true.
Proof. by destruct o. Qed.

Lemma enemy_free col o : enemy_of col o = true → free_for col o = true.
Proof. by destruct o. Qed.

(** A generated move ends on a square that is empty or holds a piece of
    the other colour, and that is not the square it starts on. *)
Lemma piece_moves_target b r c p r2 c2 :
  inside r c = true → ((r, c), (r2, c2)) ∈ piece_moves b r c p →
  free_for (color p) (cell (board b) r2 c2) = true ∧ (r2, c2) ≠ (r, c).
Proof.
  intros Hin. unfold piece_moves. destruct (kind p) eqn:Ek.
  - intros (dr & dc & Hd & -> & -> & _ & Hfree)%offset_moves_spec.
    split; [done|]. intros [= ? ?].
    apply (no_null_offset king_offsets dr dc eq_refl Hd). lia.
  - intros (dr & dc & Hd & Hm)%slider_moves_spec.
    apply slide_spec in Hm as (k & Hk & -> & -> & _ & _ & Hfree).
    split; [done|]. intros [= ? ?].
    destruct (direction_cases dr dc (directions_of_sub _ _ _ Hd))
      as ([|[|]] & [|[|]] & Hnz); subst; lia.
  - intros (dr & dc & Hd & Hm)%slider_moves_spec.
    apply slide_spec in Hm as (k & Hk & -> & -> & _ & _ & Hfree).
    split; [done|]. intros [= ? ?].
    destruct (direction_cases dr dc (directions_of_sub _ _ _ Hd))
      as ([|[|]] & [|[|]] & Hnz); subst; lia.
  - intros (dr & dc & Hd & Hm)%slider_moves_spec.
    apply slide_spec in Hm as (k & Hk & -> & -> & _ & _ & Hfree).
    split; [done|]. intros [= ? ?].
    destruct (direction_cases dr dc (directions_of_sub _ _ _ Hd))
      as ([|[|]] & [|[|]] & Hnz); subst; lia.
  - intros (dr & dc & Hd & -> & -> & _ & Hfree)%offset_moves_spec.
    split; [done|]. intros [= ? ?].
    apply (no_null_offset knight_moves dr dc eq_refl Hd). lia.
  - unfold pawn_moves. rewrite elem_of_app, list_elem_of_bind.
    intros [H | (dc & H & _)].
    + destruct (inside _ c && _) eqn:E; [|by apply elem_of_nil in H].
      apply andb_true_iff in E as [_ E1].
      apply elem_of_cons in H as [[= -> ->] | H].
      * split; [by apply is_none_free|].
        intros [= ?]. destruct (bool_decide (color p = WHITE)); lia.
      * destruct ((r =? _) && _) eqn:E3; [|by apply elem_of_nil in H].
        apply list_elem_of_singleton in H. injection H as -> ->.
        apply andb_true_iff in E3 as [_ E3].
        split; [by apply is_none_free|].
        intros [= ?]. destruct (bool_decide (color p = WHITE)); lia.
    + destruct (inside _ _ && _) eqn:E; [|by apply elem_of_nil in H].
      apply andb_true_iff in E as [_ E1].
      apply list_elem_of_singleton in H. injection H as -> ->.
      split; [by apply enemy_free|].
      intros [= ? ?]. destruct (bool_decide (color p = WHITE)); lia.
Qed.

(** X5.  Every move of [generate_legal_moves] starts on a square of the
    board that holds a piece of the mover, ends on a square of the board
    that is empty or holds a piece of the other colour, and does not stay
    in place. *)
Theorem legal_moves_targets b col moves r1 c1 r2 c2 :
  generate_legal_moves b col = Ok moves → ((r1, c1), (r2, c2)) ∈ moves →
  inside r1 c1 = true ∧ inside r2 c2 = true
  ∧ (∃ p, cell (board b) r1 c1 = Some p ∧ color p = col)
  ∧ free_for col (cell (board b) r2 c2) = true
  ∧ (r2, c2) ≠ (r1, c1).
Proof.
  intros Hgen Hm.
  destruct (legal_scan_origin _ _ _ _ _ Hgen Hm)
    as (r & c & p & Hsq & Hat & Hcol & Hpm & _).
  pose proof (all_squares_inside _ Hsq) as Hin. cbn in Hin.
  destruct (piece_moves_sound _ _ _ _ _ Hin Hpm) as [[= -> ->] H2]. cbn in H2.
  destruct (piece_moves_target _ _ _ _ _ _ Hin Hpm) as [Hfree Hne].
  split_and!; try done.
  - exists p. split; [|done]. unfold cell. by rewrite Hat.
  - by rewrite <- Hcol.
Qed.

Lemma legal_moves_targets_witness :
  generate_legal_moves pawn_attack_board WHITE
    = Ok [((6,0),(5,0)); ((6,0),(4,0)); ((6,0),(5,1))]
  ∧ ((6,0),(5,1)) ∈ [((6,0),(5,0)); ((6,0),(4,0)); ((6,0),(5,1))]
  ∧ inside 6 0 = true ∧ inside 5 1 = true
  ∧ (∃ p, cell (board pawn_attack_board) 6 0 = Some p ∧ color p = WHITE)
  ∧ free_for WHITE (cell (board pawn_attack_board) 5 1) = true
  ∧ (5, 1) ≠ (6, 0).
Proof.
  assert (Hgen : generate_legal_moves pawn_attack_board WHITE
            = Ok [((6,0),(5,0)); ((6,0),(4,0)); ((6,0),(5,1))])
    by (vm_compute; reflexivity).
  assert (Hm : ((6,0),(5,1)) ∈ [((6,0),(5,0)); ((6,0),(4,0)); ((6,0),(5,1))])
    by (right; right; left).
  split; [exact Hgen|]. split; [exact Hm|].
  exact (legal_moves_targets pawn_attack_board WHITE _ 6 0 5 1 Hgen Hm).
Defined.

(** ** A colour with no piece on the board *)

Lemma no_piece_of_spec b col :
  no_piece_of b col = true ↔
  ∀ r c p, inside r c = true → cell (board b) r c = Some p → color p ≠ col.
Proof.
  unfold no_piece_of. rewrite forallb_forall. split.
  - intros H r c p Hin Hp Hcol.
    specialize (H (r, c) ltac:(by apply list_elem_of_In, inside_all_squares)).
    cbn in H. rewrite Hp in H. by rewrite bool_decide_eq_true_2 in H.
  - intros H [r c] Hin%list_elem_of_In.
    pose proof (all_squares_inside _ Hin) as Hi. cbn in Hi.
    destruct (cell (board b) r c) as [p|] eqn:Hp; [|done].
    apply negb_true_iff, bool_decide_eq_false. by eapply H.
Qed.

Lemma probe_true b rr cc col k :
  probe b rr cc col k = true →
  inside rr cc = true
  ∧ ∃ p, cell (board b) rr cc = Some p ∧ color p = col ∧ kind p = k.
Proof.
  unfold probe. intros [Hi Hp]%andb_true_iff. split; [done|].
  destruct (cell (board b) rr cc) as [p|]; [|done]. cbn in Hp.
  apply andb_true_iff in Hp as [Hc Hk]. apply bool_decide_eq_true in Hc, Hk.
  by exists p.
Qed.

(** An attack comes from a piece of the attacking colour on the board. *)
Lemma attacker_exists b r c ac :
  is_square_attacked_by b r c ac = true →
  ∃ r0 c0 p, inside r0 c0 = true ∧ cell (board b) r0 c0 = Some p
    ∧ color p = ac.
Proof.
  unfold is_square_attacked_by. rewrite !orb_true_iff.
  intros [[[[H|H]|H]|H]|H].
  - apply probe_offsets_spec in H as (dr & dc & p & _ & Hi & Hp & Hc & _).
    by exists (r + dr), (c + dc), p.
  - unfold pawn_clause in H. apply existsb_exists in H as (dc & _ & H).
    apply probe_true in H as (Hi & p & Hp & Hc & _). by eexists _, _, p.
  - apply probe_offsets_spec in H as (dr & dc & p & _ & Hi & Hp & Hc & _).
    by exists (r + dr), (c + dc), p.
  - apply existsb_exists in H as ([dr dc] & _ & H).
    apply attack_ray_spec in H as (k & p & _ & _ & Hi & Hp & Hc & _).
    by eexists _, _, p.
  - apply existsb_exists in H as ([dr dc] & _ & H).
    apply attack_ray_spec in H as (k & p & _ & _ & Hi & Hp & Hc & _).
    by eexists _, _, p.
Qed.

Lemma legal_scan_no_piece b col sqs :
  (∀ r c p, inside r c = true → cell (board b) r c = Some p → color p ≠ col) →
  (∀ sq, sq ∈ sqs → inside sq.1 sq.2 = true) →
  legal_scan b col sqs = Ok [].
Proof.
  intros Hno. induction sqs as [|[r c] sqs IH]; intros Hin; cbn; [done|].
  rewrite IH by (intros sq Hsq; apply Hin; by right).
  destruct (cell (board b) r c) as [p|] eqn:Hp; [|done].
  rewrite bool_decide_eq_false_2; [done|].
  eapply Hno; [|done]. apply (Hin (r, c)). left.
Qed.

(** X6.  A colour with no piece on the board attacks no square, so the
    other side is never in check; it has no legal move; and for Black
    [choose_ai_move] returns [None]. *)
Theorem colour_without_pieces b col :
  no_piece_of b col = true →
  (∀ r c, is_square_attacked_by b r c col = false)
  ∧ is_in_check b (opponent col) = false
  ∧ generate_legal_moves b col = Ok []
  ∧ (col = BLACK → ∀ rnd, choose_ai_move rnd b = Ok None).
Proof.
  intros Hno0. pose proof (proj1 (no_piece_of_spec b col) Hno0) as Hno.
  assert (Hatt : ∀ r c, is_square_attacked_by b r c col = false).
  { intros r c. destruct (is_square_attacked_by b r c col) eqn:E; [|done].
    apply attacker_exists in E as (r0 & c0 & p & Hi & Hp & Hc).
    by destruct (Hno r0 c0 p Hi Hp). }
  assert (Hgen : generate_legal_moves b col = Ok []).
  { apply legal_scan_no_piece; [done|]. apply all_squares_inside. }
  split_and!; try done.
  - unfold is_in_check. destruct (king_position b (opponent col)) as [kr kc].
    destruct (kr =? -1); [done|].
    replace (opponent (opponent col)) with col by (by destruct col).
    apply Hatt.
  - intros -> rnd. unfold choose_ai_move. by rewrite Hgen.
Qed.

Lemma colour_without_pieces_witness :
  no_piece_of empty_board BLACK = true
  ∧ (∀ r c, is_square_attacked_by empty_board r c BLACK = false)
  ∧ is_in_check empty_board (opponent BLACK) = false
  ∧ generate_legal_moves empty_board BLACK = Ok []
  ∧ (BLACK = BLACK → ∀ rnd, choose_ai_move rnd empty_board = Ok None).
Proof.
  split; [reflexivity|].
  apply (colour_without_pieces empty_board BLACK). reflexivity.
Defined.

(** ** What [choose_ai_move] prefers *)

Lemma random_choice_any {A} (l : list A) x :
  x ∈ l → ∃ rnd, random_choice rnd l = Ok x.
Proof.
  intros (i & Hi)%list_elem_of_lookup_1. exists i. unfold random_choice.
  rewrite Nat.mod_small by (by eapply lookup_lt_Some). by rewrite Hi.
Qed.

Lemma random_choice_In {A} rnd (l : list A) x :
  random_choice rnd l = Ok x → x ∈ l.
Proof.
  unfold random_choice. destruct (l !! _) as [y|] eqn:E; [|done].
  intros [= <-]. by eapply list_elem_of_lookup_2.
Qed.

(** The capture loop: the value it ends with is the largest met, and the
    list it ends with holds exactly the moves of that value. *)
Lemma capture_scan_exact b moves v0 caps0 v caps :
  wf_grid (board b) →
  (∀ m, m ∈ moves → inside m.2.1 m.2.2 = true) →
  capture_scan b moves v0 caps0 = Ok (v, caps) →
  v0 ≤ v
  ∧ (∀ m x, m ∈ moves → capture_value b m = Some x → x ≤ v)
  ∧ (∀ m, m ∈ caps ↔
          (m ∈ caps0 ∧ v = v0) ∨ (m ∈ moves ∧ capture_value b m = Some v)).
Proof.
  intros Hwf. revert v0 caps0.
  induction moves as [|[[r1 c1] [r2 c2]] moves IH]; intros v0 caps0 Hin.
  { cbn. intros [= <- <-]. split; [lia|]. split.
    - by intros m x ?%elem_of_nil.
    - intros m. split; [by left|]. intros [[? _]|[?%elem_of_nil _]]; done. }
  assert (H2 : inside r2 c2 = true) by (apply (Hin ((r1, c1), (r2, c2))); left).
  assert (Hrest : ∀ m, m ∈ moves → inside m.2.1 m.2.2 = true)
    by (intros m Hm; apply Hin; by right).
  cbn [capture_scan]. rewrite (board_at_inside _ _ _ Hwf H2).
  cbn [mbind res_bind]. unfold Move, Square in *.
  assert (Hval : capture_value b ((r1, c1), (r2, c2)) =
            match cell (board b) r2 c2 with
            | Some t => if bool_decide (color t = WHITE)
                        then Some (MATERIAL_VALUES (kind t)) else None
            | None => None
            end) by done.
  destruct (cell (board b) r2 c2) as [t|].
  2:{ intros Hrun. destruct (IH _ _ Hrest Hrun) as (Hle & Hmax & Hcaps).
      split; [done|]. split.
      - intros m x [->|Hm]%elem_of_cons Hx; [congruence|by eapply Hmax].
      - intros m. rewrite Hcaps, elem_of_cons. split.
        + intros [?|[? ?]]; [by left|right; split; [by right|done]].
        + intros [?|[[->|?] ?]]; [by left|congruence|by right]. }
  destruct (bool_decide (color t = WHITE)).
  2:{ intros Hrun. destruct (IH _ _ Hrest Hrun) as (Hle & Hmax & Hcaps).
      split; [done|]. split.
      - intros m x [->|Hm]%elem_of_cons Hx; [congruence|by eapply Hmax].
      - intros m. rewrite Hcaps, elem_of_cons. split.
        + intros [?|[? ?]]; [by left|right; split; [by right|done]].
        + intros [?|[[->|?] ?]]; [by left|congruence|by right]. }
  cbn zeta. set (x0 := MATERIAL_VALUES (kind t)) in *.
  destruct (Z.ltb_spec v0 x0) as [Hlt|Hge].
  { intros Hrun. destruct (IH _ _ Hrest Hrun) as (Hle & Hmax & Hcaps).
    split; [lia|]. split.
    - intros m x [->|Hm]%elem_of_cons Hx; [|by eapply Hmax].
      rewrite Hval in Hx. injection Hx as <-. done.
    - intros m. rewrite Hcaps, list_elem_of_singleton, elem_of_cons. split.
      + intros [[-> ->]|[? ?]]; right; [split; [by left|done]|split; [by right|done]].
      + intros [[_ ?]|[[->|?] Hx]]; [lia| |by right].
        left. split; [done|]. rewrite Hval in Hx. by injection Hx as <-. }
  destruct (Z.eqb_spec x0 v0) as [Heq|Hne].
  { intros Hrun. destruct (IH _ _ Hrest Hrun) as (Hle & Hmax & Hcaps).
    split; [done|]. split.
    - intros m x [->|Hm]%elem_of_cons Hx; [|by eapply Hmax].
      rewrite Hval in Hx. injection Hx as <-. lia.
    - intros m. rewrite Hcaps, elem_of_app, list_elem_of_singleton, elem_of_cons.
      split.
      + intros [[[?| ->] ->]|[? ?]].
        * by left.
        * right. split; [by left|]. rewrite Hval. f_equal. lia.
        * right. split; [by right|done].
      + intros [[? ->]|[[->|?] Hx]].
        * left. split; [by left|done].
        * left. split; [by right|]. rewrite Hval in Hx. injection Hx as <-. lia.
        * by right. }
  intros Hrun. destruct (IH _ _ Hrest Hrun) as (Hle & Hmax & Hcaps).
  split; [done|]. split.
  - intros m x [->|Hm]%elem_of_cons Hx; [|by eapply Hmax].
    rewrite Hval in Hx. injection Hx as <-. lia.
  - intros m. rewrite Hcaps, elem_of_cons. split.
    + intros [?|[? ?]]; [by left|right; split; [by right|done]].
    + intros [?|[[->|?] Hx]]; [by left| |by right].
      rewrite Hval in Hx. injection Hx as <-. lia.
Qed.

Lemma capture_scan_attained b moves v0 caps0 v caps :
  wf_grid (board b) →
  (∀ m, m ∈ moves → inside m.2.1 m.2.2 = true) →
  capture_scan b moves v0 caps0 = Ok (v, caps) →
  v = v0 ∨ ∃ m, m ∈ moves ∧ capture_value b m = Some v.
Proof.
  intros Hwf. revert v0 caps0.
  induction moves as [|[[r1 c1] [r2 c2]] moves IH]; intros v0 caps0 Hin.
  { cbn. intros [= <- <-]. by left. }
  assert (H2 : inside r2 c2 = true) by (apply (Hin ((r1, c1), (r2, c2))); left).
  assert (Hrest : ∀ m, m ∈ moves → inside m.2.1 m.2.2 = true)
    by (intros m Hm; apply Hin; by right).
  cbn [capture_scan]. rewrite (board_at_inside _ _ _ Hwf H2).
  cbn [mbind res_bind]. unfold Move, Square in *.
  assert (Hval : capture_value b ((r1, c1), (r2, c2)) =
            match cell (board b) r2 c2 with
            | Some t => if bool_decide (color t = WHITE)
                        then Some (MATERIAL_VALUES (kind t)) else None
            | None => None
            end) by done.
  assert (Hsame : ∀ caps1, capture_scan b moves v0 caps1 = Ok (v, caps) →
            v = v0 ∨ ∃ m, m ∈ ((r1, c1), (r2, c2)) :: moves
                          ∧ capture_value b m = Some v).
  { intros caps1 Hrun. destruct (IH _ _ Hrest Hrun) as [->|(m & Hm & Hx)];
      [by left|]. right. exists m. split; [by right|done]. }
  destruct (cell (board b) r2 c2) as [t|]; [|apply Hsame].
  destruct (bool_decide (color t = WHITE)); [|apply Hsame].
  cbn zeta. destruct (v0 <? MATERIAL_VALUES (kind t)).
  - intros Hrun. right. destruct (IH _ _ Hrest Hrun) as [->|(m & Hm & Hx)].
    + exists ((r1, c1), (r2, c2)). split; [left|done].
    + exists m. split; [by right|done].
  - destruct (MATERIAL_VALUES (kind t) =? v0); apply Hsame.
Qed.

Lemma MATERIAL_VALUES_nonneg k : 0 ≤ MATERIAL_VALUES k.
Proof. destruct k; cbn; lia. Qed.

Lemma capture_value_nonneg b m x : capture_value b m = Some x → 0 ≤ x.
Proof.
  unfold capture_value. destruct (cell _ _ _) as [t|]; [|done].
  destruct (bool_decide _); [|done]. intros [= <-]. apply MATERIAL_VALUES_nonneg.
Qed.

(** What [choose_from] returns, in terms of the capture values. *)
Lemma choose_from_spec b rnd moves m :
  wf_grid (board b) →
  (∀ m, m ∈ moves → inside m.2.1 m.2.2 = true) →
  choose_from rnd b moves = Ok (Some m) →
  m ∈ moves
  ∧ ∀ m' x, m' ∈ moves → capture_value b m' = Some x →
      ∃ v, capture_value b m = Some v ∧ x ≤ v.
Proof.
  intros Hwf Hin. unfold choose_from. destruct moves as [|m0 moves']; [done|].
  set (moves := m0 :: moves') in *.
  destruct (capture_scan b moves (-1) []) as [[v caps]|e] eqn:Escan; [|done].
  cbn [mbind res_bind].
  destruct (capture_scan_exact _ _ _ _ _ _ Hwf Hin Escan) as (Hle & Hmax & Hcaps).
  destruct (capture_scan_attained _ _ _ _ _ _ Hwf Hin Escan) as [->|(ma & Hma & Hva)].
  - (* no capture at all *)
    assert (Hnone : ∀ m' x, m' ∈ moves → capture_value b m' = Some x → False).
    { intros m' x Hm' Hx. pose proof (Hmax _ _ Hm' Hx).
      pose proof (capture_value_nonneg _ _ _ Hx). lia. }
    destruct caps as [|c0 caps'].
    + destruct (random_choice rnd moves) as [m1|e] eqn:Er; [|done].
      cbn [mbind res_bind]. intros [= <-].
      split; [by eapply random_choice_In|].
      intros m' x Hm' Hx. by destruct (Hnone m' x).
    + exfalso. assert (Hc0 : c0 ∈ c0 :: caps') by left.
      apply Hcaps in Hc0 as [[?%elem_of_nil _]|[Hm' Hx]]; [done|].
      by eapply Hnone.
  - destruct caps as [|c0 caps'].
    + exfalso. assert (Hin' : ma ∈ []) by (apply Hcaps; by right).
      by apply elem_of_nil in Hin'.
    + destruct (random_choice rnd (c0 :: caps')) as [m1|e] eqn:Er; [|done].
      cbn [mbind res_bind]. intros [= <-].
      apply random_choice_In, Hcaps in Er as [[?%elem_of_nil _]|[Hm1 Hv1]];
        [done|].
      split; [done|]. intros m' x Hm' Hx. exists v. split; [done|].
      by eapply Hmax.
Qed.

(** X7.  The move [choose_ai_move] returns never passes over a better
    capture: if some legal move of Black takes a White piece of material
    value [x], the returned move takes a White piece of value at least
    [x]. *)
Theorem choose_ai_move_takes_best_capture b rnd moves m m' x :
  wf_grid (board b) →
  generate_legal_moves b BLACK = Ok moves →
  choose_ai_move rnd b = Ok (Some m) →
  m' ∈ moves → capture_value b m' = Some x →
  ∃ v, capture_value b m = Some v ∧ x ≤ v.
Proof.
  intros Hwf Hgen Hrun Hm' Hx. unfold choose_ai_move in Hrun.
  rewrite Hgen in Hrun. cbn [mbind res_bind] in Hrun.
  eapply (choose_from_spec b rnd moves m Hwf); try done.
  intros m1 Hm1. by destruct (legal_moves_on_board _ _ _ _ Hgen Hm1).
Qed.

Lemma choose_ai_move_takes_best_capture_witness :
  wf_grid (board pawn_attack_board)
  ∧ generate_legal_moves pawn_attack_board BLACK
    = Ok [((5,1),(4,0)); ((5,1),(4,1)); ((5,1),(4,2)); ((5,1),(5,0));
          ((5,1),(5,2)); ((5,1),(6,0)); ((5,1),(6,1)); ((5,1),(6,2))]
  ∧ choose_ai_move 3 pawn_attack_board = Ok (Some ((5,1),(6,0)))
  ∧ ((5,1),(6,0)) ∈ [((5,1),(4,0)); ((5,1),(4,1)); ((5,1),(4,2)); ((5,1),(5,0));
          ((5,1),(5,2)); ((5,1),(6,0)); ((5,1),(6,1)); ((5,1),(6,2))]
  ∧ capture_value pawn_attack_board ((5,1),(6,0)) = Some 1
  ∧ ∃ v, capture_value pawn_attack_board ((5,1),(6,0)) = Some v ∧ 1 ≤ v.
Proof.
  assert (Hwf : wf_grid (board pawn_attack_board))
    by (do 2 apply wf_grid_put; apply wf_grid_empty).
  assert (Hgen : generate_legal_moves pawn_attack_board BLACK
    = Ok [((5,1),(4,0)); ((5,1),(4,1)); ((5,1),(4,2)); ((5,1),(5,0));
          ((5,1),(5,2)); ((5,1),(6,0)); ((5,1),(6,1)); ((5,1),(6,2))])
    by (vm_compute; reflexivity).
  assert (Hrun : choose_ai_move 3 pawn_attack_board = Ok (Some ((5,1),(6,0))))
    by (vm_compute; reflexivity).
  assert (Hm : ((5,1),(6,0)) ∈ [((5,1),(4,0)); ((5,1),(4,1)); ((5,1),(4,2));
          ((5,1),(5,0)); ((5,1),(5,2)); ((5,1),(6,0)); ((5,1),(6,1));
          ((5,1),(6,2))])
    by (do 5 right; left).
  assert (Hx : capture_value pawn_attack_board ((5,1),(6,0)) = Some 1)
    by reflexivity.
  split; [exact Hwf|]. split; [exact Hgen|]. split; [exact Hrun|].
  split; [exact Hm|]. split; [exact Hx|].
  exact (choose_ai_move_takes_best_capture pawn_attack_board 3 _ _ _ 1
           Hwf Hgen Hrun Hm Hx).
Defined.

(** X8.  Every move [choose_ai_move] may prefer can be drawn: a legal move
    of Black whose capture value is the largest among the legal moves is
    returned for some draw, and when no legal move takes a White piece,
    every legal move is returned for some draw. *)
Theorem choose_ai_move_draws_every_best b moves m :
  wf_grid (board b) →
  generate_legal_moves b BLACK = Ok moves → m ∈ moves →
  (∃ v, capture_value b m = Some v
        ∧ ∀ m' x, m' ∈ moves → capture_value b m' = Some x → x ≤ v)
  ∨ (∀ m', m' ∈ moves → capture_value b m' = None) →
  ∃ rnd, choose_ai_move rnd b = Ok (Some m).
Proof.
  intros Hwf Hgen Hm Hbest.
  assert (Hin : ∀ m, m ∈ moves → inside m.2.1 m.2.2 = true).
  { intros m1 Hm1. by destruct (legal_moves_on_board _ _ _ _ Hgen Hm1). }
  destruct (capture_scan_sound b moves (-1) [] Hwf Hin)
    as (v & caps & Escan & _).
  destruct (capture_scan_exact _ _ _ _ _ _ Hwf Hin Escan) as (Hle & Hmax & Hcaps).
  assert (Hpick : ∀ rnd, choose_ai_move rnd b =
            match caps with
            | _ :: _ => m ← random_choice rnd caps; Ok (Some m)
            | [] => m ← random_choice rnd moves; Ok (Some m)
            end).
  { intros rnd. unfold choose_ai_move. rewrite Hgen. cbn [mbind res_bind].
    unfold choose_from. destruct moves as [|m0 moves']; [by apply elem_of_nil in Hm|].
    by rewrite Escan. }
  destruct Hbest as [(vm & Hvm & Htop) | Hnone].
  - assert (v = vm).
    { pose proof (Hmax _ _ Hm Hvm).
      destruct (capture_scan_attained _ _ _ _ _ _ Hwf Hin Escan)
        as [->|(ma & Hma & Hva)].
      - pose proof (capture_value_nonneg _ _ _ Hvm). lia.
      - pose proof (Htop _ _ Hma Hva). lia. }
    subst vm. assert (Hc : m ∈ caps) by (apply Hcaps; by right).
    destruct (random_choice_any caps m Hc) as [rnd Hr]. exists rnd.
    rewrite Hpick. destruct caps; [by apply elem_of_nil in Hc|].
    by rewrite Hr.
  - assert (caps = []).
    { destruct caps as [|c0 caps']; [done|]. exfalso.
      assert (Hc0 : c0 ∈ c0 :: caps') by left.
      apply Hcaps in Hc0 as [[?%elem_of_nil _]|[Hm' Hx]]; [done|].
      rewrite (Hnone _ Hm') in Hx. done. }
    subst caps. destruct (random_choice_any moves m Hm) as [rnd Hr].
    exists rnd. rewrite Hpick. by rewrite Hr.
Qed.

Lemma choose_ai_move_draws_every_best_witness :
  wf_grid (board new_board)
  ∧ generate_legal_moves new_board BLACK
    = Ok [((0,1),(2,2)); ((0,1),(2,0)); ((0,6),(2,7)); ((0,6),(2,5));
          ((1,0),(2,0)); ((1,0),(3,0)); ((1,1),(2,1)); ((1,1),(3,1));
          ((1,2),(2,2)); ((1,2),(3,2)); ((1,3),(2,3)); ((1,3),(3,3));
          ((1,4),(2,4)); ((1,4),(3,4)); ((1,5),(2,5)); ((1,5),(3,5));
          ((1,6),(2,6)); ((1,6),(3,6)); ((1,7),(2,7)); ((1,7),(3,7))]
  ∧ ∃ rnd, choose_ai_move rnd new_board = Ok (Some ((1,4),(3,4))).
Proof.
  assert (Hgen : generate_legal_moves new_board BLACK
    = Ok [((0,1),(2,2)); ((0,1),(2,0)); ((0,6),(2,7)); ((0,6),(2,5));
          ((1,0),(2,0)); ((1,0),(3,0)); ((1,1),(2,1)); ((1,1),(3,1));
          ((1,2),(2,2)); ((1,2),(3,2)); ((1,3),(2,3)); ((1,3),(3,3));
          ((1,4),(2,4)); ((1,4),(3,4)); ((1,5),(2,5)); ((1,5),(3,5));
          ((1,6),(2,6)); ((1,6),(3,6)); ((1,7),(2,7)); ((1,7),(3,7))])
    by (vm_compute; reflexivity).
  split; [exact wf_grid_new_board|]. split; [exact Hgen|].
  apply (choose_ai_move_draws_every_best new_board _ ((1,4),(3,4))
           wf_grid_new_board Hgen).
  - do 13 right. left.
  - right. intros m' Hm'.
    repeat (apply elem_of_cons in Hm' as [-> | Hm']; [reflexivity|]).
    apply elem_of_nil in Hm'. destruct Hm'.
Defined.

(** * Further properties of the object store *)

(** ** [make_move] completes or changes nothing *)

Lemma load_cell_Ok self r c s s' v :
  Store.load_cell self r c s = (s', Store.Done (Ok v)) →
  ∃ o rl row j,
    Store.boards s !! self = Some o
    ∧ getitem (Store.o_board o) r = Ok rl
    ∧ Store.rows s !! rl = Some row
    ∧ py_index (Z.of_nat (length row)) c = Ok j
    ∧ row !! j = Some v.
Proof.
  unfold Store.load_cell, Store.bind, Store.read_board, Store.read_row, Store.lift.
  destruct (Store.boards s !! self) as [o|]; [|done].
  destruct (getitem (Store.o_board o) r) as [rl|e] eqn:Erl; [|done].
  destruct (Store.rows s !! rl) as [row|] eqn:Erow; [|done].
  intros [= _ Hget]. apply getitem_Ok in Hget as (j & Hj & Hv).
  by exists o, rl, row, j.
Qed.

Lemma store_cell_run self r c v s o rl row j :
  Store.boards s !! self = Some o →
  getitem (Store.o_board o) r = Ok rl →
  Store.rows s !! rl = Some row →
  py_index (Z.of_nat (length row)) c = Ok j →
  Store.store_cell self r c v s
  = (Store.mkStore (Store.pieces s) (<[rl := <[j := v]> row]> (Store.rows s))
                   (Store.boards s), Store.Done (Ok tt)).
Proof.
  intros Ho Hrl Hrow Hj.
  unfold Store.store_cell, Store.bind, Store.read_board, Store.read_row,
    Store.lift, Store.write_row.
  rewrite Ho, Hrl, Hrow. unfold setitem. by rewrite Hj.
Qed.

(** Writing [None] over [None] leaves the store as it is. *)
Lemma store_cell_None_id self r c s :
  Store.load_cell self r c s = (s, Store.Done (Ok None)) →
  Store.store_cell self r c None s = (s, Store.Done (Ok tt)).
Proof.
  intros (o & rl & row & j & Ho & Hrl & Hrow & Hj & Hv)%load_cell_Ok.
  rewrite (store_cell_run _ _ _ _ _ _ _ _ _ Ho Hrl Hrow Hj).
  rewrite (list_insert_id _ _ _ Hv), (insert_id _ _ _ Hrow). by destruct s.
Qed.

(** A write to a cell that could be read does not raise, also after
    other cells of the board have been written. *)
Lemma store_cell_no_raise self r c v v' s s1 s' e :
  Store.load_cell self r c s = (s, Store.Done (Ok v)) →
  Store.boards s1 = Store.boards s →
  (∀ l row, Store.rows s !! l = Some row →
     ∀ row1, Store.rows s1 !! l = Some row1 → length row1 = length row) →
  Store.store_cell self r c v' s1 ≠ (s', Store.Done (Raise e)).
Proof.
  intros (o & rl & row & j & Ho & Hrl & Hrow & Hj & Hv)%load_cell_Ok Hb Hlen.
  unfold Store.store_cell, Store.bind, Store.read_board, Store.read_row,
    Store.lift, Store.write_row.
  rewrite Hb, Ho, Hrl.
  destruct (Store.rows s1 !! rl) as [row1|] eqn:Erow1; [|done].
  unfold setitem. rewrite (Hlen _ _ Hrow _ Erow1), Hj. done.
Qed.

(** [_make_move_no_checks] after both squares could be read: on an empty
    source it raises with the store unchanged; otherwise it does not
    raise. *)
Lemma make_move_no_checks_after_reads self r1 c1 r2 c2 moving captured s s1 out :
  Store.load_cell self r1 c1 s = (s, Store.Done (Ok moving)) →
  Store.load_cell self r2 c2 s = (s, Store.Done (Ok captured)) →
  Store._make_move_no_checks self ((r1, c1), (r2, c2)) s = (s1, out) →
  match moving with
  | None => s1 = s ∧ out = Store.Done (Raise AttributeError)
  | Some _ => ∀ e, out ≠ Store.Done (Raise e)
  end.
Proof.
  intros E1 E2. unfold Store._make_move_no_checks.
  unfold Store.bind at 1. rewrite E1. unfold Store.bind at 1.
  destruct moving as [ml|].
  2:{ rewrite (store_cell_None_id _ _ _ _ E1). cbn. by intros [= <- <-]. }
  pose proof E1 as (o & rl & row & j & Ho & Hrl & Hrow & Hj & Hv)%load_cell_Ok.
  rewrite (store_cell_run _ _ _ None _ _ _ _ _ Ho Hrl Hrow Hj).
  set (sa := Store.mkStore (Store.pieces s)
               (<[rl := <[j := None]> row]> (Store.rows s)) (Store.boards s)).
  assert (Hlen1 : ∀ l row0, Store.rows s !! l = Some row0 →
            ∀ row1, Store.rows sa !! l = Some row1 → length row1 = length row0).
  { intros l row0 H0 row1. cbn. destruct (decide (l = rl)) as [->|Hne].
    - rewrite lookup_insert_eq. intros [= <-]. rewrite length_insert. congruence.
    - rewrite lookup_insert_ne by done. congruence. }
  unfold Store.bind at 1, Store.read_piece.
  destruct (Store.pieces sa !! ml) as [mp|] eqn:Eml; [|by intros [= _ <-]].
  destruct (bool_decide (kind mp = Pawn) && ((r2 =? 0) || (r2 =? 7))).
  - unfold Store.bind at 1. cbn [Store.alloc_piece]. intros E3 e ->.
    revert E3. eapply (store_cell_no_raise self r2 c2 captured); [exact E2|done|].
    intros l row0 H0 row1 H1. by eapply Hlen1.
  - intros E3 e ->.
    revert E3. eapply (store_cell_no_raise self r2 c2 captured); [exact E2|done|].
    intros l row0 H0 row1 H1. by eapply Hlen1.
Qed.

(** X9.  [make_move] either completes or changes nothing: when it raises
    -- a source or destination off the board, an empty source square --
    the store is exactly the store it was called on. *)
Theorem make_move_all_or_nothing s self move s' e :
  Store.make_move self move s = (s', Store.Done (Raise e)) → s' = s.
Proof.
  destruct move as [[r1 c1] [r2 c2]]. unfold Store.make_move.
  unfold Store.bind at 1.
  destruct (Store.load_cell self r1 c1 s) as [sa out1] eqn:E1.
  pose proof (load_cell_reads _ _ _ _ _ _ E1) as ->.
  destruct out1 as [[moving|e1]|]; [|by intros [= <- _]|done].
  unfold Store.bind at 1.
  destruct (Store.load_cell self r2 c2 s) as [sa out2] eqn:E2.
  pose proof (load_cell_reads _ _ _ _ _ _ E2) as ->.
  destruct out2 as [[captured|e2]|]; [|by intros [= <- _]|done].
  unfold Store.bind at 1.
  destruct (Store._make_move_no_checks self _ s) as [s1 out3] eqn:E3.
  pose proof (make_move_no_checks_after_reads _ _ _ _ _ _ _ _ _ _ E1 E2 E3) as H3.
  destruct moving as [ml|].
  2:{ destruct H3 as [-> ->]. by intros [= <- _]. }
  destruct out3 as [[[]|e3]|]; [|by destruct (H3 e3)|done].
  unfold Store.bind at 1, Store.read_piece.
  destruct (Store.pieces s1 !! ml) as [mp2|]; [|done].
  unfold Store.set_halfmove_clock, Store.set_fullmove_number, Store.set_to_move,
    Store.bind, Store.read_board, Store.write_board, Store.ret.
  repeat match goal with
  | |- context [match ?m !! self with _ => _ end] =>
      destruct (m !! self) eqn:?; try done
  | |- context [if ?c then _ else _] => destruct c; try done
  end.
Qed.

Lemma make_move_all_or_nothing_witness :
  ∃ s' e,
    Store.make_move 1%positive ((6, 4), (9, 4)) Store.initial_store
      = (s', Store.Done (Raise e))
    ∧ s' = Store.initial_store.
Proof.
  assert (H : Store.make_move 1%positive ((6, 4), (9, 4)) Store.initial_store
            = ((Store.make_move 1%positive ((6, 4), (9, 4))
                  Store.initial_store).1,
               Store.Done (Raise IndexError)))
    by (vm_compute; reflexivity).
  eexists _, IndexError. split; [exact H|].
  exact (make_move_all_or_nothing _ _ _ _ _ H).
Defined.

(** ** [_make_move_no_checks] with a destination off the board *)

Lemma getitem_off_board {A} (l : list A) i :
  ¬ (- Z.of_nat (length l) ≤ i < Z.of_nat (length l)) →
  getitem l i = Raise IndexError.
Proof.
  intros H. unfold getitem, py_index.
  destruct (Z.leb_spec 0 i), (Z.ltb_spec i (Z.of_nat (length l))); cbn;
    try lia.
  all: destruct (Z.leb_spec (- Z.of_nat (length l)) i), (Z.ltb_spec i 0); cbn;
    try done; lia.
Qed.

(** X10.  [_make_move_no_checks] is not all-or-nothing.  With the source on
    the board and occupied and the destination row off the board, it
    raises [IndexError] after it has emptied the source square: the
    moving piece is on no square afterwards, every other square is as
    before.  ([make_move] reads the destination before it calls it.) *)
Theorem make_move_no_checks_off_board s self b r1 c1 r2 c2 p :
  Store.view s self = Some b → rows_distinct s self → wf_grid (board b) →
  inside r1 c1 = true → cell (board b) r1 c1 = Some p →
  ¬ (-8 ≤ r2 < 8) →
  ∃ s' b',
    Store._make_move_no_checks self ((r1, c1), (r2, c2)) s
      = (s', Store.Done (Raise IndexError))
    ∧ Store.view s' self = Some b'
    ∧ cell (board b') r1 c1 = None
    ∧ (∀ r c, inside r c = true → (r, c) ≠ (r1, c1) →
         cell (board b') r c = cell (board b) r c)
    ∧ _make_move_no_checks b ((r1, c1), (r2, c2)) = Raise IndexError.
Proof.
  intros Hv Hnd Hwf H1 Hp Hr2.
  destruct (board_set_inside (board b) r1 c1 None Hwf H1) as (g1 & Hg1 & Hwf1 & Hc1).
  assert (Hcond : bool_decide (kind p = Pawn) && ((r2 =? 0) || (r2 =? 7)) = false).
  { apply andb_false_iff. right. apply orb_false_iff.
    split; apply Z.eqb_neq; lia. }
  assert (Hpure : _make_move_no_checks b ((r1, c1), (r2, c2)) = Raise IndexError).
  { unfold _make_move_no_checks.
    rewrite (board_at_inside _ _ _ Hwf H1), Hp. cbn [mbind res_bind].
    rewrite Hg1. cbn [mbind res_bind]. rewrite Hcond.
    unfold board_set. rewrite getitem_off_board; [done|].
    destruct Hwf1 as [-> _]. lia. }
  destruct (load_cell_view s self b r1 c1 Hv) as (out0 & Hload & Hrel).
  rewrite (board_at_inside _ _ _ Hwf H1), Hp in Hrel.
  destruct out0 as [[pl|]|e]; cbn in Hrel; try done.
  destruct (Store.pieces s !! pl) as [pc|] eqn:Epl; [|done].
  injection Hrel as ->.
  destruct (store_cell_refines s self b r1 c1 None None Hv Hnd eq_refl)
    as (s1 & out1 & Hst1 & Hp1 & Hb1 & Hrel1).
  rewrite Hg1 in Hrel1. destruct out1 as [[]|e]; [|done].
  exists s1, (with_board b g1). split_and!; try done.
  - unfold Store._make_move_no_checks.
    unfold Store.bind at 1. rewrite Hload.
    unfold Store.bind at 1. rewrite Hst1.
    unfold Store.bind at 1, Store.read_piece. rewrite Hp1, Epl, Hcond.
    apply view_inv in Hv as (o & Ho & Hg & _).
    unfold Store.store_cell, Store.bind, Store.read_board, Store.lift.
    rewrite Hb1, Ho. rewrite getitem_off_board; [done|].
    rewrite (Forall2_length _ _ _ Hg). destruct Hwf as [-> _]. lia.
  - cbn. rewrite (Hc1 r1 c1 H1). by rewrite decide_True.
  - intros r c Hin Hne. cbn. rewrite (Hc1 r c Hin). by rewrite decide_False.
Qed.

Lemma make_move_no_checks_off_board_witness :
  Store.view Store.initial_store 1%positive = Some new_board
  ∧ rows_distinct Store.initial_store 1%positive
  ∧ wf_grid (board new_board)
  ∧ inside 6 4 = true
  ∧ cell (board new_board) 6 4 = Some (mkPiece WHITE Pawn)
  ∧ ¬ (-8 ≤ 9 < 8)
  ∧ ∃ s' b',
      Store._make_move_no_checks 1%positive ((6, 4), (9, 4)) Store.initial_store
        = (s', Store.Done (Raise IndexError))
      ∧ Store.view s' 1%positive = Some b'
      ∧ cell (board b') 6 4 = None
      ∧ (∀ r c, inside r c = true → (r, c) ≠ (6, 4) →
           cell (board b') r c = cell (board new_board) r c)
      ∧ _make_move_no_checks new_board ((6, 4), (9, 4)) = Raise IndexError.
Proof.
  destruct Board_init_view as [Hv Hnd].
  split; [exact Hv|]. split; [exact Hnd|]. split; [exact wf_grid_new_board|].
  split; [reflexivity|]. split; [reflexivity|]. split; [lia|].
  apply (make_move_no_checks_off_board Store.initial_store 1%positive new_board
           6 4 9 4 (mkPiece WHITE Pawn) Hv Hnd wf_grid_new_board);
    [reflexivity|reflexivity|lia].
Defined.

(** ** Move generation in the store *)

Lemma extends_refl s : extends s s.
Proof. by split_and!. Qed.

Lemma is_legal_move_extends s self b move col :
  Store.view s self = Some b →
  ∃ s', Store.is_legal_move self move col s
          = (s', Store.Done (is_legal_move b move col))
    ∧ extends s s'.
Proof.
  intros Hv. destruct move as [[r1 c1] [r2 c2]].
  destruct (load_cell_view s self b r1 c1 Hv) as (out0 & Hload & Hrel).
  unfold Store.is_legal_move, is_legal_move.
  unfold Store.bind at 1. rewrite Hload.
  destruct out0 as [q|e], (board_at (board b) r1 c1) as [x|e'];
    cbn in Hrel; try done; cbn [mbind res_bind].
  2:{ subst e'. exists s. split; [done|apply extends_refl]. }
  destruct q as [pl|].
  2:{ injection Hrel as <-. exists s. split; [done|apply extends_refl]. }
  cbn in Hrel. destruct (Store.pieces s !! pl) as [pc|] eqn:Epl; [|done].
  injection Hrel as <-.
  unfold Store.bind at 1, Store.read_piece. rewrite Epl.
  destruct (negb (bool_decide (color pc = col)));
    [exists s; split; [done|apply extends_refl]|].
  destruct (clone_spec s self b Hv)
    as (s1 & b2 & o2 & Hc & Hext & Hv2 & Hnew & Ho2 & Hrows).
  pose proof (clone_rows_distinct _ _ _ _ _ Hv Hc) as Hnd.
  unfold Store.bind at 1. rewrite Hc.
  destruct (make_move_no_checks_refines s1 b2 b ((r1, c1), (r2, c2)) Hv2 Hnd)
    as (s2 & out2 & Hm & Hrel2).
  pose proof (make_move_no_checks_writes _ _ _ _ _ _ Ho2 Hm) as W.
  assert (Hext2 : extends s s2) by (by eapply extends_writes_rows).
  cbv beta iota. unfold Store.bind at 1. unfold Move, Square in *.
  rewrite Hm. rewrite clone_id.
  destruct out2 as [[]|e], (_make_move_no_checks b _) as [b'|e'];
    try done; cbn [mbind res_bind].
  - unfold Store.bind, Store.snapshot. rewrite Hrel2. by exists s2.
  - subst e'. by exists s2.
Qed.

Lemma keep_legal_extends s self b col moves :
  Store.view s self = Some b →
  ∃ s', Store.keep_legal self col moves s
          = (s', Store.Done (keep_legal b col moves))
    ∧ extends s s'.
Proof.
  revert s. induction moves as [|move moves IH]; intros s Hv; cbn.
  { exists s. split; [done|apply extends_refl]. }
  destruct (is_legal_move_extends s self b move col Hv) as (s1 & Hrun & He1).
  unfold Store.bind at 1. rewrite Hrun.
  destruct (is_legal_move b move col) as [ok|e]; cbn [mbind res_bind].
  2:{ by exists s1. }
  destruct (IH s1 (view_extends _ _ _ _ He1 Hv)) as (s2 & Hrun2 & He2).
  unfold Store.bind at 1. rewrite Hrun2.
  pose proof (extends_trans _ _ _ He1 He2).
  destruct (keep_legal b col moves) as [kept|e]; cbn [mbind res_bind];
    by exists s2.
Qed.

Lemma legal_scan_extends s self b col sqs :
  Store.view s self = Some b →
  ∃ s', Store.legal_scan self col sqs s
          = (s', Store.Done (legal_scan b col sqs))
    ∧ extends s s'.
Proof.
  revert s. induction sqs as [|[r c] sqs IH]; intros s Hv.
  { exists s. split; [done|apply extends_refl]. }
  cbn [Store.legal_scan legal_scan].
  set (here_v := match cell (board b) r c with
                 | Some p =>
                     if bool_decide (color p = col)
                     then moves ← generate_pseudo_legal_moves_from b r c;
                          keep_legal b col moves
                     else Ok []
                 | None => Ok []
                 end).
  unfold Store.bind at 1, Store.snapshot. rewrite Hv.
  assert (Hhere : ∃ s1,
    match cell (board b) r c with
    | Some p =>
        if bool_decide (color p = col)
        then Store.bind (Store.lift (generate_pseudo_legal_moves_from b r c))
                        (fun moves => Store.keep_legal self col moves)
        else Store.ret []
    | None => Store.ret []
    end s
    = (s1, Store.Done here_v)
    ∧ extends s s1).
  { subst here_v. destruct (cell (board b) r c) as [p|];
      [|exists s; split; [done|apply extends_refl]].
    destruct (bool_decide (color p = col));
      [|exists s; split; [done|apply extends_refl]].
    unfold Store.bind, Store.lift.
    destruct (generate_pseudo_legal_moves_from b r c) as [moves|e];
      cbn [mbind res_bind]; [|exists s; split; [done|apply extends_refl]].
    by apply keep_legal_extends. }
  destruct Hhere as (s1 & Hrun1 & He1).
  unfold Store.bind at 1. rewrite Hrun1.
  destruct here_v as [here|e]; cbn [mbind res_bind].
  2:{ by exists s1. }
  destruct (IH s1 (view_extends _ _ _ _ He1 Hv)) as (s2 & Hrun2 & He2).
  unfold Store.bind at 1. rewrite Hrun2.
  pose proof (extends_trans _ _ _ He1 He2).
  destruct (legal_scan b col sqs) as [later|e]; cbn [mbind res_bind];
    by exists s2.
Qed.

(** X11.  Move generation works on clones only.  Run in the object store,
    [is_legal_move], [generate_legal_moves] and [choose_ai_move] return
    what they compute on the board value, and afterwards every board,
    row and piece object of the store is still there with the content it
    had. *)
Theorem move_generation_spares_store s self b col rnd move :
  Store.view s self = Some b →
  (∃ s', Store.is_legal_move self move col s
           = (s', Store.Done (is_legal_move b move col))
     ∧ extends s s' ∧ Store.view s' self = Some b)
  ∧ (∃ s', Store.generate_legal_moves self col s
             = (s', Store.Done (generate_legal_moves b col))
       ∧ extends s s' ∧ Store.view s' self = Some b)
  ∧ (∃ s', Store.choose_ai_move rnd self s
             = (s', Store.Done (choose_ai_move rnd b))
       ∧ extends s s' ∧ Store.view s' self = Some b).
Proof.
  intros Hv. split_and!.
  - destruct (is_legal_move_extends s self b move col Hv) as (s' & Hrun & He).
    exists s'. split_and!; try done. by eapply view_extends.
  - destruct (legal_scan_extends s self b col all_squares Hv) as (s' & Hrun & He).
    exists s'. split_and!; try done. by eapply view_extends.
  - destruct (legal_scan_extends s self b BLACK all_squares Hv) as (s' & Hrun & He).
    exists s'. pose proof (view_extends _ _ _ _ He Hv) as Hv'.
    split_and!; try done.
    unfold Store.choose_ai_move, choose_ai_move, Store.generate_legal_moves,
      generate_legal_moves.
    unfold Store.bind at 1. rewrite Hrun.
    destruct (legal_scan b BLACK all_squares) as [moves|e]; cbn [mbind res_bind];
      [|done].
    unfold Store.bind, Store.snapshot, Store.lift. by rewrite Hv'.
Qed.

Lemma move_generation_spares_store_witness :
  Store.view Store.initial_store 1%positive = Some new_board
  ∧ (∃ s', Store.is_legal_move 1%positive ((6, 4), (4, 4)) WHITE
             Store.initial_store
           = (s', Store.Done (is_legal_move new_board ((6, 4), (4, 4)) WHITE))
       ∧ extends Store.initial_store s'
       ∧ Store.view s' 1%positive = Some new_board)
  ∧ (∃ s', Store.generate_legal_moves 1%positive WHITE Store.initial_store
           = (s', Store.Done (generate_legal_moves new_board WHITE))
       ∧ extends Store.initial_store s'
       ∧ Store.view s' 1%positive = Some new_board)
  ∧ (∃ s', Store.choose_ai_move 0 1%positive Store.initial_store
           = (s', Store.Done (choose_ai_move 0 new_board))
       ∧ extends Store.initial_store s'
       ∧ Store.view s' 1%positive = Some new_board).
Proof.
  split; [vm_compute; reflexivity|].
  apply (move_generation_spares_store Store.initial_store 1%positive new_board
           WHITE 0 ((6, 4), (4, 4))).
  vm_compute; reflexivity.
Defined.

(** * Properties of the interaction layer *)

(** ** Selection and targets *)

Lemma targets_from_spec moves sq dst :
  dst ∈ targets_from moves sq ↔ (sq, dst) ∈ moves.
Proof.
  unfold targets_from. rewrite list_elem_of_bind. split.
  - intros ([src d] & Hd & Hm). case_bool_decide; [|by apply elem_of_nil in Hd].
    apply list_elem_of_singleton in Hd. by subst.
  - intros Hm. exists (sq, dst). split; [|done].
    rewrite bool_decide_eq_true_2 by done. by apply list_elem_of_singleton.
Qed.

Lemma clicked_target r c (l : list Square) :
  existsb (fun t => bool_decide ((r, c) = t)) l = true ↔ (r, c) ∈ l.
Proof.
  rewrite existsb_exists. split.
  - intros (t & Hin & Ht). apply bool_decide_eq_true_1 in Ht. subst t.
    by apply list_elem_of_In.
  - intros Hin. exists (r, c). split; [by apply list_elem_of_In|].
    by apply bool_decide_eq_true_2.
Qed.

Lemma end_text_set b col :
  is_set (Some (end_text b col (mate_text col))) = true.
Proof. unfold end_text. by destruct (is_in_check b col), col. Qed.

(** A move of [generate_legal_moves] can be made: [make_move] returns. *)
Lemma make_move_legal b col moves m :
  wf_grid (board b) → generate_legal_moves b col = Ok moves → m ∈ moves →
  ∃ b', make_move b m = Ok b'
    ∧ wf_grid (board b')
    ∧ to_move b' = (if bool_decide (to_move b = BLACK) then WHITE else BLACK).
Proof.
  intros Hwf Hgen Hm.
  destruct (legal_scan_origin _ _ _ _ _ Hgen Hm)
    as (r & c & p & Hsq & Hat & Hcol & Hpm & _).
  pose proof (all_squares_inside _ Hsq) as Hin. cbn in Hin.
  destruct m as [[r1 c1] [r2 c2]].
  destruct (piece_moves_sound _ _ _ _ _ Hin Hpm) as [[= -> ->] H2]. cbn in H2.
  assert (Hc : cell (board b) r c = Some p) by (unfold cell; by rewrite Hat).
  destruct (make_move_no_checks_inside b r c r2 c2 p Hwf Hin H2 Hc)
    as (b1 & Hb1 & _).
  assert (Hret : ∃ b', make_move b ((r, c), (r2, c2)) = Ok b').
  { unfold make_move. rewrite Hat. cbn [mbind res_bind].
    rewrite (board_at_inside _ _ _ Hwf H2). cbn [mbind res_bind].
    unfold Move, Square in *. rewrite Hb1. cbn [mbind res_bind]. by eexists. }
  destruct Hret as [b' Hb']. exists b'. split; [done|].
  destruct (make_move_Ok _ _ _ Hb') as (Ht & _ & _ & Hwf' & _).
  split; [by apply Hwf'|done].
Qed.

Lemma select_square_ok u r c :
  wf_grid (board (ui_board u)) → to_move (ui_board u) = WHITE →
  ∃ u', select_square u r c = Ok u'
    ∧ ui_board u' = ui_board u
    ∧ game_over_text u' = game_over_text u
    ∧ selected u' = Some (r, c)
    ∧ selection_ok u'.
Proof.
  intros Hwf Hw. unfold select_square.
  destruct (generate_legal_moves_returns _ WHITE Hwf) as [moves Hgen].
  rewrite Hgen. cbn [mbind res_bind]. eexists. split; [done|].
  split_and!; try done. unfold selection_ok. cbn. split; [done|]. by exists moves.
Qed.

(** ** A click *)

(** What [handle_mouse_click] can do to a state whose selection agrees
    with the board. *)
Lemma click_cases u pos :
  wf_grid (board (ui_board u)) → selection_ok u →
  ∃ u', handle_mouse_click u pos = Ok u'
    ∧ selection_ok u'
    ∧ ((ui_board u' = ui_board u ∧ game_over_text u' = game_over_text u)
       ∨ ∃ sq moves replies,
           selected u = Some sq
           ∧ to_move (ui_board u) = WHITE
           ∧ generate_legal_moves (ui_board u) WHITE = Ok moves
           ∧ (sq, (pos.2 `div` TILE_SIZE, pos.1 `div` TILE_SIZE)) ∈ moves
           ∧ make_move (ui_board u)
               (sq, (pos.2 `div` TILE_SIZE, pos.1 `div` TILE_SIZE))
             = Ok (ui_board u')
           ∧ wf_grid (board (ui_board u'))
           ∧ to_move (ui_board u') = BLACK
           ∧ generate_legal_moves (ui_board u') BLACK = Ok replies
           ∧ selected u' = None
           ∧ game_over_text u'
             = match replies with
               | [] => Some (end_text (ui_board u') BLACK (mate_text BLACK))
               | _ :: _ => game_over_text u
               end).
Proof.
  intros Hwf Hsel. destruct pos as [x y]. unfold handle_mouse_click.
  destruct (BOARD_SIZE <=? x); [exists u; split_and!; auto|].
  set (c := x `div` TILE_SIZE). set (r := y `div` TILE_SIZE).
  destruct (inside r c) eqn:Hin; cbn [negb]; [|exists u; split_and!; auto].
  assert (Hdesel : selection_ok
            {| ui_board := ui_board u; selected := None; legal_targets := [];
               game_over_text := game_over_text u |}) by done.
  unfold selection_ok in Hsel.
  destruct (selected u) as [[sr sc]|] eqn:Hs.
  - destruct Hsel as (Hw & moves & Hgen & Htargets).
    destruct (existsb (fun t : Z * Z => bool_decide ((r, c) = t))
                (legal_targets u)) eqn:Hex.
    + apply clicked_target in Hex. rewrite Htargets in Hex.
      apply targets_from_spec in Hex.
      destruct (make_move_legal _ _ _ _ Hwf Hgen Hex) as (b' & Hmv & Hwf' & Ht).
      rewrite Hw in Ht. rewrite bool_decide_eq_false_2 in Ht by done.
      destruct (generate_legal_moves_returns b' BLACK Hwf') as [replies Hrep].
      unfold Move, Square in *. rewrite Hmv. cbn [mbind res_bind].
      rewrite Hrep. cbn [mbind res_bind].
      eexists. split; [done|]. split; [done|]. right.
      exists (sr, sc), moves, replies. cbn. split_and!; try done.
    + destruct (cell (board (ui_board u)) r c) as [p|];
        [|eexists; split_and!; eauto].
      destruct (bool_decide (color p = to_move (ui_board u))
                && bool_decide (to_move (ui_board u) = WHITE)
                && bool_decide (to_move (ui_board u) = WHITE));
        [|eexists; split_and!; eauto].
      destruct (select_square_ok u r c Hwf Hw) as (u' & -> & Hb & Ht & _ & Hok).
      exists u'. split_and!; auto.
  - destruct (bool_decide (to_move (ui_board u) = WHITE)) eqn:Hw; cbn [negb];
      [|exists u; split_and!; [done|by unfold selection_ok; rewrite Hs|auto]].
    apply bool_decide_eq_true_1 in Hw.
    assert (Hu : selection_ok u) by (by unfold selection_ok; rewrite Hs).
    destruct (cell (board (ui_board u)) r c) as [p|];
      [|exists u; split_and!; auto].
    destruct (bool_decide (color p = WHITE)); [|exists u; split_and!; auto].
    destruct (select_square_ok u r c Hwf Hw) as (u' & -> & Hb & Ht & _ & Hok).
    exists u'. split_and!; auto.
Qed.

(** X12.  A click never raises and only ever plays a legal move.  From a
    state whose selection agrees with the board, [handle_mouse_click]
    returns; the new selection agrees with the new board; and either the
    board and the game-over text are untouched, or a square was selected,
    White was to move, and the board is the result of [make_move] on one
    of White's legal moves, from the selected square to the clicked one,
    after which nothing is selected and Black is to move. *)
Theorem click_plays_only_legal_moves u pos :
  wf_grid (board (ui_board u)) → selection_ok u →
  ∃ u', handle_mouse_click u pos = Ok u'
    ∧ wf_grid (board (ui_board u'))
    ∧ selection_ok u'
    ∧ ((ui_board u' = ui_board u ∧ game_over_text u' = game_over_text u)
       ∨ ∃ sq moves,
           selected u = Some sq
           ∧ to_move (ui_board u) = WHITE
           ∧ generate_legal_moves (ui_board u) WHITE = Ok moves
           ∧ (sq, (pos.2 `div` TILE_SIZE, pos.1 `div` TILE_SIZE)) ∈ moves
           ∧ make_move (ui_board u)
               (sq, (pos.2 `div` TILE_SIZE, pos.1 `div` TILE_SIZE))
             = Ok (ui_board u')
           ∧ to_move (ui_board u') = BLACK
           ∧ selected u' = None ∧ legal_targets u' = []).
Proof.
  intros Hwf Hsel.
  destruct (click_cases u pos Hwf Hsel) as (u' & Hrun & Hsel' & Hcases).
  exists u'. split; [done|].
  destruct Hcases as [[Hb Ht]|(sq & moves & replies & Hs & Hw & Hgen & Hm & Hmv
                                & Hwf' & Hto & Hrep & Hnone & Htext)].
  - split_and!; [by rewrite Hb|done|by left].
  - split_and!; [done|done|]. right. exists sq, moves. split_and!; try done.
    unfold selection_ok in Hsel'. by rewrite Hnone in Hsel'.
Qed.

Lemma click_plays_only_legal_moves_witness :
  let u := {| ui_board := new_board; selected := Some (6, 4);
              legal_targets := [(5, 4); (4, 4)]; game_over_text := None |} in
  wf_grid (board (ui_board u)) ∧ selection_ok u
  ∧ ∃ u', handle_mouse_click u (330, 325) = Ok u'
      ∧ wf_grid (board (ui_board u'))
      ∧ selection_ok u'
      ∧ ((ui_board u' = ui_board u ∧ game_over_text u' = game_over_text u)
         ∨ ∃ sq moves,
             selected u = Some sq
             ∧ to_move (ui_board u) = WHITE
             ∧ generate_legal_moves (ui_board u) WHITE = Ok moves
             ∧ (sq, (325 `div` TILE_SIZE, 330 `div` TILE_SIZE)) ∈ moves
             ∧ make_move (ui_board u)
                 (sq, (325 `div` TILE_SIZE, 330 `div` TILE_SIZE))
               = Ok (ui_board u')
             ∧ to_move (ui_board u') = BLACK
             ∧ selected u' = None ∧ legal_targets u' = []).
Proof.
  intros u.
  assert (Hwf : wf_grid (board (ui_board u))) by exact wf_grid_new_board.
  assert (Hsel : selection_ok u).
  { split; [reflexivity|]. eexists. split; vm_compute; reflexivity. }
  split; [exact Hwf|]. split; [exact Hsel|].
  exact (click_plays_only_legal_moves u (330, 325) Hwf Hsel).
Defined.

(** X13.  A click outside the board area is ignored.  When [x] or [y] is
    not in [0, BOARD_SIZE), a negative coordinate included,
    [handle_mouse_click] leaves the state as it is. *)
Theorem click_outside_board_ignored u x y :
  ¬ (0 ≤ x < BOARD_SIZE ∧ 0 ≤ y < BOARD_SIZE) →
  handle_mouse_click u (x, y) = Ok u.
Proof.
  intros Hout. unfold handle_mouse_click.
  destruct (BOARD_SIZE <=? x) eqn:Hx; [done|]. apply Z.leb_gt in Hx.
  destruct (inside (y `div` TILE_SIZE) (x `div` TILE_SIZE)) eqn:Hin; [|done].
  exfalso. apply Hout. apply inside_spec in Hin. destruct Hin as [Hr Hc].
  unfold BOARD_SIZE, TILE_SIZE in *.
  pose proof (Z.mul_div_le y 80 ltac:(lia)).
  pose proof (Z.mul_succ_div_gt y 80 ltac:(lia)).
  pose proof (Z.mul_div_le x 80 ltac:(lia)).
  pose proof (Z.mul_succ_div_gt x 80 ltac:(lia)).
  lia.
Qed.

Lemma click_outside_board_ignored_witness :
  ¬ (0 ≤ 100 < BOARD_SIZE ∧ 0 ≤ -1 < BOARD_SIZE)
  ∧ handle_mouse_click new_ui (100, -1) = Ok new_ui.
Proof.
  assert (H : ¬ (0 ≤ 100 < BOARD_SIZE ∧ 0 ≤ -1 < BOARD_SIZE)) by lia.
  split; [exact H|]. exact (click_outside_board_ignored new_ui 100 (-1) H).
Defined.

(** ** The automated turn *)

Lemma choose_ai_move_cases rnd b moves :
  wf_grid (board b) → generate_legal_moves b BLACK = Ok moves →
  (moves = [] ∧ choose_ai_move rnd b = Ok None)
  ∨ ∃ m, m ∈ moves ∧ choose_ai_move rnd b = Ok (Some m).
Proof.
  intros Hwf Hgen. unfold choose_ai_move. rewrite Hgen. cbn [mbind res_bind].
  destruct moves as [|m0 moves']; [by left|]. right.
  set (moves := m0 :: moves') in *. unfold choose_from. fold moves.
  change (match moves with
          | [] => Ok None
          | _ :: _ =>
              '(_, best_captures) ← capture_scan b moves (-1) [];
              match best_captures with
              | _ :: _ => m ← random_choice rnd best_captures; Ok (Some m)
              | [] => m ← random_choice rnd moves; Ok (Some m)
              end
          end)
    with ('(_, best_captures) ← capture_scan b moves (-1) [];
          match best_captures with
          | _ :: _ => m ← random_choice rnd best_captures; Ok (Some m)
          | [] => m ← random_choice rnd moves; Ok (Some m)
          end).
  destruct (capture_scan_sound b moves (-1) [] Hwf) as (v & caps & -> & Hcaps).
  { intros m Hm. by destruct (legal_moves_on_board _ _ _ _ Hgen Hm). }
  cbn [mbind res_bind].
  destruct caps as [|c0 caps'].
  - destruct (random_choice_elem rnd moves ltac:(done)) as (m & -> & Hm).
    cbn [mbind res_bind]. by exists m.
  - destruct (random_choice_elem rnd (c0 :: caps') ltac:(done)) as (m & -> & Hm).
    cbn [mbind res_bind]. exists m. split; [|done].
    destruct (Hcaps m Hm) as [H|H]; [by apply elem_of_nil in H|done].
Qed.

(** What the automated turn does when it is taken. *)
Lemma ai_cases rnd u :
  wf_grid (board (ui_board u)) →
  is_set (game_over_text u) = false → to_move (ui_board u) = BLACK →
  ∃ u' moves, ai_turn rnd u = Ok u'
    ∧ generate_legal_moves (ui_board u) BLACK = Ok moves
    ∧ selected u' = selected u ∧ legal_targets u' = legal_targets u
    ∧ ((moves = [] ∧ ui_board u' = ui_board u
        ∧ game_over_text u'
          = Some (end_text (ui_board u) BLACK (mate_text BLACK)))
       ∨ ∃ m replies,
           m ∈ moves
           ∧ make_move (ui_board u) m = Ok (ui_board u')
           ∧ wf_grid (board (ui_board u'))
           ∧ to_move (ui_board u') = WHITE
           ∧ generate_legal_moves (ui_board u') WHITE = Ok replies
           ∧ game_over_text u'
             = match replies with
               | [] => Some (end_text (ui_board u') WHITE (mate_text WHITE))
               | _ :: _ => game_over_text u
               end).
Proof.
  intros Hwf Hset Hb. unfold ai_turn. rewrite Hset.
  rewrite (bool_decide_eq_true_2 _ Hb). cbn [negb andb].
  destruct (generate_legal_moves_returns _ BLACK Hwf) as [moves Hgen].
  destruct (choose_ai_move_cases rnd _ _ Hwf Hgen) as [[-> ->]|(m & Hm & ->)];
    cbn [mbind res_bind].
  - eexists _, []. split; [done|]. split_and!; try done. by left.
  - destruct (make_move_legal _ _ _ _ Hwf Hgen Hm) as (b' & Hmv & Hwf' & Ht).
    rewrite (bool_decide_eq_true_2 _ Hb) in Ht.
    destruct (generate_legal_moves_returns b' WHITE Hwf') as [replies Hrep].
    rewrite Hmv. cbn [mbind res_bind]. rewrite Hrep. cbn [mbind res_bind].
    eexists _, moves. split; [done|]. split_and!; try done. right.
    exists m, replies. cbn. by split_and!.
Qed.

(** X14.  The automated turn never raises and only ever plays a legal
    move.  When no game-over text is set and Black is to move on an 8x8
    board, [ai_turn] returns and leaves the selection alone; if Black
    has no legal move the board stays and the text becomes the mate text
    when Black is in check and the stalemate text when not; otherwise the
    board is the result of [make_move] on one of Black's legal moves,
    White is to move, and the text is set exactly when White has no legal
    move. *)
Theorem ai_turn_plays_legal_move rnd u :
  wf_grid (board (ui_board u)) →
  is_set (game_over_text u) = false → to_move (ui_board u) = BLACK →
  ∃ u' moves, ai_turn rnd u = Ok u'
    ∧ generate_legal_moves (ui_board u) BLACK = Ok moves
    ∧ selected u' = selected u ∧ legal_targets u' = legal_targets u
    ∧ ((moves = [] ∧ ui_board u' = ui_board u
        ∧ game_over_text u'
          = Some (if is_in_check (ui_board u) BLACK
                  then "Checkmate! White wins." else "Stalemate!")%string)
       ∨ ∃ m replies,
           m ∈ moves
           ∧ make_move (ui_board u) m = Ok (ui_board u')
           ∧ to_move (ui_board u') = WHITE
           ∧ generate_legal_moves (ui_board u') WHITE = Ok replies
           ∧ (is_set (game_over_text u') = true ↔ replies = [])
           ∧ (replies = [] →
              game_over_text u'
              = Some (if is_in_check (ui_board u') WHITE
                      then "Checkmate! Black wins." else "Stalemate!")%string)).
Proof.
  intros Hwf Hset Hb.
  destruct (ai_cases rnd u Hwf Hset Hb)
    as (u' & moves & Hrun & Hgen & Hs & Ht & Hcases).
  exists u', moves. split_and!; try done.
  destruct Hcases as [(-> & Hbd & Htext)|(m & replies & Hm & Hmv & Hwf' & Hto
                                          & Hrep & Htext)].
  - left. by split_and!.
  - right. exists m, replies. split_and!; try done.
    + rewrite Htext. destruct replies; [|by rewrite Hset].
      split; [done|]. intros _. apply end_text_set.
    + intros ->. by rewrite Htext.
Qed.

Lemma ai_turn_plays_legal_move_witness :
  let u := {| ui_board := pawn_attack_board; selected := None;
              legal_targets := []; game_over_text := None |} in
  wf_grid (board (ui_board u))
  ∧ is_set (game_over_text u) = false ∧ to_move (ui_board u) = BLACK
  ∧ ∃ u' moves, ai_turn 5 u = Ok u'
    ∧ generate_legal_moves (ui_board u) BLACK = Ok moves
    ∧ selected u' = selected u ∧ legal_targets u' = legal_targets u
    ∧ ((moves = [] ∧ ui_board u' = ui_board u
        ∧ game_over_text u'
          = Some (if is_in_check (ui_board u) BLACK
                  then "Checkmate! White wins." else "Stalemate!")%string)
       ∨ ∃ m replies,
           m ∈ moves
           ∧ make_move (ui_board u) m = Ok (ui_board u')
           ∧ to_move (ui_board u') = WHITE
           ∧ generate_legal_moves (ui_board u') WHITE = Ok replies
           ∧ (is_set (game_over_text u') = true ↔ replies = [])
           ∧ (replies = [] →
              game_over_text u'
              = Some (if is_in_check (ui_board u') WHITE
                      then "Checkmate! Black wins." else "Stalemate!")%string)).
Proof.
  intros u.
  assert (Hwf : wf_grid (board (ui_board u))).
  { split; [reflexivity|]. vm_compute. repeat constructor. }
  split; [exact Hwf|]. split; [reflexivity|]. split; [reflexivity|].
  exact (ai_turn_plays_legal_move 5 u Hwf eq_refl eq_refl).
Defined.

(** ** After the end of the game *)

Lemma handle_events_over events running u :
  is_set (game_over_text u) = true →
  ∃ running', handle_events events running u = Ok (running', u)
    ∧ (running' = false ↔ running = false ∨ QUIT ∈ events).
Proof.
  intros Hset. revert running.
  induction events as [|ev events IH]; intros running; cbn [handle_events].
  { exists running. split; [done|]. split; [by left|].
    intros [H|H]; [done|by apply elem_of_nil in H]. }
  assert (Hskip : ev ≠ QUIT →
    ∃ running', handle_events events running u = Ok (running', u)
      ∧ (running' = false ↔ running = false ∨ QUIT ∈ ev :: events)).
  { intros Hev. destruct (IH running) as (running' & -> & Hr).
    exists running'. split; [done|]. rewrite Hr, elem_of_cons. split.
    - intros [H|H]; [by left|by right; right].
    - intros [H|[H|H]]; [by left|done|by right]. }
  destruct ev as [|button pos|].
  - destruct (IH false) as (running' & -> & Hr). exists running'.
    split; [done|]. split.
    + intros _. right. left.
    + intros _. apply Hr. by left.
  - rewrite Hset. rewrite andb_false_r. by apply Hskip.
  - by apply Hskip.
Qed.

Lemma ai_turn_over rnd u :
  is_set (game_over_text u) = true → ai_turn rnd u = Ok u.
Proof. intros Hset. unfold ai_turn. by rewrite Hset. Qed.

Lemma run_frame_over rnd events u :
  is_set (game_over_text u) = true →
  ∃ running, run_frame rnd events u = Ok (running, u)
    ∧ (running = false ↔ QUIT ∈ events).
Proof.
  intros Hset. unfold run_frame.
  destruct (handle_events_over events true u Hset) as (running & -> & Hr).
  cbn [mbind res_bind]. rewrite (ai_turn_over _ _ Hset). cbn [mbind res_bind].
  exists running. split; [done|]. rewrite Hr. split.
  - by intros [H|H].
  - by right.
Qed.

(** X15.  The end of the game is final.  Once a game-over text is set, no
    click and no automated turn changes the state any more: every pass
    of the loop of [run] returns the state it was given, and stops the
    loop exactly when a [QUIT] event is among its events. *)
Theorem game_over_is_final u :
  is_set (game_over_text u) = true →
  (∀ rnd events, ∃ running,
      run_frame rnd events u = Ok (running, u)
      ∧ (running = false ↔ QUIT ∈ events))
  ∧ ∀ frames, run frames u = Ok u.
Proof.
  intros Hset. split; [intros; by apply run_frame_over|].
  induction frames as [|[rnd events] frames IH]; [done|].
  cbn [run]. destruct (run_frame_over rnd events u Hset) as (running & -> & _).
  cbn [mbind res_bind]. by destruct running.
Qed.

Lemma game_over_is_final_witness :
  let u := {| ui_board := stalemate_board 0 1; selected := Some (7, 0);
              legal_targets := []; game_over_text := Some "Stalemate!"%string |} in
  is_set (game_over_text u) = true
  ∧ (∀ rnd events, ∃ running,
        run_frame rnd events u = Ok (running, u)
        ∧ (running = false ↔ QUIT ∈ events))
  ∧ ∀ frames, run frames u = Ok u.
Proof.
  intros u. split; [reflexivity|]. exact (game_over_is_final u eq_refl).
Defined.

(** ** The whole loop *)

Lemma text_ok_unset u :
  text_ok u → is_set (game_over_text u) = false → game_over_text u = None.
Proof.
  unfold text_ok. destruct (game_over_text u) as [t|]; [|done].
  intros [_ ->]. by rewrite end_text_set.
Qed.

Lemma handle_events_ok events running u :
  wf_grid (board (ui_board u)) → selection_ok u → text_ok u →
  ∃ running' u', handle_events events running u = Ok (running', u')
    ∧ wf_grid (board (ui_board u')) ∧ selection_ok u' ∧ text_ok u'.
Proof.
  revert running u.
  induction events as [|ev events IH]; intros running u Hwf Hsel Htext;
    cbn [handle_events].
  { by exists running, u. }
  destruct ev as [|button pos|]; [by apply IH| |by apply IH].
  destruct ((button =? 1) && negb (is_set (game_over_text u))) eqn:Hcond;
    [|by apply IH].
  apply andb_true_iff in Hcond as [_ Hset]. apply negb_true_iff in Hset.
  pose proof (text_ok_unset u Htext Hset) as Hnone.
  destruct (click_cases u pos Hwf Hsel) as (u' & -> & Hsel' & Hcases).
  cbn [mbind res_bind]. apply IH; [|done|].
  - destruct Hcases as [[-> _]|(_ & _ & _ & _ & _ & _ & _ & _ & H & _)]; done.
  - destruct Hcases as [[Hb Ht]|(sq & moves & replies & _ & _ & _ & _ & _
                                 & Hwf' & Hto & Hrep & _ & Ht)].
    + unfold text_ok in *. by rewrite Hb, Ht.
    + unfold text_ok. rewrite Ht, Hto. destruct replies as [|m replies].
      * done.
      * rewrite Hnone. by exists m, replies.
Qed.

Lemma ai_turn_ok rnd u :
  wf_grid (board (ui_board u)) → selection_ok u → text_ok u →
  ∃ u', ai_turn rnd u = Ok u'
    ∧ wf_grid (board (ui_board u')) ∧ selection_ok u' ∧ text_ok u'
    ∧ (game_over_text u' = None → to_move (ui_board u') = WHITE).
Proof.
  intros Hwf Hsel Htext.
  destruct (is_set (game_over_text u)) eqn:Hset.
  { exists u. rewrite (ai_turn_over _ _ Hset). split_and!; try done.
    intros Hn. by rewrite Hn in Hset. }
  destruct (to_move (ui_board u)) eqn:Hto.
  { exists u. unfold ai_turn. rewrite Hto.
    rewrite bool_decide_eq_false_2 by done. rewrite andb_false_r.
    by split_and!. }
  pose proof (text_ok_unset u Htext Hset) as Hnone.
  assert (Hs : selected u = None).
  { unfold selection_ok in Hsel. destruct (selected u); [|done].
    destruct Hsel as [Hw _]. congruence. }
  assert (Hl : legal_targets u = []).
  { unfold selection_ok in Hsel. by rewrite Hs in Hsel. }
  destruct (ai_cases rnd u Hwf Hset Hto)
    as (u' & moves & -> & Hgen & Hs' & Hl' & Hcases).
  exists u'. split; [done|].
  assert (Hsel' : selection_ok u').
  { unfold selection_ok. by rewrite Hs', Hs, Hl', Hl. }
  destruct Hcases as [(-> & Hb & Ht)|(m & replies & _ & _ & Hwf' & Hto'
                                      & Hrep & Ht)].
  - split_and!; [by rewrite Hb|done| |by rewrite Ht].
    unfold text_ok. by rewrite Ht, Hb, Hto.
  - split_and!; try done.
    unfold text_ok. rewrite Ht, Hto'. destruct replies as [|m' replies].
    + done.
    + rewrite Hnone. by exists m', replies.
Qed.

Lemma run_frame_ok rnd events u :
  wf_grid (board (ui_board u)) → selection_ok u → text_ok u →
  ∃ running u', run_frame rnd events u = Ok (running, u')
    ∧ wf_grid (board (ui_board u')) ∧ selection_ok u' ∧ text_ok u'
    ∧ (game_over_text u' = None → to_move (ui_board u') = WHITE).
Proof.
  intros Hwf Hsel Htext. unfold run_frame.
  destruct (handle_events_ok events true u Hwf Hsel Htext)
    as (running & u1 & -> & Hwf1 & Hsel1 & Htext1).
  cbn [mbind res_bind].
  destruct (ai_turn_ok rnd u1 Hwf1 Hsel1 Htext1) as (u2 & -> & H).
  cbn [mbind res_bind]. by exists running, u2.
Qed.

Lemma run_ok frames u :
  wf_grid (board (ui_board u)) → selection_ok u → text_ok u →
  (game_over_text u = None → to_move (ui_board u) = WHITE) →
  ∃ u', run frames u = Ok u'
    ∧ wf_grid (board (ui_board u')) ∧ selection_ok u' ∧ text_ok u'
    ∧ (game_over_text u' = None → to_move (ui_board u') = WHITE).
Proof.
  revert u. induction frames as [|[rnd events] frames IH];
    intros u Hwf Hsel Htext Hturn; cbn [run].
  { by exists u. }
  destruct (run_frame_ok rnd events u Hwf Hsel Htext)
    as (running & u1 & -> & Hwf1 & Hsel1 & Htext1 & Hturn1).
  cbn [mbind res_bind]. destruct running; [by apply IH|by exists u1].
Qed.

(** X16.  The game loop never raises, and what it shows agrees with the
    board.  Started from [ChessUI.__init__], whatever the clicks, the
    other events and the random draws of the passes of [run], the loop
    state is defined after every pass; the board is 8x8; the selection
    agrees with the board; a game-over text is set exactly when the side
    to move has no legal move, and it names a mate when that side is in
    check and a stalemate when it is not; and as long as no text is set,
    it is White's turn at the end of a pass. *)
Theorem run_never_raises frames :
  ∃ u, run frames new_ui = Ok u
    ∧ wf_grid (board (ui_board u))
    ∧ selection_ok u
    ∧ (∃ moves,
         generate_legal_moves (ui_board u) (to_move (ui_board u)) = Ok moves
         ∧ (is_set (game_over_text u) = true ↔ moves = [])
         ∧ (moves = [] →
            game_over_text u
            = Some (if is_in_check (ui_board u) (to_move (ui_board u))
                    then mate_text (to_move (ui_board u))
                    else "Stalemate!"%string)))
    ∧ (is_set (game_over_text u) = false → to_move (ui_board u) = WHITE).
Proof.
  destruct (run_ok frames new_ui) as (u & Hrun & Hwf & Hsel & Htext & Hturn).
  - exact wf_grid_new_board.
  - done.
  - unfold text_ok. cbn. eexists _, _. vm_compute. reflexivity.
  - done.
  - exists u. split_and!; try done.
    + unfold text_ok in Htext. destruct (game_over_text u) as [t|] eqn:Ht.
      * destruct Htext as [Hgen ->]. exists []. split; [done|].
        split; [by rewrite end_text_set|done].
      * destruct Htext as (m & moves & Hgen). exists (m :: moves).
        split; [done|]. split; done.
    + intros Hset. apply Hturn. by apply text_ok_unset.
Qed.

(** * [make_move] in place *)

Lemma view_row_frame s s' (locs : list Store.loc) rl xs :
  Store.pieces s ⊆ Store.pieces s' →
  (∀ l, l ∉ locs → Store.rows s' !! l = Store.rows s !! l) →
  rl ∉ locs →
  Store.view_row s rl = Some xs → Store.view_row s' rl = Some xs.
Proof.
  intros Hp Hr Hrl (row & Hrow & Hcells)%view_row_inv. apply view_row_inv.
  exists row. split; [by rewrite Hr|].
  eapply Forall2_impl; [exact Hcells|]. intros p x. by apply view_cell_extends.
Qed.

(** A board object that is not [self] and shares no row with it reads the
    same after a run that writes [self] only. *)
Lemma view_frame s s' self locs other locs' bo :
  writes_object self locs s s' →
  other ≠ self → has_rows other locs' s → Forall (fun rl => rl ∉ locs) locs' →
  Store.view s other = Some bo → Store.view s' other = Some bo.
Proof.
  intros (Hp & Hb & Hr) Hne (oo & Hoo & <-) Hdisj
         (o & Ho & Hrows & Hfields)%view_inv.
  rewrite Hoo in Ho. injection Ho as <-.
  apply view_inv. exists oo. split; [by rewrite Hb|]. split; [|done].
  clear Hfields Hoo. revert Hdisj.
  induction Hrows as [|rl xs rls g Hrl _ IH]; intros Hdisj; [constructor|].
  inversion Hdisj as [|? ? Hnot Hrest]; subst.
  constructor; [by eapply view_row_frame|by apply IH].
Qed.

(** X17.  [make_move] works in place and on its own board only.  Run in
    the object store on a board object with distinct rows, it returns,
    with the outcome of [make_move] on the board value: on success the
    object reads as the new value, on an exception the same exception is
    raised.  Any other board object that shares no row with it reads
    afterwards as it did before. *)
Theorem make_move_in_place s self locs b move other locs' bo :
  Store.view s self = Some b → rows_distinct s self →
  has_rows self locs s →
  other ≠ self → has_rows other locs' s →
  Forall (fun rl => rl ∉ locs) locs' →
  Store.view s other = Some bo →
  ∃ s' out, Store.make_move self move s = (s', Store.Done out)
    ∧ res_rel (fun _ b' => Store.view s' self = Some b') out (make_move b move)
    ∧ Store.view s' other = Some bo.
Proof.
  intros Hv Hnd Hrows Hne Hrows' Hdisj Hvo.
  destruct (make_move_refines s self b move Hv Hnd) as (s' & out & Hrun & Hrel).
  exists s', out. split; [done|]. split; [exact Hrel|].
  destruct (confined_make_move self locs move s s' _ Hrows Hrun) as [W _].
  by eapply view_frame.
Qed.

Lemma make_move_in_place_witness :
  let s := (Store.clone 1%positive Store.initial_store).1 in
  Store.view s 1%positive = Some new_board
  ∧ rows_distinct s 1%positive
  ∧ has_rows 1%positive (Pos.of_nat <$> seq 1 8) s
  ∧ 2%positive ≠ 1%positive
  ∧ has_rows 2%positive (Pos.of_nat <$> seq 9 8) s
  ∧ Forall (fun rl => rl ∉ Pos.of_nat <$> seq 1 8) (Pos.of_nat <$> seq 9 8)
  ∧ Store.view s 2%positive = Some new_board
  ∧ ∃ s' out,
      Store.make_move 1%positive ((6, 4), (4, 4)) s = (s', Store.Done out)
      ∧ res_rel (fun _ b' => Store.view s' 1%positive = Some b') out
                (make_move new_board ((6, 4), (4, 4)))
      ∧ Store.view s' 2%positive = Some new_board.
Proof.
  intros s.
  assert (Hv : Store.view s 1%positive = Some new_board)
    by (vm_compute; reflexivity).
  assert (Hnd : rows_distinct s 1%positive).
  { eexists. split; [vm_compute; reflexivity|].
    apply (bool_decide_unpack _). vm_compute. exact I. }
  assert (Hr : has_rows 1%positive (Pos.of_nat <$> seq 1 8) s).
  { eexists. split; vm_compute; reflexivity. }
  assert (Hne : 2%positive ≠ 1%positive) by discriminate.
  assert (Hr' : has_rows 2%positive (Pos.of_nat <$> seq 9 8) s).
  { eexists. split; vm_compute; reflexivity. }
  assert (Hd : Forall (fun rl => rl ∉ Pos.of_nat <$> seq 1 8)
                      (Pos.of_nat <$> seq 9 8)).
  { apply (bool_decide_unpack _). vm_compute. exact I. }
  assert (Hvo : Store.view s 2%positive = Some new_board)
    by (vm_compute; reflexivity).
  split; [exact Hv|]. split; [exact Hnd|]. split; [exact Hr|].
  split; [exact Hne|]. split; [exact Hr'|]. split; [exact Hd|].
  split; [exact Hvo|].
  exact (make_move_in_place s 1%positive _ new_board ((6, 4), (4, 4))
           2%positive _ new_board Hv Hnd Hr Hne Hr' Hd Hvo).
Defined.

(** * The sliding pieces *)

(** X18.  A bishop, rook or queen cannot jump.  Its pseudo-legal moves
    from [(r, c)] go to exactly the squares [k >= 1] steps along one of
    its directions that are on the board, with every square passed on
    the way empty, and the destination empty or held by the other
    colour. *)
Theorem sliders_stop_at_first_piece b r c p moves r2 c2 :
  wf_grid (board b) → inside r c = true →
  cell (board b) r c = Some p →
  kind p = Bishop ∨ kind p = Rook ∨ kind p = Queen →
  generate_pseudo_legal_moves_from b r c = Ok moves →
  ((r, c), (r2, c2)) ∈ moves ↔
  ∃ dr dc k, (dr, dc) ∈ directions_of (kind p) ∧ 1 ≤ k
    ∧ r2 = r + k * dr ∧ c2 = c + k * dc
    ∧ inside r2 c2 = true
    ∧ (∀ j, 1 ≤ j < k → cell (board b) (r + j * dr) (c + j * dc) = None)
    ∧ free_for (color p) (cell (board b) r2 c2) = true.
Proof.
  intros Hwf Hin Hc Hk Hgen. unfold generate_pseudo_legal_moves_from in Hgen.
  rewrite (board_at_inside _ _ _ Hwf Hin), Hc in Hgen. cbn in Hgen.
  injection Hgen as <-.
  assert (Hpm : piece_moves b r c p = slider_moves b r c p).
  { unfold piece_moves. by destruct Hk as [->|[->| ->]]. }
  rewrite Hpm, slider_moves_spec. apply inside_spec in Hin. split.
  - intros (dr & dc & Hd & Hm). apply slide_spec in Hm
      as (k & Hk0 & Hr2 & Hc2 & Hclear & Hin2 & Hfree).
    exists dr, dc, (k + 1).
    split; [done|]. split; [lia|]. split; [lia|]. split; [lia|].
    split; [done|]. split; [|done].
    intros j Hj. destruct (Hclear (j - 1) ltac:(lia)) as [_ Hnone].
    replace (r + j * dr) with (r + dr + (j - 1) * dr) by lia.
    replace (c + j * dc) with (c + dc + (j - 1) * dc) by lia.
    exact Hnone.
  - intros (dr & dc & k & Hd & Hk1 & Hr2 & Hc2 & Hin2 & Hclear & Hfree).
    exists dr, dc. split; [done|]. apply slide_spec.
    pose proof (direction_cases _ _ (directions_of_sub _ _ _ Hd))
      as (Hdr & Hdc & Hnz).
    pose proof (proj1 (inside_spec _ _) Hin2) as Hin2'.
    exists (k - 1).
    split.
    { split; [lia|]. cbn.
      destruct Hdr as [->|[->| ->]], Hdc as [->|[->| ->]]; lia. }
    split; [lia|]. split; [lia|]. split; [|done].
    intros j Hj. split.
    + apply inside_spec.
      destruct Hdr as [->|[->| ->]], Hdc as [->|[->| ->]]; lia.
    + replace (r + dr + j * dr) with (r + (j + 1) * dr) by lia.
      replace (c + dc + j * dc) with (c + (j + 1) * dc) by lia.
      apply Hclear. lia.
Qed.

Lemma sliders_stop_at_first_piece_witness :
  let b := stalemate_board 0 1 in
  let moves := piece_moves b 5 1 (mkPiece BLACK Queen) in
  wf_grid (board b) ∧ inside 5 1 = true
  ∧ cell (board b) 5 1 = Some (mkPiece BLACK Queen)
  ∧ (kind (mkPiece BLACK Queen) = Bishop ∨ kind (mkPiece BLACK Queen) = Rook
     ∨ kind (mkPiece BLACK Queen) = Queen)
  ∧ generate_pseudo_legal_moves_from b 5 1 = Ok moves
  ∧ (((5, 1), (7, 1)) ∈ moves ↔
     ∃ dr dc k, (dr, dc) ∈ directions_of (kind (mkPiece BLACK Queen)) ∧ 1 ≤ k
       ∧ 7 = 5 + k * dr ∧ 1 = 1 + k * dc
       ∧ inside 7 1 = true
       ∧ (∀ j, 1 ≤ j < k → cell (board b) (5 + j * dr) (1 + j * dc) = None)
       ∧ free_for (color (mkPiece BLACK Queen)) (cell (board b) 7 1) = true).
Proof.
  intros b moves.
  assert (Hwf : wf_grid (board b)).
  { split; [reflexivity|]. vm_compute. repeat constructor. }
  assert (Hc : cell (board b) 5 1 = Some (mkPiece BLACK Queen))
    by (vm_compute; reflexivity).
  assert (Hgen : generate_pseudo_legal_moves_from b 5 1 = Ok moves)
    by (vm_compute; reflexivity).
  split; [exact Hwf|]. split; [reflexivity|]. split; [exact Hc|].
  split; [by right; right|]. split; [exact Hgen|].
  exact (sliders_stop_at_first_piece b 5 1 (mkPiece BLACK Queen) moves 7 1
           Hwf eq_refl Hc (or_intror (or_intror eq_refl)) Hgen).
Defined.
